(** * Hybrid lexical/semantic retrieval: BM25 rerank over semantic candidates

    A shallow embedding of [BM25Preprocessor.py], [LegalKnowledgeIndexer.py]
    and [hybridRetrieval.py].

    Conventions of the embedding
    - a Python [str] is a list of Unicode code points ([N]); the Unicode
      tables behind [unicodedata.normalize], [str.lower] and [\w] are an
      interface ([UnicodeDB]), with an instance for ASCII text;
    - a Python [float] is idealised as a real number ([R]); a division
      raises [ZeroDivisionError] when its divisor is zero, as in Python;
    - a Python [dict] is an insertion-ordered association list (iteration
      order is observable through [sorted], which is stable);
    - code that can raise returns [py A]: [Ok] a value or [Raise] an
      exception;
    - a JSON directory is its sorted listing, each file with its parsed
      array of chunk records;
    - the embedding model and the FAISS index are an interface
      ([SemanticRuntime]). *)

From Stdlib Require Import String Ascii.
From Stdlib Require Import ZArith NArith Bool Arith Lia.
From Stdlib Require Import Reals Lra.
From Stdlib Require Import List Permutation Sorted.
Import ListNotations.

Set Implicit Arguments.

(** ** Exceptions *)

Inductive exc : Type :=
| ZeroDivisionError
| IndexError
| ValueError (msg : string)
| AssertionError
| AttributeError
| FileNotFoundError.

Inductive py (A : Type) : Type :=
| Ok (a : A)
| Raise (e : exc).

Arguments Ok {A} a.
Arguments Raise {A} e.

Definition bind {A B : Type} (m : py A) (k : A -> py B) : py B :=
  match m with
  | Ok a => k a
  | Raise e => Raise e
  end.

Notation "x <- m ;; k" := (bind m (fun x => k))
  (at level 61, m at next level, right associativity).

(** A [for] loop whose body can raise: the state is threaded left to
    right and the first exception ends the loop. *)
Fixpoint for_each {A S : Type} (body : A -> S -> py S) (l : list A) (s : S)
  : py S :=
  match l with
  | [] => Ok s
  | x :: rest => s' <- body x s ;; for_each body rest s'
  end.

(** [[f(x) for x in l]] where [f] can raise. *)
Fixpoint map_py {A B : Type} (f : A -> py B) (l : list A) : py (list B) :=
  match l with
  | [] => Ok []
  | x :: rest => y <- f x ;; ys <- map_py f rest ;; Ok (y :: ys)
  end.

(** ** Python strings *)

Module PyStr.

Definition char : Type := N.
Definition str : Type := list char.

(** An ASCII literal as a Python string. *)
Definition lit (s : string) : str :=
  map N_of_ascii (list_ascii_of_string s).

Definition str_eqb (a b : str) : bool :=
  if list_eq_dec N.eq_dec a b then true else false.

Definition SP : char := 32%N.
Definition LF : char := 10%N.
Definition CR : char := 13%N.
Definition BULLET : char := 8226%N.   (* U+2022 *)

(** [str.isspace] on one character (Py_UNICODE_ISSPACE). *)
Definition is_space (c : char) : bool :=
  ((9 <=? c) && (c <=? 13) || (28 <=? c) && (c <=? 32)
   || (c =? 133) || (c =? 160) || (c =? 5760)
   || (8192 <=? c) && (c <=? 8202)
   || (c =? 8232) || (c =? 8233) || (c =? 8239) || (c =? 8287)
   || (c =? 12288))%N.

(** Line boundaries of [str.splitlines] other than CR. *)
Definition is_linebreak (c : char) : bool :=
  ((c =? 10) || (c =? 11) || (c =? 12) || (c =? 28) || (c =? 29)
   || (c =? 30) || (c =? 133) || (c =? 8232) || (c =? 8233))%N.

Fixpoint lstrip_by (p : char -> bool) (s : str) : str :=
  match s with
  | [] => []
  | c :: rest => if p c then lstrip_by p rest else s
  end.

Definition rstrip_by (p : char -> bool) (s : str) : str :=
  rev (lstrip_by p (rev s)).

(** [s.strip()] *)
Definition strip (s : str) : str := rstrip_by is_space (lstrip_by is_space s).

(** [s.lstrip()] *)
Definition lstrip (s : str) : str := lstrip_by is_space s.

(** [s.lstrip(chars)] *)
Definition lstrip_chars (chars : str) (s : str) : str :=
  lstrip_by (fun c => existsb (N.eqb c) chars) s.

(** [s.startswith(p)] *)
Fixpoint startswith (p s : str) : bool :=
  match p, s with
  | [], _ => true
  | _ :: _, [] => false
  | a :: p', b :: s' => (a =? b)%N && startswith p' s'
  end.

(** [sep.join(l)] *)
Fixpoint join (sep : str) (l : list str) : str :=
  match l with
  | [] => []
  | [x] => x
  | x :: rest => x ++ sep ++ join sep rest
  end.

(** [s.splitlines()]: [cur] is the current line, reversed. *)
Fixpoint splitlines_from (cur : str) (s : str) : list str :=
  match s with
  | [] => match cur with [] => [] | _ => [rev cur] end
  | c :: rest =>
      if (c =? CR)%N then
        match rest with
        | d :: rest' =>
            if (d =? LF)%N then rev cur :: splitlines_from [] rest'
            else rev cur :: splitlines_from [] rest
        | [] => rev cur :: splitlines_from [] rest
        end
      else if is_linebreak c then rev cur :: splitlines_from [] rest
      else splitlines_from (c :: cur) rest
  end.

Definition splitlines (s : str) : list str := splitlines_from [] s.

(** [s.split()]: maximal runs of non-whitespace characters. *)
Fixpoint split_from (cur : str) (s : str) : list str :=
  match s with
  | [] => match cur with [] => [] | _ => [rev cur] end
  | c :: rest =>
      if is_space c then
        match cur with
        | [] => split_from [] rest
        | _ => rev cur :: split_from [] rest
        end
      else split_from (c :: cur) rest
  end.

Definition split (s : str) : list str := split_from [] s.

(** [' ' * n] *)
Definition spaces (n : nat) : str := repeat SP n.

(** A text field is blank when it is empty or whitespace only. *)
Definition blank (s : str) : Prop := Forall (fun c => is_space c = true) s.

End PyStr.

Import PyStr.

(** ** The JSON corpus records *)

(** A list item: [{"text": ..., "list": [...]}].  A missing ["text"] key
    reads as the empty string and a missing ["list"] key as the empty
    list, which is what [item.get] returns for them. *)
#[warnings="-register-all"]
Inductive item : Type :=
| Item (itext : str) (ilist : list item).

Record block : Type := Block { btext : str; blist : list item }.

(** A chunk record; [None] is a missing or null heading. *)
Record entry : Type := Entry {
  section : option str;
  subsection : option str;
  content : list block;
  topic : option str
}.

(** Truthiness of [entry.get(key)] for a string-valued key. *)
Definition truthy (o : option str) : option str :=
  match o with
  | Some (c :: s) => Some (c :: s)
  | _ => None
  end.

(** ** Python list and slice access *)

(** [l[i]] with Python's negative indices. *)
Definition py_index {A : Type} (l : list A) (i : Z) : py A :=
  let n := Z.of_nat (length l) in
  let j := if (i <? 0)%Z then (i + n)%Z else i in
  if ((0 <=? j) && (j <? n))%Z then
    match nth_error l (Z.to_nat j) with
    | Some a => Ok a
    | None => Raise IndexError
    end
  else Raise IndexError.

(** [l[:k]] *)
Definition py_take {A : Type} (k : Z) (l : list A) : list A :=
  if (k <? 0)%Z then firstn (Z.to_nat (Z.of_nat (length l) + k)) l
  else firstn (Z.to_nat k) l.

(** [l.index(x)] *)
Fixpoint list_index (x : str) (l : list str) : option nat :=
  match l with
  | [] => None
  | y :: rest =>
      if str_eqb y x then Some 0
      else match list_index x rest with
           | Some n => Some (S n)
           | None => None
           end
  end.

(** [s.endswith(p)] *)
Definition endswith (p s : str) : bool := startswith (rev p) (rev s).

(** [str(n)] for a non-negative integer: decimal digits, most
    significant first. *)
Fixpoint digits_from (fuel : nat) (n : nat) (acc : str) : str :=
  match fuel with
  | O => acc
  | S fuel' =>
      let acc' := N.of_nat (48 + Nat.modulo n 10) :: acc in
      if n <? 10 then acc' else digits_from fuel' (Nat.div n 10) acc'
  end.

Definition str_of_nat (n : nat) : str := digits_from (S n) n [].

(** ** Dictionaries

    A [dict] keeps its keys in insertion order; assigning to a key that is
    present keeps the key's position. *)

Class Key (K : Type) : Type := { key_eqb : K -> K -> bool }.

Definition dict (K V : Type) : Type := list (K * V).

Section Dict.
Context {K V : Type} `{Key K}.

(** [d.get(k)] *)
Fixpoint dict_get (k : K) (d : dict K V) : option V :=
  match d with
  | [] => None
  | (k', v) :: rest => if key_eqb k' k then Some v else dict_get k rest
  end.

(** [d.get(k, dflt)], and [d[k]] on a [defaultdict]. *)
Definition dict_get_or (k : K) (dflt : V) (d : dict K V) : V :=
  match dict_get k d with
  | Some v => v
  | None => dflt
  end.

(** [k in d] *)
Definition dict_mem (k : K) (d : dict K V) : bool :=
  match dict_get k d with
  | Some _ => true
  | None => false
  end.

(** [d[k] = v] *)
Fixpoint dict_set (k : K) (v : V) (d : dict K V) : dict K V :=
  match d with
  | [] => [(k, v)]
  | (k', v') :: rest =>
      if key_eqb k' k then (k', v) :: rest
      else (k', v') :: dict_set k v rest
  end.

Definition keys (d : dict K V) : list K := map fst d.

End Dict.

(** ** Unicode tables

    [unicodedata.normalize('NFKC', _)], [str.lower] and the regular
    expression class [\w] are tables of the Python runtime; they are
    taken as an interface. *)
Class UnicodeDB : Type := {
  nfkc : str -> str;
  lower : str -> str;
  is_word : char -> bool
}.

(** The tables restricted to ASCII text: NFKC is the identity there,
    [lower] maps A-Z to a-z and [\w] is [[A-Za-z0-9_]]. *)
Definition ascii_lower_char (c : char) : char :=
  if ((65 <=? c) && (c <=? 90))%N then (c + 32)%N else c.

Definition ascii_is_word (c : char) : bool :=
  ((48 <=? c) && (c <=? 57) || (65 <=? c) && (c <=? 90)
   || (97 <=? c) && (c <=? 122) || (c =? 95))%N.

Definition ascii_db : UnicodeDB := {|
  nfkc := fun s => s;
  lower := map ascii_lower_char;
  is_word := ascii_is_word
|}.

(** ** Floating-point values that may be non-finite (numpy arrays) *)

Inductive fl : Type :=
| Fin (r : R)
| PInf
| NInf
| NaN.

(** A numpy array as far as the code inspects it: its number of
    dimensions and, when it is a matrix, its rows. *)
Record ndarray : Type := NdArray { ndim : nat; rows : list (list fl) }.

(** ** Arithmetic that can raise *)

(** [x / y] on floats. *)
Definition py_div (x y : R) : py R :=
  if Req_dec_T y 0 then Raise ZeroDivisionError else Ok (x / y)%R.

(** [math.log(x)] *)
Definition py_log (x : R) : py R :=
  if Rlt_dec 0 x then Ok (ln x) else Raise (ValueError "math domain error").

(** [doc_len[i]] for a non-negative index. *)
Definition list_at {A : Type} (l : list A) (i : nat) : py A :=
  match nth_error l i with
  | Some a => Ok a
  | None => Raise IndexError
  end.

(** ** Stable sort by descending score

    [sorted(items, key=lambda x: x[1], reverse=True)]: Python's sort is
    stable, also under [reverse=True], so an item goes in front of the
    first item whose score is not greater than its own. *)
Section Sorted.
Context {K : Type}.

Fixpoint insert_desc (x : K * R) (l : list (K * R)) : list (K * R) :=
  match l with
  | [] => [x]
  | y :: rest =>
      if Rlt_dec (snd x) (snd y) then y :: insert_desc x rest
      else x :: y :: rest
  end.

Definition sorted_desc (l : list (K * R)) : list (K * R) :=
  fold_right insert_desc [] l.

End Sorted.

#[export] Instance str_key : Key str := {| key_eqb := str_eqb |}.

#[export] Instance nat_key : Key nat := {| key_eqb := Nat.eqb |}.

(** ** The lexical index: [BM25Preprocessor] *)

Module BM25Preprocessor.

(** The object's fields. *)
Record t : Type := Make {
  k1 : R;
  b : R;
  raw_chunks : list str;
  normalised_chunks : list str;
  N : nat;
  avgdl : R;
  doc_len : list nat;
  df : dict str nat;
  postings : dict str (dict nat nat);
  idf : dict str R
}.

(** [__init__] *)
Definition init (k1 b : R) : t :=
  {| k1 := k1; b := b; raw_chunks := []; normalised_chunks := [];
     N := 0; avgdl := 0; doc_len := []; df := []; postings := [];
     idf := [] |}.

(** [process_list]: [lines] is the accumulator the Python code appends
    to; the result is the accumulator afterwards. *)
Fixpoint process_item (depth : nat) (it : item) (lines : list str)
  {struct it} : list str :=
  match it with
  | Item text nested =>
      let raw := strip text in
      let line :=
        match depth with
        | O => raw
        | S _ =>
            let content := strip (lstrip_chars [BULLET; SP] raw) in
            spaces (depth * 8) ++ lit "* " ++ content
        end in
      (fix each (items : list item) (acc : list str) : list str :=
         match items with
         | [] => acc
         | x :: rest => each rest (process_item (S depth) x acc)
         end) nested (lines ++ [line])
  end.

Definition process_list (items : list item) (depth : nat)
  (lines : list str) : list str :=
  fold_left (fun acc it => process_item depth it acc) items lines.

(** The lines of one content block. *)
Definition block_lines (lines : list str) (blk : block) : list str :=
  let text := strip (btext blk) in
  let lines1 := match text with [] => lines | _ => lines ++ [text] end in
  process_list (blist blk) 0 lines1.

Definition heading_lines (e : entry) : list str :=
  let l1 := match truthy (section e) with
            | Some s => [lit "Section: " ++ s ++ lit "."]
            | None => []
            end in
  match truthy (subsection e) with
  | Some s => l1 ++ [lit "Subsection: " ++ s ++ lit "."]
  | None => l1
  end.

Definition flatten_lines (e : entry) : list str :=
  fold_left block_lines (content e) (heading_lines e).

Definition flatten_content (e : entry) : str :=
  join [LF] (flatten_lines e).

Section WithUnicode.
Context {U : UnicodeDB}.

(** [re.sub(r"\b(\w+)'s\b", r"\1", text)]: a maximal run of word
    characters followed by ['s] and then by a non-word character or the
    end of the text loses the ['s].  [prev_word] says that the character
    before the current one is a word character outside any earlier
    match. *)
Fixpoint strip_possessive (prev_word : bool) (s : str) : str :=
  match s with
  | [] => []
  | c :: rest =>
      let keep := c :: strip_possessive (is_word c) rest in
      if prev_word && (c =? 39)%N then
        match rest with
        | d :: rest2 =>
            if (d =? 115)%N
               && match rest2 with
                  | [] => true
                  | e :: _ => negb (is_word e)
                  end
            then strip_possessive false rest2
            else keep
        | [] => keep
        end
      else keep
  end.

(** [re.sub(r"[^\w\s]", " ", text)] *)
Definition strip_punct (s : str) : str :=
  map (fun c => if is_word c || is_space c then c else SP) s.

(** [re.sub(r"\s+", " ", text)] *)
Fixpoint collapse_ws (in_ws : bool) (s : str) : str :=
  match s with
  | [] => []
  | c :: rest =>
      if is_space c then
        if in_ws then collapse_ws true rest else SP :: collapse_ws true rest
      else c :: collapse_ws false rest
  end.

Definition normalize (text : str) : str :=
  let text := nfkc text in
  let text := lower text in
  let text := strip_possessive false text in
  let text := strip_punct text in
  strip (collapse_ws false text).

(** The chunks of the directory: [dir] is the sorted listing, each file
    with its parsed JSON array. *)
Definition file_chunks (data : list entry) : list str :=
  filter (fun c => match c with [] => false | _ => true end)
         (map flatten_content data).

Definition gather_chunks (dir : list (str * list entry)) : list str :=
  flat_map (fun f => if endswith (lit ".json") (lower (fst f))
                     then file_chunks (snd f) else [])
           dir.

End WithUnicode.

(** The term counts of one document: [tf_counts[tok] += 1]. *)
Definition count_terms (tokens : list str) : dict str nat :=
  fold_left (fun tf tok => dict_set tok (dict_get_or tok 0 tf + 1) tf)
            tokens [].

(** The part of the object the indexing loop updates. *)
Record stats : Type := Stats {
  s_total_len : nat;
  s_doc_len : list nat;
  s_df : dict str nat;
  s_postings : dict str (dict nat nat)
}.

(** [self.df[tok] += 1; self.postings[tok][idx] = freq] *)
Definition add_posting (idx : nat) (st : stats) (e : str * nat) : stats :=
  let (tok, freq) := e in
  {| s_total_len := s_total_len st;
     s_doc_len := s_doc_len st;
     s_df := dict_set tok (dict_get_or tok 0 (s_df st) + 1) (s_df st);
     s_postings :=
       dict_set tok (dict_set idx freq (dict_get_or tok [] (s_postings st)))
                (s_postings st) |}.

(** One turn of the loop over [enumerate(self.normalised_chunks)]. *)
Definition index_doc (st : stats) (e : nat * str) : stats :=
  let (idx, doc) := e in
  let tokens := split doc in
  let dl := length tokens in
  let st1 := {| s_total_len := s_total_len st + dl;
                s_doc_len := s_doc_len st ++ [dl];
                s_df := s_df st;
                s_postings := s_postings st |} in
  fold_left (add_posting idx) (count_terms tokens) st1.

Definition enumerate {A : Type} (l : list A) : list (nat * A) :=
  combine (seq 0 (length l)) l.

(** [self.idf[tok] = math.log((self.N - df + 0.5) / (df + 0.5) + 1)] *)
Definition idf_step (n : nat) (e : str * nat) (idf : dict str R)
  : py (dict str R) :=
  let (tok, d) := e in
  q <- py_div (INR n - INR d + 0.5) (INR d + 0.5) ;;
  v <- py_log (q + 1) ;;
  Ok (dict_set tok v idf).

Section WithUnicode.
Context {U : UnicodeDB}.

Definition load_and_prepare (self : t) (dir : list (str * list entry))
  : py t :=
  let raw := raw_chunks self ++ gather_chunks dir in
  let norm := normalised_chunks self ++ map normalize (gather_chunks dir) in
  let n := length norm in
  let st := fold_left index_doc (enumerate norm)
              (Stats 0 (doc_len self) (df self) (postings self)) in
  avg <- (if Nat.eqb n 0 then Ok 0%R
          else py_div (INR (s_total_len st)) (INR n)) ;;
  idf' <- for_each (idf_step n) (s_df st) (idf self) ;;
  Ok {| k1 := k1 self; b := b self;
        raw_chunks := raw; normalised_chunks := norm;
        N := n; avgdl := avg; doc_len := s_doc_len st;
        df := s_df st; postings := s_postings st; idf := idf' |}.

(** The two statements inside the loop over [self.postings[tok].items()]. *)
Definition score_doc (self : t) (candidate_ids : list Z) (idf_tok : R)
  (e : nat * nat) (scores : dict nat R) : py (dict nat R) :=
  let (doc_id, freq) := e in
  if negb (existsb (Z.eqb (Z.of_nat doc_id)) candidate_ids) then Ok scores
  else
    dl <- list_at (doc_len self) doc_id ;;
    r <- py_div (b self * INR dl) (avgdl self) ;;
    let denom := (INR freq + k1 self * (1 - b self + r))%R in
    c <- py_div (idf_tok * INR freq * (k1 self + 1)) denom ;;
    Ok (dict_set doc_id (dict_get_or doc_id 0%R scores + c)%R scores).

(** The body of the loop over [q_tokens]. *)
Definition score_token (self : t) (candidate_ids : list Z) (tok : str)
  (scores : dict nat R) : py (dict nat R) :=
  match dict_get tok (postings self) with
  | None => Ok scores
  | Some plist =>
      let idf_tok := dict_get_or tok 0%R (idf self) in
      for_each (score_doc self candidate_ids idf_tok) plist scores
  end.

(** The [scores] dictionary when the loops are over. *)
Definition accumulate (self : t) (query : str) (candidate_ids : list Z)
  : py (dict nat R) :=
  for_each (score_token self candidate_ids) (split (normalize query)) [].

Definition score_subset (self : t) (query : str) (candidate_ids : list Z)
  (top_k : Z) : py (list (nat * R)) :=
  scores <- accumulate self query candidate_ids ;;
  let ranked := sorted_desc scores in
  Ok (py_take top_k ranked).

End WithUnicode.

End BM25Preprocessor.

(** ** The semantic index: [LegalKnowledgeIndexer] *)

(** The sentence-embedding model and the FAISS inner-product index are
    libraries outside the repository: [encode texts] is
    [model.encode(texts, convert_to_numpy=True, normalize_embeddings=True)]
    and [search vectors q k] is the first row of
    [IndexFlatIP.search(q, k)] over the stored [vectors], as
    [zip(D[0], I[0])]. *)
Class SemanticRuntime : Type := {
  encode : list str -> ndarray;
  search : list (list fl) -> list (list fl) -> Z -> list (R * Z)
}.

Module LegalKnowledgeIndexer.

Record meta : Type := Meta {
  m_section : option str;
  m_subsection : option str;
  m_topic : option str
}.

(** The three artifacts a build leaves on disk. *)
Inductive file : Type :=
| FaissFile (vectors : list (list fl))
| PickleFile (strings : list str).

Definition disk : Type := dict str file.

Record t : Type := Make {
  index_path : option str;
  chunks_path : option str;
  id_meta_path : option str;
  file_chunks : dict str (list str);
  chunk_meta : dict str (list meta);
  ids : list str;
  all_chunks : list str;
  index : option (list (list fl))
}.

Definition init (index_path chunks_path id_meta_path : option str) : t :=
  {| index_path := index_path; chunks_path := chunks_path;
     id_meta_path := id_meta_path; file_chunks := []; chunk_meta := [];
     ids := []; all_chunks := []; index := None |}.

Fixpoint process_item (depth : nat) (it : item) (lines : list str)
  {struct it} : list str :=
  match it with
  | Item text nested =>
      let raw := strip text in
      let line :=
        match depth with
        | O => raw
        | S _ =>
            let content := strip (lstrip_chars [BULLET; SP] raw) in
            spaces (depth * 8) ++ lit "- " ++ content
        end in
      (fix each (items : list item) (acc : list str) : list str :=
         match items with
         | [] => acc
         | x :: rest => each rest (process_item (S depth) x acc)
         end) nested (lines ++ [line])
  end.

Definition process_list (items : list item) (depth : nat)
  (lines : list str) : list str :=
  fold_left (fun acc it => process_item depth it acc) items lines.

Definition block_lines (lines : list str) (blk : block) : list str :=
  let text := strip (btext blk) in
  let lines1 := match text with [] => lines | _ => lines ++ [text] end in
  process_list (blist blk) 0 lines1.

Definition flatten_lines (e : entry) : list str :=
  fold_left block_lines (content e) [].

(** [next_ln.lstrip().startswith(("•", "-"))] *)
Definition is_bullet (ln : str) : bool :=
  let s := lstrip ln in startswith [BULLET] s || startswith (lit "-") s.

(** The loop that builds [out_lines]. *)
Fixpoint separate (lines : list str) : list str :=
  match lines with
  | [] => []
  | ln :: rest =>
      match rest with
      | [] => [ln]
      | next_ln :: _ =>
          let next_is_bullet := is_bullet next_ln in
          let is_heading := startswith (lit "Section:") ln
                            || startswith (lit "Subsection:") ln in
          if (is_heading && next_is_bullet) || negb next_is_bullet
          then ln :: [] :: separate rest
          else ln :: separate rest
      end
  end.

Definition flatten_content (e : entry) : str :=
  join [LF] (separate (flatten_lines e)).

(** The chunks and metadata of one file. *)
Definition flatten_file (data : list entry) : list (str * meta) :=
  flat_map (fun e => match flatten_content e with
                     | [] => []
                     | chunk => [(chunk, Meta (section e) (subsection e)
                                               (topic e))]
                     end) data.

Definition load_and_flatten (self : t) (dir : list (str * list entry)) : t :=
  fold_left
    (fun s f =>
       if endswith (lit ".json") (fst f) then
         let cm := flatten_file (snd f) in
         {| index_path := index_path s; chunks_path := chunks_path s;
            id_meta_path := id_meta_path s;
            file_chunks := dict_set (fst f) (map fst cm) (file_chunks s);
            chunk_meta := dict_set (fst f) (map snd cm) (chunk_meta s);
            ids := ids s; all_chunks := all_chunks s; index := index s |}
       else s)
    dir self.

(** [np.linalg.norm(embs, axis=1)] on one row. *)
Definition sum_squares (row : list R) : R :=
  fold_left (fun acc x => (acc + x * x)%R) row 0%R.

Fixpoint finite_row (row : list fl) : option (list R) :=
  match row with
  | [] => Some []
  | Fin r :: rest =>
      match finite_row rest with
      | Some rs => Some (r :: rs)
      | None => None
      end
  | _ :: _ => None
  end.

Definition is_nan (x : fl) : bool :=
  match x with NaN => true | _ => false end.

Definition is_inf (x : fl) : bool :=
  match x with PInf | NInf => true | _ => false end.

Definition norm (row : list fl) : fl :=
  match finite_row row with
  | Some rs => Fin (sqrt (sum_squares rs))
  | None => if existsb is_nan row then NaN else PInf
  end.

(** [np.isclose(a, b, rtol, atol)] for a finite [b]:
    [|a - b| <= atol + rtol * |b|]; a non-finite [a] is not close. *)
Definition isclose (a : fl) (b0 rtol atol : R) : bool :=
  match a with
  | Fin x => if Rle_dec (Rabs (x - b0)) (atol + rtol * Rabs b0) then true
             else false
  | _ => false
  end.

(** [np.allclose(a, b, atol=atol)]: numpy's [rtol] keeps its default,
    [1e-05]. *)
Definition default_rtol : R := (1 / 100000)%R.

Definition allclose (a : list fl) (b0 atol : R) : bool :=
  forallb (fun x => isclose x b0 default_rtol atol) a.

Section WithRuntime.
Context {M : SemanticRuntime}.

Definition embed (texts : list str) : py ndarray :=
  let embs := encode texts in
  if negb (Nat.eqb (ndim embs) 2) then Raise AssertionError
  else
    let norms := map norm (rows embs) in
    if negb (allclose norms 1 (1 / 1000000)) then
      Raise (ValueError "Some embeddings deviate from unit norm")
    else if existsb (existsb is_nan) (rows embs)
            || existsb (existsb is_inf) (rows embs) then
      Raise (ValueError "Invalid values in embeddings")
    else Ok embs.

(** The loop of [build_index] that gathers chunks and names them. *)
Definition gather_file (s : list str * list str)
  (f : str * list str) (metas : list meta) : list str * list str :=
  fold_left
    (fun acc e =>
       let '(i, (chunk, _)) := e in
       (fst acc ++ [chunk],
        snd acc ++ [fst f ++ lit "_chunk_" ++ str_of_nat i]))
    (BM25Preprocessor.enumerate (combine (snd f) metas)) s.

Definition gather (self : t) : list str * list str :=
  fold_left
    (fun acc f => gather_file acc f (dict_get_or (fst f) [] (chunk_meta self)))
    (file_chunks self) (all_chunks self, ids self).

Definition write (path : option str) (content : file) (d : disk) : disk :=
  match path with
  | Some (c :: p) => dict_set (c :: p) content d
  | _ => d
  end.

(** [build_index]: the result is the outcome together with the disk
    afterwards, so that what was written before an exception shows. *)
Definition build_index (self : t) (d : disk) : py t * disk :=
  let (chunks, names) := gather self in
  match embed chunks with
  | Raise e => (Raise e, d)
  | Ok embeddings =>
      let d1 := write (index_path self) (FaissFile (rows embeddings)) d in
      let d2 := write (chunks_path self) (PickleFile chunks) d1 in
      let d3 := write (id_meta_path self) (PickleFile names) d2 in
      (Ok {| index_path := index_path self; chunks_path := chunks_path self;
             id_meta_path := id_meta_path self;
             file_chunks := file_chunks self; chunk_meta := chunk_meta self;
             ids := names; all_chunks := chunks;
             index := Some (rows embeddings) |}, d3)
  end.

Definition read_faiss (d : disk) (path : str) : py (list (list fl)) :=
  match dict_get path d with
  | Some (FaissFile v) => Ok v
  | _ => Raise FileNotFoundError
  end.

Definition read_pickle (d : disk) (path : str) : py (list str) :=
  match dict_get path d with
  | Some (PickleFile l) => Ok l
  | _ => Raise FileNotFoundError
  end.

Definition load (self : t) (d : disk) : py t :=
  idx <- match truthy (index_path self) with
         | Some p => v <- read_faiss d p ;; Ok (Some v)
         | None => Ok (index self)
         end ;;
  chunks <- match truthy (chunks_path self) with
            | Some p => read_pickle d p
            | None => Ok (all_chunks self)
            end ;;
  names <- match truthy (id_meta_path self) with
           | Some p => read_pickle d p
           | None => Ok (ids self)
           end ;;
  Ok {| index_path := index_path self; chunks_path := chunks_path self;
        id_meta_path := id_meta_path self;
        file_chunks := file_chunks self; chunk_meta := chunk_meta self;
        ids := names; all_chunks := chunks; index := idx |}.

Definition query (self : t) (text : str) (top_k : Z) : py (list (R * str)) :=
  q_emb <- embed [text] ;;
  match index self with
  | None => Raise AttributeError
  | Some vectors =>
      map_py (fun hit : R * Z =>
                id <- py_index (ids self) (snd hit) ;; Ok (fst hit, id))
             (search vectors (rows q_emb) top_k)
  end.

End WithRuntime.

End LegalKnowledgeIndexer.

(** ** The hybrid retriever: [HybridRetrieval] *)

Module HybridRetrieval.

Record t : Type := Make {
  query : str;
  sb : LegalKnowledgeIndexer.t;
  bm25 : BM25Preprocessor.t
}.

(** The text handed back for one chunk: leading lines that start with
    [Section:] are popped, the rest is joined and stripped. *)
Fixpoint pop_sections (lines : list str) : list str :=
  match lines with
  | [] => []
  | ln :: rest =>
      if startswith (lit "Section:") ln then pop_sections rest else lines
  end.

Definition clean_chunk (chunk : str) : str :=
  strip (join [LF] (pop_sections (splitlines chunk))).

Section WithRuntime.
Context {U : UnicodeDB} {M : SemanticRuntime}.

(** [__init__]: the semantic index is loaded from disk, the lexical one
    is rebuilt from the JSON directory. *)
Definition init (input_query : str) (d : LegalKnowledgeIndexer.disk)
  (dir : list (str * list entry)) : py t :=
  sb <- LegalKnowledgeIndexer.load
          (LegalKnowledgeIndexer.init
             (Some (lit "./legal_chunks.faiss"))
             (Some (lit "./legal_chunks.chunks.pkl"))
             (Some (lit "./legal_chunks.ids.pkl"))) d ;;
  bm <- BM25Preprocessor.load_and_prepare
          (BM25Preprocessor.init (3 / 2) (3 / 4)) dir ;;
  Ok {| query := input_query; sb := sb; bm25 := bm |}.

(** [self.sb.ids.index(chunk_id)] for each semantic hit. *)
Definition candidate_id (self : t) (hit : R * str) : py Z :=
  match list_index (snd hit) (LegalKnowledgeIndexer.ids (sb self)) with
  | Some n => Ok (Z.of_nat n)
  | None => Raise (ValueError "is not in list")
  end.

Definition run (self : t) (top_k_sem top_k_bm25 : Z) : py (list str) :=
  sem_hits <- LegalKnowledgeIndexer.query (sb self) (query self) top_k_sem ;;
  candidate_int_ids <- map_py (candidate_id self) sem_hits ;;
  bm25_hits <- BM25Preprocessor.score_subset (bm25 self) (query self)
                 candidate_int_ids top_k_bm25 ;;
  map_py (fun hit : nat * R =>
            chunk <- list_at (BM25Preprocessor.raw_chunks (bm25 self))
                       (fst hit) ;;
            Ok (clean_chunk chunk))
         bm25_hits.

End WithRuntime.

End HybridRetrieval.

(** ** Reference formulas and invariants *)

(** The line a list item whose text is blank leaves behind. *)
Definition blank_item_line (marker : str) (depth : nat) : str :=
  match depth with
  | O => []
  | S _ => spaces (depth * 8) ++ marker
  end.

(** The BM25 contribution of one query term to one chunk, as a formula. *)
Definition term_score (k1 b avgdl idf_tok : R) (freq dl : nat) : R :=
  (idf_tok * INR freq * (k1 + 1)
   / (INR freq + k1 * (1 - b + b * INR dl / avgdl)))%R.

(** The inverse document frequency of a term found in [d] of [n] chunks. *)
Definition idf_value (n d : nat) : R :=
  ln ((INR n - INR d + 0.5) / (INR d + 0.5) + 1).

(** What the indexing loop maintains after [i] documents. *)
Definition postings_ok (dls : list nat) (ps : dict str (dict nat nat)) : Prop :=
  forall tok pl, In (tok, pl) ps ->
    NoDup (keys pl) /\ pl <> [] /\
    forall d f, In (d, f) pl ->
      1 <= f /\ exists dl, nth_error dls d = Some dl /\ 1 <= dl.

Definition stats_inv (i : nat) (st : BM25Preprocessor.stats) : Prop :=
  length (BM25Preprocessor.s_doc_len st) = i /\
  BM25Preprocessor.s_total_len st
    = list_sum (BM25Preprocessor.s_doc_len st) /\
  (forall tok n, In (tok, n) (BM25Preprocessor.s_df st) -> 1 <= n <= i) /\
  postings_ok (BM25Preprocessor.s_doc_len st)
              (BM25Preprocessor.s_postings st) /\
  (forall tok, dict_mem tok (BM25Preprocessor.s_postings st) = true ->
               dict_mem tok (BM25Preprocessor.s_df st) = true).

(** The BM25 constants in their range: [k1 >= 0] and [0 <= b <= 1]. *)
Definition params_ok (self : BM25Preprocessor.t) : Prop :=
  (0 <= BM25Preprocessor.k1 self)%R /\
  (0 <= BM25Preprocessor.b self <= 1)%R.

(** A lexical index in a consistent state. *)
Record wf (self : BM25Preprocessor.t) : Prop := {
  wf_len : length (BM25Preprocessor.doc_len self) = BM25Preprocessor.N self;
  wf_postings : postings_ok (BM25Preprocessor.doc_len self)
                            (BM25Preprocessor.postings self);
  wf_avgdl : (exists d dl, nth_error (BM25Preprocessor.doc_len self) d
                           = Some dl /\ 1 <= dl) ->
             (0 < BM25Preprocessor.avgdl self)%R;
  wf_idf_pos : forall tok v, In (tok, v) (BM25Preprocessor.idf self) ->
                             (0 < v)%R;
  wf_idf_dom : forall tok,
      dict_mem tok (BM25Preprocessor.postings self) = true ->
      dict_mem tok (BM25Preprocessor.idf self) = true
}.

(** *** The lexical index as a value

    What [load_and_prepare] leaves in a fresh object, written without the
    exception monad. *)

Definition index_stats (norm : list str) : BM25Preprocessor.stats :=
  fold_left BM25Preprocessor.index_doc (BM25Preprocessor.enumerate norm)
            (BM25Preprocessor.Stats 0 [] [] []).

Definition idf_set (n : nat) (idf : dict str R) (e : str * nat)
  : dict str R :=
  dict_set (fst e) (idf_value n (snd e)) idf.

Definition built {U : UnicodeDB} (k1 b : R) (dir : list (str * list entry))
  : BM25Preprocessor.t :=
  let chunks := BM25Preprocessor.gather_chunks dir in
  let norm := map BM25Preprocessor.normalize chunks in
  let st := index_stats norm in
  let n := length norm in
  {| BM25Preprocessor.k1 := k1;
     BM25Preprocessor.b := b;
     BM25Preprocessor.raw_chunks := chunks;
     BM25Preprocessor.normalised_chunks := norm;
     BM25Preprocessor.N := n;
     BM25Preprocessor.avgdl :=
       if Nat.eqb n 0 then 0%R
       else (INR (BM25Preprocessor.s_total_len st) / INR n)%R;
     BM25Preprocessor.doc_len := BM25Preprocessor.s_doc_len st;
     BM25Preprocessor.df := BM25Preprocessor.s_df st;
     BM25Preprocessor.postings := BM25Preprocessor.s_postings st;
     BM25Preprocessor.idf :=
       fold_left (idf_set n) (BM25Preprocessor.s_df st) [] |}.

(** *** The scores as a formula *)

(** [doc_id in candidate_ids] *)
Definition in_candidates (candidate_ids : list Z) (doc_id : nat) : bool :=
  existsb (Z.eqb (Z.of_nat doc_id)) candidate_ids.

(** The contribution of a term of weight [idf_tok] that occurs [freq]
    times in chunk [doc_id]. *)
Definition doc_term_score (self : BM25Preprocessor.t) (idf_tok : R)
  (doc_id freq : nat) : R :=
  term_score (BM25Preprocessor.k1 self) (BM25Preprocessor.b self)
             (BM25Preprocessor.avgdl self) idf_tok freq
             (nth doc_id (BM25Preprocessor.doc_len self) 0).

(** What one query token adds to the score of chunk [doc_id]: nothing
    unless the token has postings, the chunk is among them and the chunk is
    a candidate. *)
Definition contribution (self : BM25Preprocessor.t) (candidate_ids : list Z)
  (tok : str) (doc_id : nat) : option R :=
  match dict_get tok (BM25Preprocessor.postings self) with
  | None => None
  | Some plist =>
      match dict_get doc_id plist with
      | None => None
      | Some freq =>
          if in_candidates candidate_ids doc_id then
            Some (doc_term_score self
                    (dict_get_or tok 0%R (BM25Preprocessor.idf self))
                    doc_id freq)
          else None
      end
  end.

(** The score of chunk [doc_id] after the query tokens [tokens]: the sum,
    in query order and starting from [0.0], of the contributions; [None]
    when no token contributes. *)
Definition add_contribution (self : BM25Preprocessor.t)
  (candidate_ids : list Z) (doc_id : nat) (acc : option R) (tok : str)
  : option R :=
  match contribution self candidate_ids tok doc_id with
  | Some c => Some (match acc with Some s => s | None => 0 end + c)%R
  | None => acc
  end.

Definition score_of (self : BM25Preprocessor.t) (candidate_ids : list Z)
  (tokens : list str) (doc_id : nat) : option R :=
  fold_left (add_contribution self candidate_ids doc_id) tokens None.

(** The two loops of [score_subset] without the exception monad. *)
Definition score_doc_pure (self : BM25Preprocessor.t)
  (candidate_ids : list Z) (idf_tok : R) (scores : dict nat R)
  (e : nat * nat) : dict nat R :=
  if in_candidates candidate_ids (fst e) then
    dict_set (fst e)
             (dict_get_or (fst e) 0%R scores
              + doc_term_score self idf_tok (fst e) (snd e))%R
             scores
  else scores.

Definition score_token_pure (self : BM25Preprocessor.t)
  (candidate_ids : list Z) (scores : dict nat R) (tok : str) : dict nat R :=
  match dict_get tok (BM25Preprocessor.postings self) with
  | None => scores
  | Some plist =>
      fold_left (score_doc_pure self candidate_ids
                   (dict_get_or tok 0%R (BM25Preprocessor.idf self)))
                plist scores
  end.

(** Items whose score is [s]. *)
Definition score_is {K : Type} (s : R) (e : K * R) : bool :=
  if Req_dec_T (snd e) s then true else false.

(** Descending order of scores. *)
Definition score_ge {K : Type} (x y : K * R) : Prop := (snd y <= snd x)%R.

(** *** A small corpus

    The three chunks of the end-to-end example, as one JSON file. *)
Definition example_dir : list (str * list entry) :=
  [(lit "employment.json",
    [Entry (Some (lit "Redundancy")) None
           [Block (lit "An employee may claim redundancy pay.") []] None;
     Entry (Some (lit "Settlement")) None
           [Block (lit "A settlement agreement ends employment by consent.")
                  []] None;
     Entry (Some (lit "Redundancy")) None
           [Block (lit "Redundancy pay depends on length of service.") []]
           None])].

Definition example_index : BM25Preprocessor.t :=
  built (U := ascii_db) (3 / 2) (3 / 4) example_dir.

(** Three one-word chunks, the first and the last alike. *)
Definition word_entry (w : str) : entry := Entry None None [Block w []] None.

Definition tie_dir : list (str * list entry) :=
  [(lit "a.json",
    [word_entry (lit "alpha"); word_entry (lit "beta");
     word_entry (lit "alpha")])].

Definition tie_index : BM25Preprocessor.t :=
  built (U := ascii_db) (3 / 2) (3 / 4) tie_dir.

(** *** Sample runtimes for the semantic side *)

(** The score FAISS reports next to the label [-1] when an inner-product
    search has fewer than [k] vectors to return. *)
Definition faiss_no_hit : R * Z :=
  ((- 340282346638528859811704183484516925440)%R, (-1)%Z).

(** An embedding model that maps every text to the unit vector [[1.0]],
    and the exact inner-product search over such vectors: every stored
    vector scores [1.0], labels come in index order, and the answer is
    padded to [k] entries with the label [-1]. *)
Definition unit_search (vectors : list (list fl)) (q : list (list fl))
  (k : Z) : list (R * Z) :=
  let n := length vectors in
  map (fun i => (1%R, Z.of_nat i)) (seq 0 (Nat.min (Z.to_nat k) n))
  ++ repeat faiss_no_hit (Z.to_nat k - n).

Definition unit_runtime : SemanticRuntime := {|
  encode := fun texts => NdArray 2 (map (fun _ => [Fin 1]) texts);
  search := unit_search
|}.

(** A model whose vectors have length [1.000005]: off the unit sphere by
    five times the tolerance written in [embed]. *)
Definition off_norm : R := (1000005 / 1000000)%R.

Definition off_norm_runtime : SemanticRuntime := {|
  encode := fun texts => NdArray 2 (map (fun _ => [Fin off_norm]) texts);
  search := unit_search
|}.

(** The first line left after the [Section:] lines starts with a
    character that is not whitespace. *)
Definition first_line_solid (lines : list str) : Prop :=
  match lines with
  | (c :: _) :: _ => is_space c = false
  | _ => False
  end.

(** A semantic hit has a lexical entry when its position is below [N]. *)
Definition has_lexical_entry (self : BM25Preprocessor.t) (z : Z) : bool :=
  (z <? Z.of_nat (BM25Preprocessor.N self))%Z.

(** A chunk whose only content line itself starts with [Section:]. *)
Definition section_only_dir : list (str * list entry) :=
  [(lit "a.json",
    [Entry (Some (lit "Redundancy")) None
           [Block (lit "Section: 139 defines redundancy.") []] None])].

(** The paths [HybridRetrieval.__init__] loads the semantic index from. *)
Definition semantic_paths : LegalKnowledgeIndexer.t :=
  LegalKnowledgeIndexer.init
    (Some (lit "./legal_chunks.faiss"))
    (Some (lit "./legal_chunks.chunks.pkl"))
    (Some (lit "./legal_chunks.ids.pkl")).

(** The disk after the semantic index of [dir] has been built. *)
Definition semantic_disk {M : SemanticRuntime} (dir : list (str * list entry))
  : LegalKnowledgeIndexer.disk :=
  snd (LegalKnowledgeIndexer.build_index
         (LegalKnowledgeIndexer.load_and_flatten semantic_paths dir) []).

(** A row passes the first check of [embed] exactly when it is finite
    and its norm is within [1e-6 + 1e-5] of 1. *)
Definition row_accepted (row : list fl) : Prop :=
  exists rs, LegalKnowledgeIndexer.finite_row row = Some rs /\
             (Rabs (sqrt (LegalKnowledgeIndexer.sum_squares rs) - 1)
              <= 1 / 1000000 + 1 / 100000)%R.

(** The whole pipeline on one machine: the semantic index of [sem_dir] is
    built and persisted, the retriever is started on that disk and on the
    JSON directory [lex_dir], and [run] answers the query. *)
Definition retrieve {U : UnicodeDB} {M : SemanticRuntime} (q : str)
  (sem_dir lex_dir : list (str * list entry)) (top_k_sem top_k_bm25 : Z)
  : py (list str) :=
  self <- HybridRetrieval.init q (semantic_disk sem_dir) lex_dir ;;
  HybridRetrieval.run self top_k_sem top_k_bm25.

(** The semantic index a build over [dir] leaves in memory and on disk. *)
Definition semantic_index {M : SemanticRuntime}
  (dir : list (str * list entry)) : LegalKnowledgeIndexer.t :=
  let (chunks, names) :=
    LegalKnowledgeIndexer.gather
      (LegalKnowledgeIndexer.load_and_flatten semantic_paths dir) in
  {| LegalKnowledgeIndexer.index_path :=
       LegalKnowledgeIndexer.index_path semantic_paths;
     LegalKnowledgeIndexer.chunks_path :=
       LegalKnowledgeIndexer.chunks_path semantic_paths;
     LegalKnowledgeIndexer.id_meta_path :=
       LegalKnowledgeIndexer.id_meta_path semantic_paths;
     LegalKnowledgeIndexer.file_chunks := [];
     LegalKnowledgeIndexer.chunk_meta := [];
     LegalKnowledgeIndexer.ids := names;
     LegalKnowledgeIndexer.all_chunks := chunks;
     LegalKnowledgeIndexer.index := Some (rows (encode chunks)) |}.

(** The retriever once started: the semantic index of [sem_dir] loaded,
    the lexical index of [lex_dir] rebuilt with the constants of
    [__init__]. *)
Definition started {U : UnicodeDB} {M : SemanticRuntime} (q : str)
  (sem_dir lex_dir : list (str * list entry)) : HybridRetrieval.t :=
  {| HybridRetrieval.query := q;
     HybridRetrieval.sb := semantic_index sem_dir;
     HybridRetrieval.bm25 := built (3 / 2) (3 / 4) lex_dir |}.

(** The corpus of the example once its last two records are gone. *)
Definition one_chunk_dir : list (str * list entry) :=
  [(lit "employment.json",
    [Entry (Some (lit "Redundancy")) None
           [Block (lit "An employee may claim redundancy pay.") []] None])].

(** [run] with the semantic hits that have no lexical entry taken out
    before the rerank. *)
Definition run_dropping {U : UnicodeDB} {M : SemanticRuntime}
  (self : HybridRetrieval.t) (top_k_sem top_k_bm25 : Z) : py (list str) :=
  sem_hits <- LegalKnowledgeIndexer.query (HybridRetrieval.sb self)
                (HybridRetrieval.query self) top_k_sem ;;
  candidate_int_ids <- map_py (HybridRetrieval.candidate_id self) sem_hits ;;
  bm25_hits <- BM25Preprocessor.score_subset (HybridRetrieval.bm25 self)
                 (HybridRetrieval.query self)
                 (filter (has_lexical_entry (HybridRetrieval.bm25 self))
                         candidate_int_ids)
                 top_k_bm25 ;;
  map_py (fun hit : nat * R =>
            chunk <- list_at (BM25Preprocessor.raw_chunks
                                (HybridRetrieval.bm25 self)) (fst hit) ;;
            Ok (HybridRetrieval.clean_chunk chunk))
         bm25_hits.

(** A retriever whose semantic index is older than its corpus: three
    chunks on disk, one chunk in the JSON directory. *)
Definition stale_state : HybridRetrieval.t :=
  started (U := ascii_db) (M := unit_runtime) (lit "redundancy pay")
          example_dir one_chunk_dir.

(** ** Reading the index *)

(** How often [tok] occurs among [tokens]. *)
Definition occurrences (tok : str) (tokens : list str) : nat :=
  count_occ (list_eq_dec N.eq_dec) tokens tok.

(** [self.postings[tok].get(d)] when [tok in self.postings]. *)
Definition tf_at (ps : dict str (dict nat nat)) (tok : str) (d : nat)
  : option nat :=
  match dict_get tok ps with
  | Some pl => dict_get d pl
  | None => None
  end.

(** What the loop over [tf_counts.items()] for document [i] keeps, [l]
    being the items still to come. *)
Definition shape_inv (i bound : nat) (l : dict str nat) (st : BM25Preprocessor.stats) : Prop :=
  keys (BM25Preprocessor.s_df st) = keys (BM25Preprocessor.s_postings st) /\
  NoDup (keys (BM25Preprocessor.s_df st)) /\
  forall tok,
    let pl := dict_get_or tok [] (BM25Preprocessor.s_postings st) in
    dict_get_or tok 0 (BM25Preprocessor.s_df st) = length pl /\
    StronglySorted lt (keys pl) /\
    Forall (fun d => d < bound) (keys pl) /\
    (In tok (keys l) -> Forall (fun d => d < i) (keys pl)).

(** ** Normalised text *)

(** Whitespace in [s] is the single character [SP], never twice in a row;
    [b] says whether [s] may begin with it. *)
Fixpoint single_spaced (b : bool) (s : str) : Prop :=
  match s with
  | [] => True
  | c :: r =>
      if is_space c then c = SP /\ b = true /\ single_spaced false r
      else single_spaced true r
  end.

(** The same, and [s] does not end with whitespace. *)
Fixpoint spaced_words (b : bool) (s : str) : Prop :=
  match s with
  | [] => True
  | c :: r =>
      if is_space c then c = SP /\ b = true /\ r <> [] /\ spaced_words false r
      else spaced_words true r
  end.

(** ** Comparing the two flatteners *)

(** A line of the lexical flattener next to the line of the semantic
    flattener for the same text: the same line, or the same nested list
    item under the markers [* ] and [- ]. *)
Definition same_line (lexical semantic : str) : Prop :=
  lexical = semantic \/
  exists n content,
    lexical = spaces n ++ lit "* " ++ content /\
    semantic = spaces n ++ lit "- " ++ content.

(** [if chunk:] *)
Definition nonempty (s : str) : bool :=
  match s with [] => false | _ :: _ => true end.

(** ** The contents of the semantic index *)

(** The files [load_and_flatten] reads. *)
Definition json_files (dir : list (str * list entry))
  : list (str * list entry) :=
  filter (fun f => endswith (lit ".json") (fst f)) dir.

(** [f"{fname}_chunk_{i}"] *)
Definition chunk_id (fname : str) (i : nat) : str :=
  fname ++ lit "_chunk_" ++ str_of_nat i.

(** The number a string of decimal digits stands for. *)
Definition digits_value (s : str) : nat :=
  fold_left (fun a c => 10 * a + (N.to_nat c - 48)) s 0.

(** [l[z]] counts from the end when [z] is negative. *)
Definition wrap_index (n : nat) (z : Z) : Z :=
  if (z <? 0)%Z then (z + Z.of_nat n)%Z else z.

(** ** The agents: [AgentPipeline] *)

(** [s.split(sep)] for a non-empty separator: the pieces between the
    occurrences of [sep], found from left to right.  [skip] counts the
    characters of a separator just matched that are still to be passed
    over; [cur] is the current piece, reversed. *)
Fixpoint split_sep_from (sep : str) (skip : nat) (cur : str) (s : str)
  : list str :=
  match s with
  | [] => [rev cur]
  | c :: rest =>
      match skip with
      | S k => split_sep_from sep k cur rest
      | O =>
          if startswith sep s
          then rev cur :: split_sep_from sep (length sep - 1) [] rest
          else split_sep_from sep 0 (c :: cur) rest
      end
  end.

Definition split_sep (sep s : str) : list str := split_sep_from sep 0 [] s.

(** A message: [{"role": ..., "content": ...}] ([content_of] is its
    ["content"]). *)
Record message : Type := Message { role : str; content_of : str }.

Module RetrievalAgent.

Record t : Type := Make {
  retriever : option HybridRetrieval.t;
  confirmed_results : list (str * str)
}.

(** [__init__] *)
Definition new : t := {| retriever := None; confirmed_results := [] |}.

Section WithRuntime.
Context {U : UnicodeDB} {M : SemanticRuntime}.

(** [on_user_message]: the agent afterwards, and the message returned.
    Before [init] has made the retriever, [self.retriever] is [None] and
    setting its query raises. *)
Definition on_user_message (self : t) (content : str) : py (t * message) :=
  match retriever self with
  | None => Raise AttributeError
  | Some r =>
      let r' := {| HybridRetrieval.query := content;
                   HybridRetrieval.sb := HybridRetrieval.sb r;
                   HybridRetrieval.bm25 := HybridRetrieval.bm25 r |} in
      chunks <- HybridRetrieval.run r' 5 3 ;;
      Ok ({| retriever := Some r';
             confirmed_results := confirmed_results self |},
          Message (lit "system") (join [LF; LF] chunks))
  end.

Definition retrieve (self : t) (query : str) : py (t * list str) :=
  resp <- on_user_message self query ;;
  Ok (fst resp, split_sep [LF; LF] (content_of (snd resp))).

End WithRuntime.

End RetrievalAgent.

Module ContentAgent.

(** [on_system_message]: the value left in [self.extracted_data]. *)
Definition on_system_message (full : str) : py str :=
  let parts := split_sep [LF; LF] full in
  if 1 <? length parts then
    p <- py_index parts 0 ;; Ok (strip p)
  else Ok full.

End ContentAgent.

(** [sep in s] *)
Fixpoint occurs (sep s : str) : bool :=
  startswith sep s
  || match s with
     | [] => false
     | _ :: rest => occurs sep rest
     end.

(** An agent whose retriever has been started on the example corpus. *)
Definition example_agent : RetrievalAgent.t :=
  {| RetrievalAgent.retriever :=
       Some (started (U := ascii_db) (M := unit_runtime) []
                     example_dir example_dir);
     RetrievalAgent.confirmed_results := [] |}.

(** ** Lines and line breaks *)

(** No character of [ln] ends a line for [str.splitlines]. *)
Definition single_line (ln : str) : Prop :=
  Forall (fun c => is_linebreak c = false /\ c <> CR) ln.

(** [lines] without its last line when that line is empty: what
    [splitlines] gives back of [lines] joined by newlines. *)
Fixpoint drop_last_empty (lines : list str) : list str :=
  match lines with
  | [] => []
  | x :: rest =>
      match rest with
      | [] => match x with [] => [] | _ => [x] end
      | _ :: _ => x :: drop_last_empty rest
      end
  end.

(** The number of list items under an item, itself included. *)
Fixpoint item_count (it : item) : nat :=
  match it with
  | Item _ nested => S (list_sum (map item_count nested))
  end.

(** * Properties *)

(** ** Key equality *)

Class KeyOk (K : Type) {KK : Key K} : Prop :=
  { key_eqb_spec : forall a b : K, key_eqb a b = true <-> a = b }.

Arguments KeyOk K {KK}.

Lemma str_eqb_spec (a b : str) : str_eqb a b = true <-> a = b.
Proof.
  unfold str_eqb. destruct (list_eq_dec N.eq_dec a b); split; congruence.
Qed.

#[export] Instance str_key_ok : KeyOk str.
Proof. constructor. exact str_eqb_spec. Qed.

#[export] Instance nat_key_ok : KeyOk nat.
Proof. constructor. exact Nat.eqb_eq. Qed.

Section DictFacts.
Context {K V : Type} {KK : Key K} {KO : KeyOk K}.

Lemma key_eqb_refl (k : K) : key_eqb k k = true.
Proof. now apply key_eqb_spec. Qed.

Lemma key_eqb_false (a b : K) : key_eqb a b = false -> a <> b.
Proof. intros E ->. rewrite key_eqb_refl in E. discriminate. Qed.

Lemma dict_get_In (k : K) (v : V) (d : dict K V) :
  dict_get k d = Some v -> In (k, v) d.
Proof.
  induction d as [|[k' v'] d IH]; simpl; [discriminate|].
  destruct (key_eqb k' k) eqn:E.
  - apply key_eqb_spec in E. intros [= ->]. left. now subst.
  - intros Hg. right. now apply IH.
Qed.

Lemma dict_get_None (k : K) (d : dict K V) :
  dict_get k d = None <-> ~ In k (keys d).
Proof.
  induction d as [|[k' v'] d IH]; simpl.
  - tauto.
  - destruct (key_eqb k' k) eqn:E.
    + apply key_eqb_spec in E. split; [discriminate|]. intros Hn.
      exfalso. apply Hn. now left.
    + apply key_eqb_false in E. rewrite IH. tauto.
Qed.

Lemma In_dict_get (k : K) (v : V) (d : dict K V) :
  NoDup (keys d) -> In (k, v) d -> dict_get k d = Some v.
Proof.
  induction d as [|[k' v'] d IH]; simpl; [tauto|].
  intros Hnd [Heq | Hin].
  - injection Heq as -> ->. now rewrite key_eqb_refl.
  - inversion Hnd as [|? ? Hnotin Hnd']; subst.
    destruct (key_eqb k' k) eqn:E.
    + apply key_eqb_spec in E. subst. exfalso. apply Hnotin.
      change k with (fst (k, v)). now apply in_map.
    + now apply IH.
Qed.

Lemma dict_get_set (k k0 : K) (v0 : V) (d : dict K V) :
  dict_get k (dict_set k0 v0 d) =
  if key_eqb k0 k then Some v0 else dict_get k d.
Proof.
  induction d as [|[k' v'] d IH]; simpl.
  - reflexivity.
  - destruct (key_eqb k' k0) eqn:E0; simpl.
    + apply key_eqb_spec in E0. subst k'.
      destruct (key_eqb k0 k); reflexivity.
    + rewrite IH. destruct (key_eqb k' k) eqn:E1; [|reflexivity].
      apply key_eqb_spec in E1. subst k'.
      destruct (key_eqb k0 k) eqn:E2; [|reflexivity].
      apply key_eqb_spec in E2. subst. rewrite key_eqb_refl in E0.
      discriminate.
Qed.

Lemma dict_mem_set (k k0 : K) (v0 : V) (d : dict K V) :
  dict_mem k (dict_set k0 v0 d) = key_eqb k0 k || dict_mem k d.
Proof.
  unfold dict_mem. rewrite dict_get_set. now destruct (key_eqb k0 k).
Qed.

Lemma In_dict_set (k k0 : K) (v v0 : V) (d : dict K V) :
  In (k, v) (dict_set k0 v0 d) -> (k = k0 /\ v = v0) \/ In (k, v) d.
Proof.
  induction d as [|[k' v'] d IH]; simpl.
  - intros [[= <- <-] | []]. now left.
  - destruct (key_eqb k' k0) eqn:E; simpl.
    + apply key_eqb_spec in E. subst k'.
      intros [[= <- <-] | Hin]; [now left | right; now right].
    + intros [Heq | Hin]; [right; now left|].
      destruct (IH Hin) as [Hl | Hr]; [now left | right; now right].
Qed.

Lemma dict_set_nonempty (k0 : K) (v0 : V) (d : dict K V) :
  dict_set k0 v0 d <> [].
Proof.
  destruct d as [|[k' v'] d]; simpl; [discriminate|].
  destruct (key_eqb k' k0); discriminate.
Qed.

Lemma keys_dict_set (k0 : K) (v0 : V) (d : dict K V) :
  keys (dict_set k0 v0 d) =
  if dict_mem k0 d then keys d else keys d ++ [k0].
Proof.
  unfold dict_mem, keys. induction d as [|[k' v'] d IH]; simpl.
  - reflexivity.
  - destruct (key_eqb k' k0) eqn:E; simpl; [reflexivity|].
    rewrite IH. now destruct (dict_get k0 d).
Qed.

Lemma NoDup_dict_set (k0 : K) (v0 : V) (d : dict K V) :
  NoDup (keys d) -> NoDup (keys (dict_set k0 v0 d)).
Proof.
  intros Hnd. rewrite keys_dict_set. destruct (dict_mem k0 d) eqn:E.
  - exact Hnd.
  - apply NoDup_app; [exact Hnd| repeat constructor; simpl; tauto|].
    intros x Hx [<- | []]. unfold dict_mem in E.
    destruct (dict_get k0 d) eqn:G; [discriminate|].
    now apply dict_get_None in G.
Qed.

Lemma dict_mem_true (k : K) (d : dict K V) :
  dict_mem k d = true <-> In k (keys d).
Proof.
  unfold dict_mem. destruct (dict_get k d) eqn:G.
  - split; [intros _|reflexivity]. apply dict_get_In in G.
    change k with (fst (k, v)). now apply in_map.
  - split; [discriminate|]. intros Hin. now apply dict_get_None in G.
Qed.

End DictFacts.

(** ** The exception monad *)

Lemma map_py_length {A B : Type} (f : A -> py B) (l : list A) (r : list B) :
  map_py f l = Ok r -> length r = length l.
Proof.
  revert r. induction l as [|x l IH]; simpl; intros r.
  - now intros [= <-].
  - destruct (f x); simpl; [|discriminate].
    destruct (map_py f l); simpl; [|discriminate].
    intros [= <-]. simpl. f_equal. now apply IH.
Qed.

Lemma map_py_Forall2 {A B : Type} (f : A -> py B) (l : list A) (r : list B) :
  map_py f l = Ok r -> Forall2 (fun x y => f x = Ok y) l r.
Proof.
  revert r. induction l as [|x l IH]; simpl; intros r.
  - intros [= <-]. constructor.
  - destruct (f x) eqn:E; simpl; [|discriminate].
    destruct (map_py f l); simpl; [|discriminate].
    intros [= <-]. constructor; [exact E | now apply IH].
Qed.

(** ** Strings *)

Lemma lstrip_by_all (p : char -> bool) (s : str) :
  Forall (fun c => p c = true) s -> lstrip_by p s = [].
Proof.
  induction 1 as [|c s Hc _ IH]; simpl; [reflexivity|].
  now rewrite Hc.
Qed.

Lemma strip_blank (s : str) : blank s -> strip s = [].
Proof.
  intros Hb. unfold strip. now rewrite (lstrip_by_all _ Hb).
Qed.

Lemma lstrip_by_keep (p : char -> bool) (c : char) (s : str) :
  p c = false -> lstrip_by p (c :: s) = c :: s.
Proof. intros Hc. simpl. now rewrite Hc. Qed.

(** What [rstrip] removes is a suffix that satisfies [p]. *)
Lemma lstrip_by_suffix (p : char -> bool) (s : str) :
  exists w, s = w ++ lstrip_by p s /\ Forall (fun c => p c = true) w.
Proof.
  induction s as [|c s [w [Hs Hw]]]; simpl.
  - exists []. now split.
  - destruct (p c) eqn:E.
    + exists (c :: w). split; [simpl; now f_equal | now constructor].
    + exists []. now split.
Qed.

Lemma rstrip_by_prefix (p : char -> bool) (s : str) :
  exists w, s = rstrip_by p s ++ w /\ Forall (fun c => p c = true) w.
Proof.
  unfold rstrip_by. destruct (lstrip_by_suffix p (rev s)) as [w [Hs Hw]].
  exists (rev w). split.
  - rewrite <- rev_app_distr, <- Hs. symmetry. apply rev_involutive.
  - apply Forall_forall. intros c Hc. apply in_rev in Hc.
    rewrite Forall_forall in Hw. now apply Hw.
Qed.

Lemma rstrip_by_cons (p : char -> bool) (c : char) (s : str) :
  p c = false -> exists t, rstrip_by p (c :: s) = c :: t.
Proof.
  intros Hc. destruct (rstrip_by_prefix p (c :: s)) as [w [Hs Hw]].
  destruct (rstrip_by p (c :: s)) as [|c' t] eqn:E.
  - simpl in Hs. subst w. inversion Hw; subst. congruence.
  - simpl in Hs. injection Hs as <- _. now exists t.
Qed.

Lemma startswith_app (p s w : str) :
  startswith p s = true -> startswith p (s ++ w) = true.
Proof.
  revert s. induction p as [|a p IH]; intros s; simpl; [reflexivity|].
  destruct s as [|b' s]; simpl; [discriminate|].
  intros Hs. apply andb_true_iff in Hs as [Ha Hp].
  rewrite Ha. simpl. now apply IH.
Qed.

(** A prefix that does not contain [c] and matches [l ++ c :: w] lies
    within [l]. *)
Lemma startswith_line (p l w : str) (c : char) :
  ~ In c p -> startswith p (l ++ c :: w) = true -> startswith p l = true.
Proof.
  revert l. induction p as [|a p IH]; intros l Hn; simpl; [reflexivity|].
  destruct l as [|b' l]; simpl.
  - intros Hs. apply andb_true_iff in Hs as [Ha _].
    apply N.eqb_eq in Ha. subst. exfalso. apply Hn. now left.
  - intros Hs. apply andb_true_iff in Hs as [Ha Hp]. rewrite Ha. simpl.
    apply IH; [|exact Hp]. intros Hin. apply Hn. now right.
Qed.

(** ** The corpus flatteners *)

Lemma bm25_each_eq (depth : nat) (nested : list item) (acc : list str) :
  (fix each (items : list item) (acc : list str) : list str :=
     match items with
     | [] => acc
     | x :: rest => each rest (BM25Preprocessor.process_item (S depth) x acc)
     end) nested acc =
  fold_left (fun acc it => BM25Preprocessor.process_item (S depth) it acc) nested acc.
Proof.
  revert acc. induction nested as [|x nested IH]; intros acc; simpl;
    [reflexivity | apply IH].
Qed.

Lemma bm25_process_item_eq (depth : nat) (text : str) (nested : list item)
  (lines : list str) :
  BM25Preprocessor.process_item depth (Item text nested) lines =
  BM25Preprocessor.process_list nested (S depth)
    (lines ++
     [match depth with
      | O => strip text
      | S _ => spaces (depth * 8) ++ lit "* "
               ++ strip (lstrip_chars [BULLET; SP] (strip text))
      end]).
Proof.
  unfold BM25Preprocessor.process_list.
  set (line := match depth with O => _ | S _ => _ end).
  exact (bm25_each_eq depth nested (lines ++ [line])).
Qed.

Lemma lki_each_eq (depth : nat) (nested : list item) (acc : list str) :
  (fix each (items : list item) (acc : list str) : list str :=
     match items with
     | [] => acc
     | x :: rest => each rest (LegalKnowledgeIndexer.process_item (S depth) x acc)
     end) nested acc =
  fold_left (fun acc it => LegalKnowledgeIndexer.process_item (S depth) it acc) nested acc.
Proof.
  revert acc. induction nested as [|x nested IH]; intros acc; simpl;
    [reflexivity | apply IH].
Qed.

Lemma lki_process_item_eq (depth : nat) (text : str) (nested : list item)
  (lines : list str) :
  LegalKnowledgeIndexer.process_item depth (Item text nested) lines =
  LegalKnowledgeIndexer.process_list nested (S depth)
    (lines ++
     [match depth with
      | O => strip text
      | S _ => spaces (depth * 8) ++ lit "- "
               ++ strip (lstrip_chars [BULLET; SP] (strip text))
      end]).
Proof.
  unfold LegalKnowledgeIndexer.process_list.
  set (line := match depth with O => _ | S _ => _ end).
  exact (lki_each_eq depth nested (lines ++ [line])).
Qed.

(** What the two flatteners do with a blank text: a content block whose
    text is blank adds no line; a list item adds one line whatever its text
    is, and for a blank text that line is empty at depth 0 and is the
    indentation followed by the marker at depth 1 and deeper. *)
Lemma blank_text_lines (text : str) (Hblank : blank text) :
  (forall items lines,
     BM25Preprocessor.block_lines lines (Block text items) =
     BM25Preprocessor.process_list items 0 lines) /\
  (forall items lines,
     LegalKnowledgeIndexer.block_lines lines (Block text items) =
     LegalKnowledgeIndexer.process_list items 0 lines) /\
  (forall depth nested lines,
     BM25Preprocessor.process_list [Item text nested] depth lines =
     BM25Preprocessor.process_list nested (S depth)
       (lines ++ [blank_item_line (lit "* ") depth])) /\
  (forall depth nested lines,
     LegalKnowledgeIndexer.process_list [Item text nested] depth lines =
     LegalKnowledgeIndexer.process_list nested (S depth)
       (lines ++ [blank_item_line (lit "- ") depth])).
Proof.
  pose proof (strip_blank Hblank) as Hs.
  repeat split.
  - intros items lines. unfold BM25Preprocessor.block_lines. simpl.
    now rewrite Hs.
  - intros items lines. unfold LegalKnowledgeIndexer.block_lines. simpl.
    now rewrite Hs.
  - intros depth nested lines.
    change (BM25Preprocessor.process_list [Item text nested] depth lines)
      with (BM25Preprocessor.process_item depth (Item text nested) lines).
    rewrite bm25_process_item_eq, Hs.
    destruct depth; reflexivity.
  - intros depth nested lines.
    change (LegalKnowledgeIndexer.process_list [Item text nested] depth lines)
      with (LegalKnowledgeIndexer.process_item depth (Item text nested) lines).
    rewrite lki_process_item_eq, Hs.
    destruct depth; reflexivity.
Qed.

Lemma blank_text_lines_witness :
  blank (lit "  ") /\
  BM25Preprocessor.process_list [Item (lit "  ") []] 1 [lit "a"] =
  [lit "a"; lit "        * "].
Proof.
  assert (Hb : blank (lit "  ")) by (repeat constructor).
  split; [exact Hb|].
  exact (proj1 (proj2 (proj2 (blank_text_lines Hb))) 1 [] [lit "a"]).
Defined.

(** C9 on the code: a blank text is to add no line to the flattened
    string, and the block path sees to it ([if text:]); the list-item path
    does not, so a list item with a blank text adds an empty line at depth
    0 and a bare marker line deeper down, in both flatteners. *)
Theorem blank_item_adds_line :
  blank (lit " ") /\
  BM25Preprocessor.flatten_content
    (Entry None None [Block (lit "a") [Item (lit " ") []]] None)
  = lit "a" ++ [LF] /\
  BM25Preprocessor.flatten_content
    (Entry None None [Block (lit "a") []] None)
  = lit "a" /\
  LegalKnowledgeIndexer.flatten_content
    (Entry None None [Block (lit "a") [Item (lit "b") [Item (lit " ") []]]]
       None)
  = lit "a" ++ [LF; LF] ++ lit "b" ++ [LF] ++ lit "        - " /\
  LegalKnowledgeIndexer.flatten_content
    (Entry None None [Block (lit "a") [Item (lit "b") []]] None)
  = lit "a" ++ [LF; LF] ++ lit "b".
Proof.
  split; [repeat constructor|]. repeat split; reflexivity.
Qed.

Module BM25Facts.
Import BM25Preprocessor.

(** ** Building the lexical index *)

Lemma count_terms_inv (tokens : list str) (tf : dict str nat) :
  NoDup (keys tf) -> (forall tok n, In (tok, n) tf -> 1 <= n) ->
  let tf' := fold_left (fun tf tok => dict_set tok (dict_get_or tok 0 tf + 1) tf)
                       tokens tf in
  NoDup (keys tf') /\ (forall tok n, In (tok, n) tf' -> 1 <= n).
Proof.
  revert tf. induction tokens as [|tok tokens IH]; intros tf Hnd Hpos; simpl.
  - now split.
  - apply IH.
    + now apply NoDup_dict_set.
    + intros tok' n Hin. apply In_dict_set in Hin as [[_ ->] | Hin].
      * lia.
      * now apply (Hpos tok').
Qed.

Lemma count_terms_ok (tokens : list str) :
  NoDup (keys (count_terms tokens)) /\
  (forall tok n, In (tok, n) (count_terms tokens) -> 1 <= n).
Proof.
  apply (@count_terms_inv tokens []); [constructor | intros ? ? []].
Qed.

Lemma postings_ok_app (dls : list nat) (dl : nat) ps :
  postings_ok dls ps -> postings_ok (dls ++ [dl]) ps.
Proof.
  intros Hp tok pl Hin. destruct (Hp tok pl Hin) as [Hnd [Hne Hall]].
  split; [exact Hnd|]. split; [exact Hne|]. intros d f Hdf.
  destruct (Hall d f Hdf) as [Hf [x [Hx Hx1]]]. split; [exact Hf|].
  exists x. split; [|exact Hx1].
  rewrite nth_error_app1; [exact Hx|]. apply nth_error_Some. congruence.
Qed.

(** The loop over [tf_counts.items()] for document [i]. *)
Lemma add_postings_inv (i dl : nat) (dls : list nat) (l : dict str nat) :
  nth_error dls i = Some dl -> 1 <= dl ->
  NoDup (keys l) -> (forall tok f, In (tok, f) l -> 1 <= f) ->
  forall st,
    s_doc_len st = dls ->
    (forall tok n, In (tok, n) (s_df st) ->
                   1 <= n <= S i /\ (In tok (keys l) -> n <= i)) ->
    postings_ok dls (s_postings st) ->
    (forall tok, dict_mem tok (s_postings st) = true ->
                 dict_mem tok (s_df st) = true) ->
    let st' := fold_left (add_posting i) l st in
    s_doc_len st' = dls /\ s_total_len st' = s_total_len st /\
    (forall tok n, In (tok, n) (s_df st') -> 1 <= n <= S i) /\
    postings_ok dls (s_postings st') /\
    (forall tok, dict_mem tok (s_postings st') = true ->
                 dict_mem tok (s_df st') = true).
Proof.
  intros Hdl Hdl1. induction l as [|[tok0 f0] l IH];
    intros Hnd Hfreq st Hlen Hdf Hpost Hmem; simpl.
  - split; [assumption|]. split; [reflexivity|].
    split; [|split; assumption].
    intros tok n Hin. now apply (Hdf tok n).
  - simpl in Hnd. apply NoDup_cons_iff in Hnd as [Hnotin Hnd'].
    assert (Hf0 : 1 <= f0) by (apply (Hfreq tok0); now left).
    destruct (IH Hnd' (fun tok f Hin => Hfreq tok f (or_intror Hin))
                (add_posting i st (tok0, f0))) as [H1 [H2 H3]].
    + exact Hlen.
    + simpl. intros tok n Hin. apply In_dict_set in Hin as [[-> ->] | Hin].
      * split; [|intros; contradiction].
        unfold dict_get_or. destruct (dict_get tok0 (s_df st)) eqn:G.
        -- apply dict_get_In in G. destruct (Hdf _ _ G) as [Hr Hk].
           specialize (Hk (or_introl eq_refl)). lia.
        -- lia.
      * destruct (Hdf _ _ Hin) as [Hr Hk]. split; [exact Hr|].
        intros Hk'. apply Hk. now right.
    + simpl. intros tok pl Hin. apply In_dict_set in Hin as [[-> ->] | Hin].
      * assert (Hold : NoDup (keys (dict_get_or tok0 [] (s_postings st))) /\
                  forall d f, In (d, f) (dict_get_or tok0 [] (s_postings st)) ->
                    1 <= f /\ exists dl, nth_error dls d = Some dl
                                         /\ 1 <= dl).
        { unfold dict_get_or.
          destruct (dict_get _ _) eqn:G.
          - apply dict_get_In in G.
            destruct (Hpost _ _ G) as [? [_ ?]]. now split.
          - split; [constructor | intros ? ? []]. }
        destruct Hold as [Hnd0 Hall0]. split; [|split].
        -- now apply NoDup_dict_set.
        -- apply dict_set_nonempty.
        -- intros d f Hin. apply In_dict_set in Hin as [[-> ->] | Hin].
           ++ split; [exact Hf0|]. exists dl. now split.
           ++ now apply Hall0.
      * exact (Hpost _ _ Hin).
    + simpl. intros tok. rewrite !dict_mem_set.
      destruct (key_eqb tok0 tok); simpl; [reflexivity | apply Hmem].
    + simpl in H2. split; [exact H1|]. split; [exact H2 | exact H3].
Qed.

Lemma list_sum_ge_nth (l : list nat) (d x : nat) :
  nth_error l d = Some x -> x <= list_sum l.
Proof.
  revert d. induction l as [|a l IH]; intros [|d]; simpl; try discriminate.
  - intros [= ->]. lia.
  - intros Hd. specialize (IH _ Hd). lia.
Qed.

Lemma count_terms_nonempty (tokens : list str) :
  count_terms tokens <> [] -> 1 <= length tokens.
Proof.
  destruct tokens; simpl; [intros Hc; now elim Hc | lia].
Qed.

(** One turn of the loop over the documents keeps the invariant. *)
Lemma index_doc_inv (i : nat) (st : stats) (doc : str) :
  stats_inv i st -> stats_inv (S i) (index_doc st (i, doc)).
Proof.
  intros (Hlen & Htot & Hdf & Hpost & Hmem).
  unfold index_doc.
  set (tokens := split doc). set (dl := length tokens).
  set (st1 := {| s_total_len := s_total_len st + dl;
                 s_doc_len := s_doc_len st ++ [dl];
                 s_df := s_df st; s_postings := s_postings st |}).
  assert (Hlen1 : length (s_doc_len st1) = S i).
  { simpl. rewrite length_app. simpl. lia. }
  assert (Htot1 : s_total_len st1 = list_sum (s_doc_len st1)).
  { simpl. rewrite list_sum_app. simpl. lia. }
  destruct (count_terms tokens) as [|e l] eqn:Hc.
  - simpl. split; [exact Hlen1|]. split; [exact Htot1|].
    split; [|split].
    + intros tok n Hin. specialize (Hdf tok n Hin). simpl in Hin. lia.
    + now apply postings_ok_app.
    + exact Hmem.
  - assert (Hdl1 : 1 <= dl).
    { apply count_terms_nonempty. rewrite Hc. discriminate. }
    assert (Hnth : nth_error (s_doc_len st1) i = Some dl).
    { simpl. rewrite nth_error_app2 by lia.
      replace (i - length (s_doc_len st)) with 0 by lia. reflexivity. }
    destruct (count_terms_ok tokens) as [Hnd Hfreq]. rewrite Hc in Hnd, Hfreq.
    destruct (@add_postings_inv i dl (s_doc_len st1) (e :: l) Hnth Hdl1 Hnd
                Hfreq st1 eq_refl) as (H1 & H2 & H3 & H4 & H5).
    + simpl. intros tok n Hin. specialize (Hdf tok n Hin).
      split; [lia | intros _; lia].
    + simpl. now apply postings_ok_app.
    + exact Hmem.
    + simpl in H1, H2, H3, H4, H5. unfold stats_inv. simpl.
      rewrite H1, H2. split; [exact Hlen1|]. split; [exact Htot1|].
      split; [exact H3|]. split; [exact H4 | exact H5].
Qed.

Lemma index_docs_inv (docs : list str) (i : nat) (st : stats) :
  stats_inv i st ->
  stats_inv (i + length docs)
            (fold_left index_doc (combine (seq i (length docs)) docs) st).
Proof.
  revert i st. induction docs as [|doc docs IH]; intros i st Hinv; simpl.
  - now rewrite Nat.add_0_r.
  - rewrite <- Nat.add_succ_comm. apply IH. now apply index_doc_inv.
Qed.

Lemma stats_inv_init : stats_inv 0 (Stats 0 [] [] []).
Proof.
  unfold stats_inv, postings_ok. simpl. repeat split; try tauto; discriminate.
Qed.

(** ** Inverse document frequencies *)

Lemma idf_arg_gt_1 (n d : nat) :
  d <= n -> (1 < (INR n - INR d + 0.5) / (INR d + 0.5) + 1)%R.
Proof.
  intros Hd. apply le_INR in Hd. pose proof (pos_INR d) as Hp.
  assert (0 < (INR n - INR d + 0.5) / (INR d + 0.5))%R.
  { apply Rdiv_lt_0_compat; lra. }
  lra.
Qed.

Lemma idf_value_pos (n d : nat) : d <= n -> (0 < idf_value n d)%R.
Proof.
  intros Hd. unfold idf_value. rewrite <- ln_1.
  apply ln_increasing; [lra | now apply idf_arg_gt_1].
Qed.

Lemma idf_step_ok (n d : nat) (tok : str) (idf : dict str R) :
  d <= n -> idf_step n (tok, d) idf = Ok (dict_set tok (idf_value n d) idf).
Proof.
  intros Hd. unfold idf_step, py_div, py_log.
  pose proof (pos_INR d) as Hp.
  destruct (Req_dec_T (INR d + 0.5) 0) as [E|_]; [lra|]. simpl.
  destruct (Rlt_dec 0 ((INR n - INR d + 0.5) / (INR d + 0.5) + 1)) as [_|Hn].
  - reflexivity.
  - exfalso. apply Hn. pose proof (idf_arg_gt_1 Hd). lra.
Qed.

(** The loop over [self.df.items()] never raises. *)
Lemma idf_loop (n : nat) (dfl : dict str nat) (idf0 : dict str R) :
  (forall tok d, In (tok, d) dfl -> 1 <= d <= n) ->
  for_each (idf_step n) dfl idf0 = Ok (fold_left (idf_set n) dfl idf0).
Proof.
  revert idf0. induction dfl as [|[tok0 d0] dfl IH]; intros idf0 Hdf;
    cbn [for_each fold_left].
  - reflexivity.
  - assert (Hd0 : 1 <= d0 <= n) by (apply (Hdf tok0); now left).
    rewrite idf_step_ok by lia. cbn [bind].
    apply IH. intros tok d Hin. apply (Hdf tok). now right.
Qed.

(** It leaves positive weights, for every term of [df]. *)
Lemma idf_fold_spec (n : nat) (dfl : dict str nat) (idf0 : dict str R) :
  (forall tok d, In (tok, d) dfl -> 1 <= d <= n) ->
  (forall tok v, In (tok, v) idf0 -> (0 < v)%R) ->
  (forall tok v, In (tok, v) (fold_left (idf_set n) dfl idf0) -> (0 < v)%R) /\
  (forall tok, dict_mem tok idf0 = true \/ In tok (keys dfl) ->
               dict_mem tok (fold_left (idf_set n) dfl idf0) = true).
Proof.
  revert idf0. induction dfl as [|[tok0 d0] dfl IH]; intros idf0 Hdf Hpos;
    cbn [fold_left].
  - split; [exact Hpos|]. intros tok [H|[]]. exact H.
  - assert (Hd0 : 1 <= d0 <= n) by (apply (Hdf tok0); now left).
    destruct (IH (idf_set n idf0 (tok0, d0))
                 (fun tok d Hin => Hdf tok d (or_intror Hin))) as [H2 H3].
    + unfold idf_set. simpl. intros tok v Hin.
      apply In_dict_set in Hin as [[_ ->] | Hin].
      * apply idf_value_pos. lia.
      * now apply (Hpos tok).
    + split; [exact H2|].
      intros tok [Hm | [<- | Hin]]; apply H3.
      * left. unfold idf_set. simpl. rewrite dict_mem_set, Hm.
        apply orb_true_r.
      * left. unfold idf_set. simpl.
        rewrite dict_mem_set, key_eqb_refl. reflexivity.
      * now right.
Qed.

Lemma idf_fold_values (n : nat) (dfl : dict str nat) (idf0 : dict str R)
  (tok : str) (v : R) :
  In (tok, v) (fold_left (idf_set n) dfl idf0) ->
  In (tok, v) idf0 \/ exists d, In (tok, d) dfl /\ v = idf_value n d.
Proof.
  revert idf0. induction dfl as [|[tok0 d0] dfl IH]; intros idf0;
    cbn [fold_left]; [now left|].
  intros Hin. destruct (IH _ Hin) as [H0 | (d & Hd & ->)].
  - unfold idf_set in H0. cbn [fst snd] in H0.
    apply In_dict_set in H0 as [[-> ->] | H0]; [|now left].
    right. exists d0. split; [now left | reflexivity].
  - right. exists d. split; [now right | reflexivity].
Qed.

Section WithUnicode.
Context {U : UnicodeDB}.

Lemma built_wf (k1 b : R) (dir : list (str * list entry)) :
  wf (built k1 b dir).
Proof.
  unfold built.
  set (norm := map normalize (gather_chunks dir)).
  set (st := index_stats norm).
  assert (Hinv : stats_inv (length norm) st).
  { apply (index_docs_inv norm (i := 0)). apply stats_inv_init. }
  destruct Hinv as (Hlen & Htot & Hdf & Hpost & Hmem).
  destruct (@idf_fold_spec (length norm) (s_df st) [] Hdf) as [Hidf1 Hidf2];
    [intros ? ? []|].
  constructor; simpl.
  - exact Hlen.
  - exact Hpost.
  - intros (d & dl & Hd & Hdl).
    destruct (Nat.eqb (length norm) 0) eqn:E.
    + apply Nat.eqb_eq in E. rewrite E in Hlen.
      apply length_zero_iff_nil in Hlen. rewrite Hlen in Hd.
      destruct d; discriminate.
    + apply Nat.eqb_neq in E.
      apply Rdiv_lt_0_compat; [|apply lt_0_INR; lia]. apply lt_0_INR.
      apply list_sum_ge_nth in Hd. lia.
  - exact Hidf1.
  - intros tok Hm. apply Hidf2. right. apply dict_mem_true. now apply Hmem.
Qed.

(** [load_and_prepare] on a fresh object never raises, and leaves
    [built]. *)
Lemma load_and_prepare_ok (k1 b : R) (dir : list (str * list entry)) :
  load_and_prepare (init k1 b) dir = Ok (built k1 b dir).
Proof.
  unfold load_and_prepare, built. simpl.
  set (norm := map normalize (gather_chunks dir)).
  fold (index_stats norm). set (st := index_stats norm).
  assert (Hinv : stats_inv (length norm) st).
  { apply (index_docs_inv norm (i := 0)). apply stats_inv_init. }
  destruct Hinv as (Hlen & Htot & Hdf & Hpost & Hmem).
  rewrite (@idf_loop (length norm) (s_df st) [] Hdf).
  destruct (Nat.eqb (length norm) 0) eqn:E; simpl.
  - reflexivity.
  - apply Nat.eqb_neq in E. unfold py_div.
    assert (Hn : (0 < INR (length norm))%R) by (apply lt_0_INR; lia).
    destruct (Req_dec_T (INR (length norm)) 0) as [E0|_]; [lra|].
    reflexivity.
Qed.

End WithUnicode.

(** ** Scoring *)

Lemma denom_pos (k1 b avgdl : R) (f dl : nat) :
  (0 <= k1)%R -> (0 <= b <= 1)%R -> (0 < avgdl)%R -> 1 <= f ->
  (1 <= INR f + k1 * (1 - b + b * INR dl / avgdl))%R.
Proof.
  intros Hk Hb Havg Hf. apply le_INR in Hf. simpl in Hf.
  pose proof (pos_INR dl) as Hdl.
  assert (0 <= b * INR dl / avgdl)%R.
  { apply Rmult_le_pos; [apply Rmult_le_pos; lra|].
    left. now apply Rinv_0_lt_compat. }
  assert (0 <= k1 * (1 - b + b * INR dl / avgdl))%R
    by (apply Rmult_le_pos; lra).
  lra.
Qed.

Lemma nth_error_nth_default (l : list nat) (d x : nat) :
  nth_error l d = Some x -> nth d l 0 = x.
Proof. intros H. now apply nth_error_nth. Qed.

Section Scoring.
Variable self : t.
Hypothesis Hwf : wf self.
Hypothesis Hpar : params_ok self.
Variable candidate_ids : list Z.

(** The statements inside the inner loop never raise on a posting of a
    consistent index. *)
Lemma score_doc_ok (idf_tok : R) (d f : nat) (scores : dict nat R) :
  1 <= f ->
  (exists dl, nth_error (doc_len self) d = Some dl /\ 1 <= dl) ->
  score_doc self candidate_ids idf_tok (d, f) scores =
  Ok (score_doc_pure self candidate_ids idf_tok scores (d, f)).
Proof.
  intros Hf (dl & Hd & Hdl).
  unfold score_doc, score_doc_pure. cbn [fst snd].
  fold (in_candidates candidate_ids d).
  destruct (in_candidates candidate_ids d); cbn [negb]; [|reflexivity].
  unfold list_at. rewrite Hd. cbn [bind].
  assert (Havg : (0 < avgdl self)%R).
  { apply (wf_avgdl Hwf). now exists d, dl. }
  destruct Hpar as [Hk Hb].
  unfold py_div.
  destruct (Req_dec_T (avgdl self) 0) as [E|_]; [lra|]. cbn [bind].
  pose proof (@denom_pos (k1 self) (b self) (avgdl self) f dl Hk Hb Havg Hf)
    as Hden.
  destruct (Req_dec_T _ 0) as [E|_]; [lra|]. cbn [bind].
  unfold doc_term_score, term_score.
  rewrite (nth_error_nth_default _ _ Hd). reflexivity.
Qed.

Lemma score_postings_ok (idf_tok : R) (plist : dict nat nat)
  (scores : dict nat R) :
  (forall d f, In (d, f) plist ->
     1 <= f /\ exists dl, nth_error (doc_len self) d = Some dl /\ 1 <= dl) ->
  for_each (score_doc self candidate_ids idf_tok) plist scores =
  Ok (fold_left (score_doc_pure self candidate_ids idf_tok) plist scores).
Proof.
  revert scores. induction plist as [|[d f] plist IH]; intros scores Hall;
    cbn [for_each fold_left].
  - reflexivity.
  - destruct (Hall d f (or_introl eq_refl)) as [Hf Hd].
    rewrite score_doc_ok by assumption. cbn [bind].
    apply IH. intros d' f' Hin. apply Hall. now right.
Qed.

Lemma score_token_ok (tok : str) (scores : dict nat R) :
  score_token self candidate_ids tok scores =
  Ok (score_token_pure self candidate_ids scores tok).
Proof.
  unfold score_token, score_token_pure.
  destruct (dict_get tok (postings self)) as [plist|] eqn:G; [|reflexivity].
  apply score_postings_ok. apply dict_get_In in G.
  exact (proj2 (proj2 (wf_postings Hwf _ _ G))).
Qed.

Lemma score_tokens_ok (tokens : list str) (scores : dict nat R) :
  for_each (score_token self candidate_ids) tokens scores =
  Ok (fold_left (score_token_pure self candidate_ids) tokens scores).
Proof.
  revert scores. induction tokens as [|tok tokens IH]; intros scores;
    cbn [for_each fold_left].
  - reflexivity.
  - rewrite score_token_ok. cbn [bind]. apply IH.
Qed.

(** What the inner loop leaves for chunk [d]. *)
Lemma score_postings_get (idf_tok : R) (plist : dict nat nat)
  (scores : dict nat R) (d : nat) :
  NoDup (keys plist) ->
  dict_get d (fold_left (score_doc_pure self candidate_ids idf_tok)
                        plist scores) =
  match dict_get d plist with
  | Some f =>
      if in_candidates candidate_ids d then
        Some (dict_get_or d 0 scores + doc_term_score self idf_tok d f)%R
      else dict_get d scores
  | None => dict_get d scores
  end.
Proof.
  revert scores. induction plist as [|[d0 f0] plist IH]; intros scores Hnd;
    cbn [fold_left].
  - reflexivity.
  - simpl in Hnd. apply NoDup_cons_iff in Hnd as [Hnotin Hnd].
    rewrite IH by exact Hnd. cbn [dict_get].
    unfold score_doc_pure. cbn [fst snd].
    change (@key_eqb nat nat_key d0 d) with (Nat.eqb d0 d).
    destruct (Nat.eqb d0 d) eqn:E.
    + apply Nat.eqb_eq in E. subst d0.
      assert (Hnone : dict_get d plist = None)
        by (now apply dict_get_None).
      rewrite Hnone.
      destruct (in_candidates candidate_ids d); [|reflexivity].
      rewrite dict_get_set, key_eqb_refl. reflexivity.
    + assert (Hsame : forall V (v : V) (s : dict nat V),
                dict_get d (dict_set d0 v s) = dict_get d s).
      { intros V v s. rewrite dict_get_set.
        change (@key_eqb nat nat_key d0 d) with (Nat.eqb d0 d).
        now rewrite E. }
      destruct (in_candidates candidate_ids d0).
      * unfold dict_get_or at 1. rewrite !Hsame.
        destruct (dict_get d plist); reflexivity.
      * reflexivity.
Qed.

Lemma score_token_get (tok : str) (scores : dict nat R) (d : nat) :
  dict_get d (score_token_pure self candidate_ids scores tok) =
  add_contribution self candidate_ids d (dict_get d scores) tok.
Proof.
  unfold score_token_pure, add_contribution, contribution.
  destruct (dict_get tok (postings self)) as [plist|] eqn:G; [|reflexivity].
  apply dict_get_In in G.
  rewrite score_postings_get by exact (proj1 (wf_postings Hwf _ _ G)).
  destruct (dict_get d plist); [|reflexivity].
  destruct (in_candidates candidate_ids d); reflexivity.
Qed.

Lemma score_tokens_get (tokens : list str) (scores : dict nat R) (d : nat) :
  dict_get d (fold_left (score_token_pure self candidate_ids) tokens scores) =
  fold_left (add_contribution self candidate_ids d) tokens (dict_get d scores).
Proof.
  revert scores. induction tokens as [|tok tokens IH]; intros scores;
    cbn [fold_left].
  - reflexivity.
  - rewrite IH, score_token_get. reflexivity.
Qed.

End Scoring.

(** ** The stable descending sort and the slice *)

Section SortFacts.
Context {K : Type}.
Implicit Types (x : K * R) (l : list (K * R)).

Lemma insert_desc_perm x l : Permutation (insert_desc x l) (x :: l).
Proof.
  induction l as [|y l IH]; simpl; [reflexivity|].
  destruct (Rlt_dec (snd x) (snd y)); [|reflexivity].
  rewrite IH. apply perm_swap.
Qed.

Lemma sorted_desc_perm l : Permutation (sorted_desc l) l.
Proof.
  induction l as [|x l IH]; simpl; [reflexivity|].
  rewrite insert_desc_perm. now constructor.
Qed.

Lemma insert_desc_sorted x l :
  StronglySorted score_ge l -> StronglySorted score_ge (insert_desc x l).
Proof.
  induction 1 as [|y l Hs IH Hall]; simpl.
  - repeat constructor.
  - destruct (Rlt_dec (snd x) (snd y)) as [Hlt|Hge].
    + constructor; [exact IH|].
      apply Forall_forall. intros z Hz.
      apply (Permutation_in _ (insert_desc_perm x l)) in Hz.
      destruct Hz as [<- | Hz].
      * unfold score_ge. lra.
      * rewrite Forall_forall in Hall. now apply Hall.
    + constructor; [now constructor|].
      constructor; [unfold score_ge; lra|].
      apply Forall_forall. intros z Hz. rewrite Forall_forall in Hall.
      specialize (Hall z Hz). unfold score_ge in *. lra.
Qed.

Lemma sorted_desc_sorted l : StronglySorted score_ge (sorted_desc l).
Proof.
  induction l as [|x l IH]; simpl; [constructor|].
  now apply insert_desc_sorted.
Qed.

Lemma insert_desc_filter (s : R) x l :
  filter (score_is s) (insert_desc x l) = filter (score_is s) (x :: l).
Proof.
  induction l as [|y l IH]; [reflexivity|].
  cbn [insert_desc].
  destruct (Rlt_dec (snd x) (snd y)) as [Hlt|Hge]; [|reflexivity].
  cbn [filter] in *. rewrite IH. unfold score_is.
  destruct (Req_dec_T (snd x) s), (Req_dec_T (snd y) s);
    try reflexivity. lra.
Qed.

(** Items of equal score keep the order they had before the sort. *)
Lemma sorted_desc_stable (s : R) l :
  filter (score_is s) (sorted_desc l) = filter (score_is s) l.
Proof.
  induction l as [|x l IH]; [reflexivity|].
  cbn [sorted_desc fold_right]. rewrite insert_desc_filter.
  cbn [filter]. fold (sorted_desc l). now rewrite IH.
Qed.

End SortFacts.

Lemma py_take_length {A : Type} (k : Z) (l : list A) :
  (0 <= k)%Z -> (Z.of_nat (length (py_take k l)) <= k)%Z.
Proof.
  intros Hk. unfold py_take.
  destruct (k <? 0)%Z eqn:E; [apply Z.ltb_lt in E; lia|].
  pose proof (firstn_le_length (Z.to_nat k) l). lia.
Qed.

Lemma py_take_nonneg {A : Type} (k : Z) (l : list A) :
  (0 <= k)%Z -> py_take k l = firstn (Z.to_nat k) l.
Proof.
  intros Hk. unfold py_take.
  destruct (k <? 0)%Z eqn:E; [apply Z.ltb_lt in E; lia | reflexivity].
Qed.

Lemma In_firstn {A : Type} (n : nat) (l : list A) (x : A) :
  In x (firstn n l) -> In x l.
Proof.
  revert l. induction n as [|n IH]; intros [|y l]; simpl; try tauto.
  intros [-> | Hin]; [now left | right; now apply IH].
Qed.

Lemma py_take_In {A : Type} (k : Z) (l : list A) (x : A) :
  In x (py_take k l) -> In x l.
Proof.
  unfold py_take. destruct (k <? 0)%Z; apply In_firstn.
Qed.

Lemma for_each_ext_in {A S : Type} (f g : A -> S -> py S) (l : list A)
  (s : S) :
  (forall x, In x l -> forall s', f x s' = g x s') ->
  for_each f l s = for_each g l s.
Proof.
  revert s. induction l as [|x l IH]; intros s Hext; simpl; [reflexivity|].
  rewrite (Hext x (or_introl eq_refl)).
  destruct (g x s); simpl; [|reflexivity].
  apply IH. intros y Hy. apply Hext. now right.
Qed.

(** ** Which candidates matter *)

Section Candidates.
Context {U : UnicodeDB}.
Variable self : t.
Hypothesis Hwf : wf self.

(** Only the membership test reads [candidate_ids], and only for chunk
    indices below [N]. *)
Lemma accumulate_candidates (query : str) (c1 c2 : list Z) :
  (forall d, d < N self -> in_candidates c1 d = in_candidates c2 d) ->
  accumulate self query c1 = accumulate self query c2.
Proof.
  intros Hsame. unfold accumulate.
  apply for_each_ext_in. intros tok _ scores. unfold score_token.
  destruct (dict_get tok (postings self)) as [plist|] eqn:G; [|reflexivity].
  apply dict_get_In in G.
  apply for_each_ext_in. intros [d f] Hin scores'.
  destruct (proj2 (proj2 (wf_postings Hwf _ _ G)) d f Hin)
    as [_ (dl & Hd & _)].
  assert (Hlt : d < N self).
  { rewrite <- (wf_len Hwf). apply nth_error_Some. congruence. }
  unfold score_doc. fold (in_candidates c1 d). fold (in_candidates c2 d).
  now rewrite (Hsame d Hlt).
Qed.

Lemma score_subset_candidates (query : str) (c1 c2 : list Z) (top_k : Z) :
  (forall d, d < N self -> in_candidates c1 d = in_candidates c2 d) ->
  score_subset self query c1 top_k = score_subset self query c2 top_k.
Proof.
  intros Hsame. unfold score_subset.
  now rewrite (accumulate_candidates query c1 c2 Hsame).
Qed.

End Candidates.

Lemma in_candidates_iff (cands : list Z) (d : nat) :
  in_candidates cands d = true <-> In (Z.of_nat d) cands.
Proof.
  unfold in_candidates. rewrite existsb_exists. split.
  - intros (z & Hz & E). apply Z.eqb_eq in E. now subst.
  - intros Hin. exists (Z.of_nat d). split; [exact Hin | apply Z.eqb_refl].
Qed.

Lemma in_candidates_same (c1 c2 : list Z) :
  (forall z, In z c1 <-> In z c2) ->
  forall d, in_candidates c1 d = in_candidates c2 d.
Proof.
  intros Hsame d.
  destruct (in_candidates c1 d) eqn:E1, (in_candidates c2 d) eqn:E2;
    try reflexivity.
  - apply in_candidates_iff, Hsame, in_candidates_iff in E1. congruence.
  - apply in_candidates_iff, Hsame, in_candidates_iff in E2. congruence.
Qed.

(** ** Term frequency saturation *)

Lemma ratio_mono (f1 f2 c : R) :
  (0 < f1)%R -> (f1 <= f2)%R -> (0 <= c)%R ->
  (f1 / (f1 + c) <= f2 / (f2 + c))%R.
Proof.
  intros H1 H12 Hc.
  apply Rmult_le_reg_r with ((f1 + c) * (f2 + c))%R; [nra|].
  replace (f1 / (f1 + c) * ((f1 + c) * (f2 + c)))%R
    with (f1 * (f2 + c))%R by (field; lra).
  replace (f2 / (f2 + c) * ((f1 + c) * (f2 + c)))%R
    with (f2 * (f1 + c))%R by (field; lra).
  nra.
Qed.

Lemma ratio_le_1 (f c : R) : (0 < f)%R -> (0 <= c)%R -> (f / (f + c) <= 1)%R.
Proof.
  intros Hf Hc. apply Rmult_le_reg_r with (f + c)%R; [lra|].
  replace (f / (f + c) * (f + c))%R with f by (field; lra). lra.
Qed.

Lemma length_norm_nonneg (k1 b avgdl : R) (dl : nat) :
  (0 <= k1)%R -> (0 <= b <= 1)%R -> (0 < avgdl)%R ->
  (0 <= k1 * (1 - b + b * INR dl / avgdl))%R.
Proof.
  intros Hk Hb Havg. pose proof (pos_INR dl) as Hdl.
  assert (0 <= b * INR dl / avgdl)%R.
  { apply Rmult_le_pos; [apply Rmult_le_pos; lra|].
    left. now apply Rinv_0_lt_compat. }
  apply Rmult_le_pos; lra.
Qed.

Lemma term_score_ratio (k1 b avgdl idf_tok : R) (f dl : nat) :
  (0 <= k1)%R -> (0 <= b <= 1)%R -> (0 < avgdl)%R -> 1 <= f ->
  term_score k1 b avgdl idf_tok f dl =
  (idf_tok * (k1 + 1)
   * (INR f / (INR f + k1 * (1 - b + b * INR dl / avgdl))))%R.
Proof.
  intros Hk Hb Havg Hf. unfold term_score.
  pose proof (denom_pos dl Hk Hb Havg Hf) as Hden.
  remember (INR f + k1 * (1 - b + b * INR dl / avgdl))%R as den.
  field. lra.
Qed.

Lemma term_score_mono (k1 b avgdl idf_tok : R) (dl f1 f2 : nat) :
  (0 <= k1)%R -> (0 <= b <= 1)%R -> (0 < avgdl)%R -> (0 <= idf_tok)%R ->
  1 <= f1 -> f1 <= f2 ->
  (term_score k1 b avgdl idf_tok f1 dl <= term_score k1 b avgdl idf_tok f2 dl
   <= idf_tok * (k1 + 1))%R.
Proof.
  intros Hk Hb Havg Hidf H1 H12.
  rewrite !term_score_ratio by (assumption || lia).
  pose proof (length_norm_nonneg dl Hk Hb Havg) as Hc.
  assert (Hf1 : (0 < INR f1)%R) by (apply lt_0_INR; lia).
  assert (Hf2 : (0 < INR f2)%R) by (apply lt_0_INR; lia).
  assert (Hle : (INR f1 <= INR f2)%R) by now apply le_INR.
  assert (Hw : (0 <= idf_tok * (k1 + 1))%R) by (apply Rmult_le_pos; lra).
  split.
  - apply Rmult_le_compat_l; [exact Hw|]. now apply ratio_mono.
  - rewrite <- (Rmult_1_r (idf_tok * (k1 + 1))) at 2.
    apply Rmult_le_compat_l; [exact Hw|]. now apply ratio_le_1.
Qed.

Lemma term_score_pos (k1 b avgdl idf_tok : R) (dl f : nat) :
  (0 <= k1)%R -> (0 <= b <= 1)%R -> (0 < avgdl)%R -> (0 < idf_tok)%R ->
  1 <= f -> (0 < term_score k1 b avgdl idf_tok f dl)%R.
Proof.
  intros Hk Hb Havg Hidf Hf. unfold term_score.
  pose proof (denom_pos dl Hk Hb Havg Hf) as Hden.
  assert (Hf1 : (0 < INR f)%R) by (apply lt_0_INR; lia).
  apply Rdiv_lt_0_compat; [|lra].
  apply Rmult_lt_0_compat; [apply Rmult_lt_0_compat|]; lra.
Qed.

(** ** Facts about a consistent index *)

Section Consistent.
Variable self : t.
Hypothesis Hwf : wf self.

Lemma posting_avgdl (tok : str) (plist : dict nat nat) (d f : nat) :
  dict_get tok (postings self) = Some plist -> In (d, f) plist ->
  (0 < avgdl self)%R /\ 1 <= f /\ d < N self.
Proof.
  intros G Hin. apply dict_get_In in G.
  destruct (proj2 (proj2 (wf_postings Hwf _ _ G)) d f Hin)
    as [Hf (dl & Hd & Hdl)].
  split; [|split].
  - apply (wf_avgdl Hwf). now exists d, dl.
  - exact Hf.
  - rewrite <- (wf_len Hwf). apply nth_error_Some. congruence.
Qed.

Lemma idf_of_posting_pos (tok : str) :
  dict_mem tok (postings self) = true ->
  (0 < dict_get_or tok 0 (idf self))%R.
Proof.
  intros Hm. apply (wf_idf_dom Hwf) in Hm. unfold dict_mem in Hm.
  unfold dict_get_or. destruct (dict_get tok (idf self)) as [v|] eqn:G;
    [|discriminate].
  apply dict_get_In in G. exact (wf_idf_pos Hwf _ _ G).
Qed.

Lemma posting_nonempty (tok : str) :
  dict_mem tok (postings self) = true ->
  exists plist d f,
    dict_get tok (postings self) = Some plist /\ In (d, f) plist.
Proof.
  unfold dict_mem. intros Hm.
  destruct (dict_get tok (postings self)) as [plist|] eqn:G; [|discriminate].
  pose proof G as G'. apply dict_get_In in G'.
  destruct (wf_postings Hwf _ _ G') as [_ [Hne _]].
  destruct plist as [|[d f] plist]; [now elim Hne|].
  exists ((d, f) :: plist), d, f. split; [reflexivity | now left].
Qed.

(** With an average length of zero there is no posting at all. *)
Lemma avgdl_zero_postings (tok : str) (plist : dict nat nat) :
  avgdl self = 0%R -> dict_get tok (postings self) = Some plist ->
  plist = [].
Proof.
  intros Hz G. destruct plist as [|[d f] plist]; [reflexivity|].
  destruct (@posting_avgdl tok _ d f G (or_introl eq_refl)) as [Hpos _].
  lra.
Qed.

Variable candidate_ids : list Z.

Lemma score_token_nodup (tok : str) (scores : dict nat R) :
  NoDup (keys scores) ->
  NoDup (keys (score_token_pure self candidate_ids scores tok)).
Proof.
  unfold score_token_pure.
  destruct (dict_get tok (postings self)) as [plist|]; [|tauto].
  revert scores. induction plist as [|e plist IH]; intros scores Hnd;
    cbn [fold_left]; [exact Hnd|].
  apply IH. unfold score_doc_pure.
  destruct (in_candidates candidate_ids (fst e)); [|exact Hnd].
  now apply NoDup_dict_set.
Qed.

Lemma score_tokens_nodup (tokens : list str) (scores : dict nat R) :
  NoDup (keys scores) ->
  NoDup (keys (fold_left (score_token_pure self candidate_ids) tokens scores)).
Proof.
  revert scores. induction tokens as [|tok tokens IH]; intros scores Hnd;
    cbn [fold_left]; [exact Hnd|].
  apply IH. now apply score_token_nodup.
Qed.

Lemma contribution_candidate (tok : str) (d : nat) (c : R) :
  contribution self candidate_ids tok d = Some c ->
  in_candidates candidate_ids d = true.
Proof.
  unfold contribution.
  destruct (dict_get tok (postings self)); [|discriminate].
  destruct (dict_get d d0); [|discriminate].
  destruct (in_candidates candidate_ids d); [reflexivity | discriminate].
Qed.

Lemma score_of_candidate (tokens : list str) (d : nat) (acc : option R)
  (s : R) :
  fold_left (add_contribution self candidate_ids d) tokens acc = Some s ->
  acc = None -> in_candidates candidate_ids d = true.
Proof.
  revert acc. induction tokens as [|tok tokens IH]; intros acc;
    cbn [fold_left].
  - congruence.
  - unfold add_contribution at 2.
    destruct (contribution self candidate_ids tok d) as [c|] eqn:E.
    + intros _ _. now apply (contribution_candidate tok d E).
    + apply IH.
Qed.

Hypothesis Hpar : params_ok self.

Lemma contribution_pos (tok : str) (d : nat) (c : R) :
  contribution self candidate_ids tok d = Some c -> (0 < c)%R.
Proof.
  unfold contribution.
  destruct (dict_get tok (postings self)) as [plist|] eqn:G; [|discriminate].
  destruct (dict_get d plist) as [f|] eqn:Gd; [|discriminate].
  destruct (in_candidates candidate_ids d); [|discriminate].
  intros [= <-]. apply dict_get_In in Gd.
  destruct (@posting_avgdl tok plist d f G Gd) as (Havg & Hf & _).
  destruct Hpar as [Hk Hb]. unfold doc_term_score.
  apply term_score_pos; try assumption.
  apply idf_of_posting_pos. unfold dict_mem. now rewrite G.
Qed.

Lemma score_of_pos (tokens : list str) (d : nat) (acc : option R) (s : R) :
  fold_left (add_contribution self candidate_ids d) tokens acc = Some s ->
  (forall a, acc = Some a -> (0 < a)%R) -> (0 < s)%R.
Proof.
  revert acc. induction tokens as [|tok tokens IH]; intros acc;
    cbn [fold_left].
  - intros -> Ha. now apply Ha.
  - intros Hs Ha. apply (IH _ Hs). unfold add_contribution.
    destruct (contribution self candidate_ids tok d) as [c|] eqn:E;
      [|exact Ha].
    intros a [= <-]. apply contribution_pos in E.
    destruct acc as [a0|]; [specialize (Ha a0 eq_refl)|]; lra.
Qed.

End Consistent.

(** ** The claims about [score_subset] *)

Section ScoreSubset.
Context {U : UnicodeDB}.
Variables (k1 b : R) (dir : list (str * list entry)).
Hypothesis Hk1 : (0 <= k1)%R.
Hypothesis Hb : (0 <= b <= 1)%R.

Lemma built_params_ok : params_ok (built k1 b dir).
Proof. split; assumption. Qed.

Lemma accumulate_built (query : str) (candidate_ids : list Z) :
  accumulate (built k1 b dir) query candidate_ids =
  Ok (fold_left (score_token_pure (built k1 b dir) candidate_ids)
                (split (normalize query)) []).
Proof.
  unfold accumulate.
  apply score_tokens_ok; [apply built_wf | apply built_params_ok].
Qed.

Lemma score_subset_built (query : str) (candidate_ids : list Z) (top_k : Z) :
  score_subset (built k1 b dir) query candidate_ids top_k =
  Ok (py_take top_k
        (sorted_desc
           (fold_left (score_token_pure (built k1 b dir) candidate_ids)
                      (split (normalize query)) []))).
Proof. unfold score_subset. now rewrite accumulate_built. Qed.

Lemma ranked_score_of (query : str) (candidate_ids : list Z) (top_k : Z)
  (d : nat) (s : R) :
  In (d, s)
     (py_take top_k
        (sorted_desc
           (fold_left (score_token_pure (built k1 b dir) candidate_ids)
                      (split (normalize query)) []))) ->
  score_of (built k1 b dir) candidate_ids (split (normalize query)) d = Some s.
Proof.
  intros Hin. apply py_take_In in Hin.
  apply (Permutation_in _ (sorted_desc_perm _)) in Hin.
  unfold score_of.
  change (@None R) with (dict_get d (@nil (nat * R))).
  rewrite <- (score_tokens_get (built_wf k1 b dir)).
  apply In_dict_get; [|exact Hin].
  apply score_tokens_nodup. constructor.
Qed.

(** C1: on the index [load_and_prepare] builds, the [scores] dictionary
    of [score_subset] holds, for every chunk, the sum over the query's
    tokens (in query order, from [0.0]) of
    [idf[term] * tf * (k1 + 1) / (tf + k1 * (1 - b + b * doc_len / avgdl))],
    taken over the tokens that have postings containing the chunk, and only
    for chunks among the candidates; the scores returned are these sums. *)
Theorem score_subset_accumulates (query : str) (candidate_ids : list Z) :
  exists idx scores,
    load_and_prepare (init k1 b) dir = Ok idx /\
    accumulate idx query candidate_ids = Ok scores /\
    (forall d, dict_get d scores =
               score_of idx candidate_ids (split (normalize query)) d) /\
    (forall top_k, exists ranked,
        score_subset idx query candidate_ids top_k = Ok ranked /\
        forall d s, In (d, s) ranked ->
          score_of idx candidate_ids (split (normalize query)) d = Some s).
Proof.
  exists (built k1 b dir). eexists.
  split; [apply load_and_prepare_ok|].
  split; [apply accumulate_built|].
  split.
  - intros d. unfold score_of.
    now rewrite (score_tokens_get (built_wf k1 b dir)).
  - intros top_k. eexists. split; [apply score_subset_built|].
    intros d s. apply ranked_score_of.
Qed.

(** C2, as the code has it: for [top_k >= 0], [score_subset] returns at
    most [top_k] pairs, all for candidate chunks, in descending order of
    score; chunks of equal score come in the order in which they were first
    scored (the order of the [scores] dictionary: query tokens in order,
    and within a token the chunks in index order), whatever the order of
    [candidate_ids] is. *)
Theorem score_subset_ranking (query : str) (candidate_ids : list Z)
  (top_k : Z) (Hk : (0 <= top_k)%Z) :
  exists idx scores,
    load_and_prepare (init k1 b) dir = Ok idx /\
    accumulate idx query candidate_ids = Ok scores /\
    score_subset idx query candidate_ids top_k
      = Ok (firstn (Z.to_nat top_k) (sorted_desc scores)) /\
    length (firstn (Z.to_nat top_k) (sorted_desc scores)) <= Z.to_nat top_k /\
    Permutation (sorted_desc scores) scores /\
    StronglySorted score_ge (sorted_desc scores) /\
    (forall s, filter (score_is s) (sorted_desc scores)
               = filter (score_is s) scores) /\
    (forall d s, In (d, s) (sorted_desc scores) ->
                 In (Z.of_nat d) candidate_ids) /\
    (forall candidate_ids',
        (forall z, In z candidate_ids <-> In z candidate_ids') ->
        score_subset idx query candidate_ids' top_k
        = score_subset idx query candidate_ids top_k).
Proof.
  exists (built k1 b dir). eexists.
  split; [apply load_and_prepare_ok|].
  split; [apply accumulate_built|].
  split; [rewrite score_subset_built; now rewrite py_take_nonneg|].
  split; [apply firstn_le_length|].
  split; [apply sorted_desc_perm|].
  split; [apply sorted_desc_sorted|].
  split; [intros s; apply sorted_desc_stable|].
  split.
  - intros d s Hin. apply in_candidates_iff.
    apply (Permutation_in _ (sorted_desc_perm _)) in Hin.
    assert (Hget : score_of (built k1 b dir) candidate_ids
                     (split (normalize query)) d = Some s).
    { unfold score_of.
      change (@None R) with (dict_get d (@nil (nat * R))).
      rewrite <- (score_tokens_get (built_wf k1 b dir)).
      apply In_dict_get; [|exact Hin].
      apply score_tokens_nodup. constructor. }
    now apply (score_of_candidate _ _ _ _ Hget).
  - intros c' Hsame. apply score_subset_candidates; [apply built_wf|].
    intros d _. symmetry. now apply in_candidates_same.
Qed.

(** C3: [score_subset] on a built index never divides by zero and never
    raises; a query token without a postings entry leaves every score as
    it was, and when the average document length is 0 every token does, so
    that the result is empty. *)
Theorem score_subset_never_raises (query : str) (candidate_ids : list Z)
  (top_k : Z) :
  exists idx ranked,
    load_and_prepare (init k1 b) dir = Ok idx /\
    score_subset idx query candidate_ids top_k = Ok ranked /\
    (forall tok scores,
        dict_get tok (postings idx) = None ->
        score_token idx candidate_ids tok scores = Ok scores) /\
    (avgdl idx = 0%R ->
     (forall tok scores,
         score_token idx candidate_ids tok scores = Ok scores) /\
     ranked = []).
Proof.
  exists (built k1 b dir). eexists.
  split; [apply load_and_prepare_ok|].
  split; [apply score_subset_built|].
  split.
  - intros tok scores G. unfold score_token. now rewrite G.
  - intros Hz.
    assert (Htok : forall tok scores,
               score_token_pure (built k1 b dir) candidate_ids scores tok
               = scores).
    { intros tok scores. unfold score_token_pure.
      destruct (dict_get tok (postings (built k1 b dir))) as [plist|] eqn:G;
        [|reflexivity].
      now rewrite (avgdl_zero_postings (built_wf k1 b dir) _ Hz G). }
    split.
    + intros tok scores.
      rewrite (score_token_ok (built_wf k1 b dir) built_params_ok).
      now rewrite Htok.
    + assert (Hall : forall tokens scores,
                 fold_left (score_token_pure (built k1 b dir) candidate_ids)
                           tokens scores = scores).
      { induction tokens as [|tok tokens IH]; intros scores;
          cbn [fold_left]; [reflexivity|]. now rewrite Htok, IH. }
      rewrite Hall. unfold py_take. cbn [sorted_desc fold_right].
      destruct (top_k <? 0)%Z; apply firstn_nil.
Qed.

(** C10: every inverse document frequency [load_and_prepare] computes is
    the logarithm of a number greater than 1 (the document frequency is at
    most [N]), hence strictly positive; and every pair [score_subset]
    returns carries a strictly positive score. *)
Theorem idf_and_scores_positive :
  exists idx,
    load_and_prepare (init k1 b) dir = Ok idx /\
    (forall tok n, In (tok, n) (df idx) -> 1 <= n <= N idx) /\
    (forall tok v, In (tok, v) (idf idx) ->
       exists n, In (tok, n) (df idx) /\
                 v = ln ((INR (N idx) - INR n + 0.5) / (INR n + 0.5) + 1) /\
                 (1 < (INR (N idx) - INR n + 0.5) / (INR n + 0.5) + 1)%R) /\
    (forall tok v, In (tok, v) (idf idx) -> (0 < v)%R) /\
    (forall query candidate_ids top_k, exists ranked,
        score_subset idx query candidate_ids top_k = Ok ranked /\
        forall d s, In (d, s) ranked -> (0 < s)%R).
Proof.
  exists (built k1 b dir).
  split; [apply load_and_prepare_ok|].
  assert (Hdf : forall tok n, In (tok, n) (df (built k1 b dir)) ->
                              1 <= n <= N (built k1 b dir)).
  { unfold built. cbn [df N].
    set (norm := map normalize (gather_chunks dir)).
    assert (Hinv : stats_inv (length norm) (index_stats norm)).
    { apply (index_docs_inv norm (i := 0)). apply stats_inv_init. }
    exact (proj1 (proj2 (proj2 Hinv))). }
  split; [exact Hdf|]. split.
  - intros tok v Hin. unfold built in Hin. cbn [idf] in Hin.
    apply idf_fold_values in Hin as [[] | (n & Hn & ->)].
    exists n. split; [exact Hn|]. split; [reflexivity|].
    apply idf_arg_gt_1. exact (proj2 (Hdf tok n Hn)).
  - split; [exact (wf_idf_pos (built_wf k1 b dir))|].
    intros query candidate_ids top_k. eexists.
    split; [apply score_subset_built|].
    intros d s Hin. apply ranked_score_of in Hin.
    apply (@score_of_pos _ (built_wf k1 b dir) _ built_params_ok _ _ _ _ Hin).
    discriminate.
Qed.

End ScoreSubset.

(** C8: for a term of a built index, with [k1 > 0] and [0 <= b <= 1], the
    contribution [idf * tf * (k1 + 1) / (tf + k1 * (1 - b + b * dl / avgdl))]
    does not decrease when the term frequency grows over the positive
    integers, and it stays below [idf * (k1 + 1)]: it saturates. *)
Theorem term_score_monotone_in_tf {U : UnicodeDB} (k1 b : R)
  (dir : list (str * list entry)) (idx : t) (tok : str) (dl tf1 tf2 : nat) :
  (0 < k1)%R -> (0 <= b <= 1)%R ->
  load_and_prepare (init k1 b) dir = Ok idx ->
  dict_mem tok (postings idx) = true ->
  1 <= tf1 -> tf1 <= tf2 ->
  (term_score k1 b (avgdl idx) (dict_get_or tok 0 (idf idx)) tf1 dl
   <= term_score k1 b (avgdl idx) (dict_get_or tok 0 (idf idx)) tf2 dl
   <= dict_get_or tok 0 (idf idx) * (k1 + 1))%R.
Proof.
  intros Hk Hb Hload Hm H1 H12.
  rewrite load_and_prepare_ok in Hload. injection Hload as <-.
  pose proof (built_wf k1 b dir) as Hwf.
  assert (Havg : (0 < avgdl (built k1 b dir))%R).
  { destruct (posting_nonempty Hwf _ Hm) as (plist & d & f & G & Hin).
    exact (proj1 (@posting_avgdl _ Hwf tok plist d f G Hin)). }
  apply term_score_mono; try assumption; try lra.
  left. now apply idf_of_posting_pos.
Qed.

(** *** The claims on the example corpus *)

Lemma example_k1 : (0 <= 3 / 2)%R.
Proof. lra. Defined.

Lemma example_b : (0 <= 3 / 4 <= 1)%R.
Proof. lra. Defined.

Lemma score_subset_accumulates_witness :
  (0 <= 3 / 2)%R /\ (0 <= 3 / 4 <= 1)%R /\
  exists idx scores,
    load_and_prepare (U := ascii_db) (init (3 / 2) (3 / 4)) example_dir
      = Ok idx /\
    accumulate (U := ascii_db) idx (lit "redundancy pay") [0; 1; 2]%Z
      = Ok scores /\
    (forall d, dict_get d scores =
               score_of idx [0; 1; 2]%Z
                 (split (normalize (U := ascii_db) (lit "redundancy pay"))) d) /\
    (forall top_k, exists ranked,
        score_subset (U := ascii_db) idx (lit "redundancy pay") [0; 1; 2]%Z
                     top_k = Ok ranked /\
        forall d s, In (d, s) ranked ->
          score_of idx [0; 1; 2]%Z
            (split (normalize (U := ascii_db) (lit "redundancy pay"))) d
          = Some s).
Proof.
  split; [exact example_k1|]. split; [exact example_b|].
  exact (@score_subset_accumulates ascii_db (3 / 2) (3 / 4) example_dir
           example_k1 example_b (lit "redundancy pay") [0; 1; 2]%Z).
Defined.

(** Evaluation of a closed term, leaving real arithmetic alone. *)
Ltac py_eval :=
  lazy -[Rplus Rmult Rdiv Rminus Rinv Ropp Rabs sqrt IZR INR ln term_score
         idf_value Rlt_dec Rle_dec Req_dec_T].

Lemma score_subset_ranking_witness :
  (0 <= 3 / 2)%R /\ (0 <= 3 / 4 <= 1)%R /\ (0 <= 2)%Z /\
  exists idx scores,
    load_and_prepare (U := ascii_db) (init (3 / 2) (3 / 4)) example_dir
      = Ok idx /\
    accumulate (U := ascii_db) idx (lit "redundancy pay") [0; 1; 2]%Z
      = Ok scores /\
    score_subset (U := ascii_db) idx (lit "redundancy pay") [0; 1; 2]%Z 2
      = Ok (firstn 2 (sorted_desc scores)).
Proof.
  assert (Hk : (0 <= 2)%Z) by discriminate.
  split; [exact example_k1|]. split; [exact example_b|]. split; [exact Hk|].
  destruct (@score_subset_ranking ascii_db (3 / 2) (3 / 4) example_dir
              example_k1 example_b (lit "redundancy pay") [0; 1; 2]%Z 2 Hk)
    as (idx & scores & H1 & H2 & H3 & _).
  exists idx, scores. split; [exact H1|]. split; [exact H2 | exact H3].
Defined.

(** C2 as stated fails: the candidates are given as [[2; 0]], the two
    chunks score alike, and the result lists chunk 0 before chunk 2.  (And
    with [top_k = -1] the slice returns one pair, which is more than
    [top_k].) *)
Lemma ties_follow_scoring_order :
  exists s,
    load_and_prepare (U := ascii_db) (init (3 / 2) (3 / 4)) tie_dir
      = Ok tie_index /\
    score_subset (U := ascii_db) tie_index (lit "alpha") [2; 0]%Z 2
      = Ok [(0, s); (2, s)] /\
    score_subset (U := ascii_db) tie_index (lit "alpha") [2; 0]%Z (-1)
      = Ok [(0, s)].
Proof.
  eexists. split; [apply load_and_prepare_ok|].
  unfold tie_index.
  rewrite !(@score_subset_built ascii_db _ _ tie_dir example_k1 example_b).
  py_eval.
  destruct (Rlt_dec _ _) as [Hlt|_]; [exfalso; lra|].
  split; reflexivity.
Qed.

Lemma score_subset_never_raises_witness :
  (0 <= 3 / 2)%R /\ (0 <= 3 / 4 <= 1)%R /\
  exists idx ranked,
    load_and_prepare (U := ascii_db) (init (3 / 2) (3 / 4)) example_dir
      = Ok idx /\
    score_subset (U := ascii_db) idx (lit "redundancy pay") [0; 1; 2]%Z 2
      = Ok ranked.
Proof.
  split; [exact example_k1|]. split; [exact example_b|].
  destruct (@score_subset_never_raises ascii_db (3 / 2) (3 / 4) example_dir
              example_k1 example_b (lit "redundancy pay") [0; 1; 2]%Z 2)
    as (idx & ranked & H1 & H2 & _).
  exists idx, ranked. split; [exact H1 | exact H2].
Defined.

Lemma idf_and_scores_positive_witness :
  (0 <= 3 / 2)%R /\ (0 <= 3 / 4 <= 1)%R /\
  exists idx,
    load_and_prepare (U := ascii_db) (init (3 / 2) (3 / 4)) example_dir
      = Ok idx /\
    (forall tok v, In (tok, v) (idf idx) -> (0 < v)%R).
Proof.
  split; [exact example_k1|]. split; [exact example_b|].
  destruct (@idf_and_scores_positive ascii_db (3 / 2) (3 / 4) example_dir
              example_k1 example_b) as (idx & H1 & _ & _ & H2 & _).
  exists idx. split; [exact H1 | exact H2].
Defined.

Lemma term_score_monotone_in_tf_witness :
  (0 < 3 / 2)%R /\ (0 <= 3 / 4 <= 1)%R /\
  load_and_prepare (U := ascii_db) (init (3 / 2) (3 / 4)) example_dir
    = Ok example_index /\
  dict_mem (lit "redundancy") (postings example_index) = true /\
  (term_score (3 / 2) (3 / 4) (avgdl example_index)
     (dict_get_or (lit "redundancy") 0 (idf example_index)) 1 8
   <= term_score (3 / 2) (3 / 4) (avgdl example_index)
        (dict_get_or (lit "redundancy") 0 (idf example_index)) 2 8
   <= dict_get_or (lit "redundancy") 0 (idf example_index) * (3 / 2 + 1))%R.
Proof.
  assert (Hk : (0 < 3 / 2)%R) by lra.
  assert (Hload : load_and_prepare (U := ascii_db) (init (3 / 2) (3 / 4))
                    example_dir = Ok example_index)
    by apply load_and_prepare_ok.
  assert (Hm : dict_mem (lit "redundancy") (postings example_index) = true)
    by reflexivity.
  split; [exact Hk|]. split; [exact example_b|]. split; [exact Hload|].
  split; [exact Hm|].
  exact (@term_score_monotone_in_tf ascii_db (3 / 2) (3 / 4) example_dir
           example_index (lit "redundancy") 8 1 2 Hk example_b Hload Hm
           (le_n 1) (le_S 1 1 (le_n 1))).
Defined.

(** The end-to-end example: chunks 0 and 2 are returned for the query
    [redundancy pay], chunk 1 is not. *)
Lemma example_ranking :
  exists s0 s2,
    score_subset (U := ascii_db) example_index (lit "redundancy pay")
                 [0; 1; 2]%Z 2
    = Ok [(0, s0); (2, s2)] \/
    score_subset (U := ascii_db) example_index (lit "redundancy pay")
                 [0; 1; 2]%Z 2
    = Ok [(2, s2); (0, s0)].
Proof.
  unfold example_index.
  rewrite (@score_subset_built ascii_db _ _ example_dir example_k1 example_b).
  py_eval.
  destruct (Rlt_dec _ _) as [Hlt|Hge]; do 2 eexists;
    [right | left]; reflexivity.
Qed.

End BM25Facts.

Module RetrievalFacts.
Import BM25Facts.

(** ** Embedding validation *)

Lemma sum_squares_one (c : R) :
  LegalKnowledgeIndexer.sum_squares [c] = (c * c)%R.
Proof. unfold LegalKnowledgeIndexer.sum_squares. simpl. ring. Qed.

Lemma norm_one (c : R) :
  (0 <= c)%R -> LegalKnowledgeIndexer.norm [Fin c] = Fin c.
Proof.
  intros Hc. unfold LegalKnowledgeIndexer.norm.
  cbn [LegalKnowledgeIndexer.finite_row].
  now rewrite sum_squares_one, sqrt_square.
Qed.

(** A model that returns one-component vectors [[c]] passes the checks
    of [embed] exactly when [|c - 1| <= 1e-6 + 1e-5]. *)
Lemma allclose_constant (c : R) (texts : list str) :
  (0 <= c)%R -> (Rabs (c - 1) <= 1 / 1000000 + 1 / 100000)%R ->
  LegalKnowledgeIndexer.allclose
    (map LegalKnowledgeIndexer.norm (map (fun _ : str => [Fin c]) texts))
    1 (1 / 1000000) = true.
Proof.
  intros Hc Hclose. unfold LegalKnowledgeIndexer.allclose.
  induction texts as [|t texts IH]; [reflexivity|].
  cbn [map forallb]. rewrite IH, norm_one by exact Hc.
  unfold LegalKnowledgeIndexer.isclose, LegalKnowledgeIndexer.default_rtol.
  destruct (Rle_dec _ _) as [_|Hn]; [reflexivity|].
  exfalso. apply Hn. rewrite Rabs_R1. lra.
Qed.

Lemma no_nan_inf_constant (c : R) (texts : list str) :
  existsb (existsb LegalKnowledgeIndexer.is_nan)
          (map (fun _ : str => [Fin c]) texts)
  || existsb (existsb LegalKnowledgeIndexer.is_inf)
             (map (fun _ : str => [Fin c]) texts) = false.
Proof.
  apply orb_false_iff. split; induction texts; simpl; auto.
Qed.

Lemma embed_unit (texts : list str) :
  LegalKnowledgeIndexer.embed (M := unit_runtime) texts
  = Ok (NdArray 2 (map (fun _ => [Fin 1]) texts)).
Proof.
  unfold LegalKnowledgeIndexer.embed. cbn [encode unit_runtime ndim rows].
  cbn [Nat.eqb negb].
  rewrite allclose_constant.
  - cbn [negb]. now rewrite no_nan_inf_constant.
  - lra.
  - replace (1 - 1)%R with 0%R by ring. rewrite Rabs_R0. lra.
Qed.

Lemma off_norm_close :
  (Rabs (off_norm - 1) <= 1 / 1000000 + 1 / 100000)%R /\
  (1 / 1000000 < Rabs (off_norm - 1))%R.
Proof.
  unfold off_norm.
  replace (1000005 / 1000000 - 1)%R with (5 / 1000000)%R by lra.
  rewrite Rabs_pos_eq by lra. lra.
Qed.

(** C4 fails on the code: [embed] accepts, and hands on unchanged,
    embeddings whose norm is [1.000005], off by more than the tolerance
    [1e-6]; [build_index] then persists them. *)
Theorem embed_accepts_off_norm :
  LegalKnowledgeIndexer.norm [Fin off_norm] = Fin off_norm /\
  (1 / 1000000 < Rabs (off_norm - 1))%R /\
  LegalKnowledgeIndexer.embed (M := off_norm_runtime) [lit "redundancy pay"]
  = Ok (NdArray 2 [[Fin off_norm]]) /\
  dict_get (lit "./legal_chunks.faiss")
           (semantic_disk (M := off_norm_runtime) example_dir)
  = Some (LegalKnowledgeIndexer.FaissFile
            [[Fin off_norm]; [Fin off_norm]; [Fin off_norm]]).
Proof.
  assert (Hpos : (0 <= off_norm)%R) by (unfold off_norm; lra).
  assert (Hembed : forall texts,
             LegalKnowledgeIndexer.embed (M := off_norm_runtime) texts
             = Ok (NdArray 2 (map (fun _ => [Fin off_norm]) texts))).
  { intros texts. unfold LegalKnowledgeIndexer.embed.
    cbn [encode off_norm_runtime ndim rows Nat.eqb negb].
    rewrite (allclose_constant texts Hpos (proj1 off_norm_close)).
    cbn [negb]. now rewrite no_nan_inf_constant. }
  split; [now apply norm_one|].
  split; [exact (proj2 off_norm_close)|].
  split; [apply Hembed|].
  unfold semantic_disk, LegalKnowledgeIndexer.build_index.
  destruct (LegalKnowledgeIndexer.gather _) as [chunks names] eqn:G.
  lazy in G. injection G as <- <-.
  rewrite Hembed. reflexivity.
Qed.

(** When the check of [embed] does fail, [build_index] raises before it
    writes anything. *)
Lemma build_index_aborts {M : SemanticRuntime} (self : LegalKnowledgeIndexer.t)
  (d : LegalKnowledgeIndexer.disk) (e : exc) :
  LegalKnowledgeIndexer.embed (fst (LegalKnowledgeIndexer.gather self))
    = Raise e ->
  LegalKnowledgeIndexer.build_index self d = (Raise e, d).
Proof.
  unfold LegalKnowledgeIndexer.build_index.
  destruct (LegalKnowledgeIndexer.gather self) as [chunks names].
  cbn [fst]. now intros ->.
Qed.

Lemma finite_row_no_nan_inf (row : list fl) (rs : list R) :
  LegalKnowledgeIndexer.finite_row row = Some rs ->
  existsb LegalKnowledgeIndexer.is_nan row = false /\
  existsb LegalKnowledgeIndexer.is_inf row = false.
Proof.
  revert rs. induction row as [|x row IH]; intros rs; simpl.
  - now split.
  - destruct x; try discriminate.
    destruct (LegalKnowledgeIndexer.finite_row row) as [rs'|];
      [|discriminate].
    intros _. exact (IH rs' eq_refl).
Qed.

Lemma isclose_norm (row : list fl) :
  LegalKnowledgeIndexer.isclose (LegalKnowledgeIndexer.norm row) 1
    LegalKnowledgeIndexer.default_rtol (1 / 1000000) = true
  <-> row_accepted row.
Proof.
  unfold LegalKnowledgeIndexer.norm, row_accepted.
  destruct (LegalKnowledgeIndexer.finite_row row) as [rs|].
  - unfold LegalKnowledgeIndexer.isclose,
      LegalKnowledgeIndexer.default_rtol. rewrite Rabs_R1.
    destruct (Rle_dec _ _) as [Hle|Hn]; split.
    + intros _. exists rs. split; [reflexivity | lra].
    + reflexivity.
    + discriminate.
    + intros (rs' & [= <-] & Hle). exfalso. apply Hn. lra.
  - split.
    + destruct (existsb _ row); discriminate.
    + intros (rs & Hf & _). discriminate.
Qed.

(** What [embed] checks: it returns the model's output unchanged when the
    output is a matrix whose rows are all accepted, and raises
    otherwise. *)
Lemma embed_ok_iff {M : SemanticRuntime} (texts : list str) (e : ndarray) :
  LegalKnowledgeIndexer.embed texts = Ok e <->
  e = encode texts /\ ndim e = 2 /\ Forall row_accepted (rows e).
Proof.
  unfold LegalKnowledgeIndexer.embed.
  destruct (Nat.eqb (ndim (encode texts)) 2) eqn:E; cbn [negb].
  - apply Nat.eqb_eq in E.
    destruct (LegalKnowledgeIndexer.allclose _ _ _) eqn:A; cbn [negb].
    + unfold LegalKnowledgeIndexer.allclose in A.
      rewrite forallb_forall in A.
      assert (Hacc : Forall row_accepted (rows (encode texts))).
      { apply Forall_forall. intros row Hrow. apply isclose_norm.
        apply A. now apply in_map. }
      assert (Hfin : existsb (existsb LegalKnowledgeIndexer.is_nan)
                             (rows (encode texts))
                     || existsb (existsb LegalKnowledgeIndexer.is_inf)
                                (rows (encode texts)) = false).
      { apply orb_false_iff.
        split; apply not_true_is_false; intros Hex;
          apply existsb_exists in Hex as (row & Hrow & Hbad);
          rewrite Forall_forall in Hacc;
          destruct (Hacc row Hrow) as (rs & Hf & _);
          destruct (finite_row_no_nan_inf _ Hf) as [H1 H2]; congruence. }
      rewrite Hfin. split.
      * intros [= <-]. now repeat split.
      * intros (-> & _ & _). reflexivity.
    + split; [discriminate|]. intros (-> & _ & Hacc). exfalso.
      apply not_true_iff_false in A. apply A.
      unfold LegalKnowledgeIndexer.allclose. apply forallb_forall.
      intros x Hx. apply in_map_iff in Hx as (row & <- & Hrow).
      apply isclose_norm. rewrite Forall_forall in Hacc. now apply Hacc.
  - apply Nat.eqb_neq in E. split; [discriminate|].
    intros (-> & Hd & _). contradiction.
Qed.

(** ** The text handed back *)

Lemma pop_sections_head (lines : list str) (x : str) (rest : list str) :
  HybridRetrieval.pop_sections lines = x :: rest ->
  startswith (lit "Section:") x = false.
Proof.
  induction lines as [|ln lines IH]; cbn [HybridRetrieval.pop_sections];
    [discriminate|].
  destruct (startswith (lit "Section:") ln) eqn:E; [exact IH|].
  now intros [= <- _].
Qed.

Lemma join_cons (sep x : str) (rest : list str) :
  exists w, join sep (x :: rest) = x ++ w /\
            (w = [] \/ exists w', w = sep ++ w').
Proof.
  destruct rest as [|y rest].
  - exists []. split; [symmetry; apply app_nil_r | now left].
  - exists (sep ++ join sep (y :: rest)). split; [reflexivity|].
    right. now eexists.
Qed.

Lemma strip_solid (c : char) (s : str) :
  is_space c = false ->
  exists t w, strip (c :: s) = c :: t /\ c :: s = (c :: t) ++ w.
Proof.
  intros Hc. unfold strip. rewrite (@lstrip_by_keep is_space c s Hc).
  destruct (@rstrip_by_cons is_space c s Hc) as [t Ht].
  destruct (rstrip_by_prefix is_space (c :: s)) as (w & Hw & _).
  exists t, w. split; [exact Ht|]. now rewrite <- Ht.
Qed.

(** A chunk whose first line after the [Section:] lines starts with a
    visible character comes back non-empty and does not begin with
    [Section:]. *)
Lemma clean_chunk_solid (chunk : str) :
  first_line_solid (HybridRetrieval.pop_sections (splitlines chunk)) ->
  HybridRetrieval.clean_chunk chunk <> [] /\
  startswith (lit "Section:") (HybridRetrieval.clean_chunk chunk) = false.
Proof.
  unfold HybridRetrieval.clean_chunk.
  destruct (HybridRetrieval.pop_sections (splitlines chunk))
    as [|[|c line] rest] eqn:E; cbn [first_line_solid]; try tauto.
  intros Hc. pose proof (@pop_sections_head _ _ _ E) as Hhead.
  destruct (join_cons [LF] (c :: line) rest) as (w & -> & Hw).
  change ((c :: line) ++ w) with (c :: (line ++ w)).
  destruct (@strip_solid c (line ++ w) Hc) as (t & w' & -> & Hsplit).
  split; [discriminate|].
  apply not_true_is_false. intros Hs.
  apply (@startswith_app _ _ w') in Hs. rewrite <- Hsplit in Hs.
  change (c :: line ++ w) with ((c :: line) ++ w) in Hs.
  destruct Hw as [-> | (w0 & ->)].
  - rewrite app_nil_r in Hs. congruence.
  - cbn [app] in Hs.
    apply (@startswith_line (lit "Section:") (c :: line) w0 LF) in Hs;
      [congruence|].
    cbv. intuition discriminate.
Qed.

Lemma clean_chunk_nothing_left (chunk : str) :
  HybridRetrieval.pop_sections (splitlines chunk) = [] ->
  HybridRetrieval.clean_chunk chunk = [].
Proof. unfold HybridRetrieval.clean_chunk. now intros ->. Qed.

(** ** The retriever *)

Section Retriever.
Context {U : UnicodeDB} {M : SemanticRuntime}.

Lemma score_subset_length (self : BM25Preprocessor.t) (query : str)
  (candidate_ids : list Z) (top_k : Z) (ranked : list (nat * R)) :
  BM25Preprocessor.score_subset self query candidate_ids top_k = Ok ranked ->
  (0 <= top_k)%Z -> length ranked <= Z.to_nat top_k.
Proof.
  unfold BM25Preprocessor.score_subset.
  destruct (BM25Preprocessor.accumulate self query candidate_ids);
    cbn [bind]; [|discriminate].
  intros [= <-] Hk. pose proof (@py_take_length _ top_k (sorted_desc a) Hk). lia.
Qed.

(** Inversion of [run]. *)
Lemma run_inv (self : HybridRetrieval.t) (top_k_sem top_k_bm25 : Z)
  (res : list str) :
  HybridRetrieval.run self top_k_sem top_k_bm25 = Ok res ->
  exists sem_hits candidate_int_ids bm25_hits,
    LegalKnowledgeIndexer.query (HybridRetrieval.sb self)
      (HybridRetrieval.query self) top_k_sem = Ok sem_hits /\
    map_py (HybridRetrieval.candidate_id self) sem_hits
      = Ok candidate_int_ids /\
    BM25Preprocessor.score_subset (HybridRetrieval.bm25 self)
      (HybridRetrieval.query self) candidate_int_ids top_k_bm25
      = Ok bm25_hits /\
    map_py (fun hit : nat * R =>
              chunk <- list_at (BM25Preprocessor.raw_chunks
                                  (HybridRetrieval.bm25 self)) (fst hit) ;;
              Ok (HybridRetrieval.clean_chunk chunk))
           bm25_hits = Ok res.
Proof.
  unfold HybridRetrieval.run.
  destruct (LegalKnowledgeIndexer.query _ _ _) as [sem_hits|] eqn:E1;
    cbn [bind]; [|discriminate].
  destruct (map_py (HybridRetrieval.candidate_id self) sem_hits)
    as [cands|] eqn:E2; cbn [bind]; [|discriminate].
  destruct (BM25Preprocessor.score_subset _ _ _ _) as [hits|] eqn:E3;
    cbn [bind]; [|discriminate].
  intros Hres. exists sem_hits, cands, hits.
  split; [reflexivity|]. split; [exact E2|]. split; [exact E3 | exact Hres].
Qed.

(** C5, as the code has it: for [top_k_final >= 0], [run] returns at most
    [top_k_final] strings; each is the raw text of a chunk with its
    leading lines that start with [Section:] popped and the rest joined and
    stripped.  Such a string is non-empty and does not begin with
    [Section:] when the first line left starts with a visible character;
    it is empty when no line is left. *)
Theorem run_returns_cleaned_chunks (self : HybridRetrieval.t)
  (top_k_sem top_k_final : Z) (res : list str) :
  HybridRetrieval.run self top_k_sem top_k_final = Ok res ->
  (0 <= top_k_final)%Z ->
  length res <= Z.to_nat top_k_final /\
  Forall (fun r =>
            exists chunk,
              In chunk (BM25Preprocessor.raw_chunks
                          (HybridRetrieval.bm25 self)) /\
              r = HybridRetrieval.clean_chunk chunk /\
              (first_line_solid
                 (HybridRetrieval.pop_sections (splitlines chunk)) ->
               r <> [] /\ startswith (lit "Section:") r = false) /\
              (HybridRetrieval.pop_sections (splitlines chunk) = [] ->
               r = []))
         res.
Proof.
  intros Hrun Hk.
  destruct (@run_inv _ _ _ _ Hrun) as (sem & cands & hits & _ & _ & Hs & Hm).
  split.
  - rewrite (@map_py_length _ _ _ _ _ Hm).
    exact (@score_subset_length _ _ _ _ _ Hs Hk).
  - apply map_py_Forall2 in Hm. clear - Hm.
    induction Hm as [|hit r hits res Hhit _ IH]; constructor; [|exact IH].
    unfold list_at in Hhit.
    destruct (nth_error _ (fst hit)) as [chunk|] eqn:E; cbn [bind] in Hhit;
      [|discriminate].
    injection Hhit as <-. exists chunk.
    split; [exact (nth_error_In _ _ E)|]. split; [reflexivity|].
    split; [apply clean_chunk_solid | apply clean_chunk_nothing_left].
Qed.

End Retriever.

(** ** The retriever on concrete corpora *)

(** Evaluation of the pipeline up to the calls that need a proof. *)
Ltac hybrid_eval :=
  lazy -[Rplus Rmult Rdiv Rminus Rinv Ropp Rabs sqrt IZR INR ln term_score
         idf_value Rlt_dec Rle_dec Req_dec_T
         LegalKnowledgeIndexer.embed BM25Preprocessor.load_and_prepare
         BM25Preprocessor.init BM25Preprocessor.score_subset built].

Ltac run_eval :=
  hybrid_eval; rewrite embed_unit; hybrid_eval;
  try (rewrite (@score_subset_built ascii_db _ _ _ example_k1 example_b));
  py_eval.

Ltac retrieve_eval :=
  unfold retrieve, semantic_disk;
  hybrid_eval; rewrite embed_unit;
  hybrid_eval; rewrite load_and_prepare_ok;
  run_eval.

Lemma load_and_flatten_paths (self : LegalKnowledgeIndexer.t)
  (dir : list (str * list entry)) :
  LegalKnowledgeIndexer.index_path
    (LegalKnowledgeIndexer.load_and_flatten self dir)
  = LegalKnowledgeIndexer.index_path self /\
  LegalKnowledgeIndexer.chunks_path
    (LegalKnowledgeIndexer.load_and_flatten self dir)
  = LegalKnowledgeIndexer.chunks_path self /\
  LegalKnowledgeIndexer.id_meta_path
    (LegalKnowledgeIndexer.load_and_flatten self dir)
  = LegalKnowledgeIndexer.id_meta_path self.
Proof.
  unfold LegalKnowledgeIndexer.load_and_flatten.
  revert self. induction dir as [|f dir IH]; intros self; cbn [fold_left].
  - now repeat split.
  - destruct (endswith (lit ".json") (fst f)); [|apply IH].
    destruct (IH
      {| LegalKnowledgeIndexer.index_path :=
           LegalKnowledgeIndexer.index_path self;
         LegalKnowledgeIndexer.chunks_path :=
           LegalKnowledgeIndexer.chunks_path self;
         LegalKnowledgeIndexer.id_meta_path :=
           LegalKnowledgeIndexer.id_meta_path self;
         LegalKnowledgeIndexer.file_chunks :=
           dict_set (fst f)
             (map fst (LegalKnowledgeIndexer.flatten_file (snd f)))
             (LegalKnowledgeIndexer.file_chunks self);
         LegalKnowledgeIndexer.chunk_meta :=
           dict_set (fst f)
             (map snd (LegalKnowledgeIndexer.flatten_file (snd f)))
             (LegalKnowledgeIndexer.chunk_meta self);
         LegalKnowledgeIndexer.ids := LegalKnowledgeIndexer.ids self;
         LegalKnowledgeIndexer.all_chunks :=
           LegalKnowledgeIndexer.all_chunks self;
         LegalKnowledgeIndexer.index := LegalKnowledgeIndexer.index self |})
      as (H1 & H2 & H3).
    now repeat split.
Qed.

(** Starting the retriever on the disk a build has left. *)
Lemma started_ok (q : str) (sem_dir lex_dir : list (str * list entry)) :
  HybridRetrieval.init (U := ascii_db) q
    (semantic_disk (M := unit_runtime) sem_dir) lex_dir
  = Ok (started (U := ascii_db) (M := unit_runtime) q sem_dir lex_dir).
Proof.
  unfold HybridRetrieval.init, semantic_disk, started, semantic_index,
    LegalKnowledgeIndexer.build_index.
  rewrite load_and_prepare_ok.
  destruct (load_and_flatten_paths semantic_paths sem_dir) as (H1 & H2 & H3).
  destruct (LegalKnowledgeIndexer.gather _) as [chunks names].
  rewrite embed_unit, H1, H2, H3. reflexivity.
Qed.

(** C5 as stated fails: the only content line of the chunk itself starts
    with [Section:], every line is popped, and the retriever returns the
    empty string. *)
Lemma empty_string_returned :
  retrieve (U := ascii_db) (M := unit_runtime) (lit "redundancy")
           section_only_dir section_only_dir 5 3 = Ok [[]].
Proof. retrieve_eval. reflexivity. Qed.

(** The end-to-end example: both indices are built from the three chunks,
    and the query [redundancy pay] with [top_k_semantic = 3] and
    [top_k_final = 2] brings back chunks 0 and 2, without their [Section:]
    lines. *)
Lemma example_retrieve :
  let c0 := lit "An employee may claim redundancy pay." in
  let c2 := lit "Redundancy pay depends on length of service." in
  retrieve (U := ascii_db) (M := unit_runtime) (lit "redundancy pay")
           example_dir example_dir 3 2 = Ok [c0; c2] \/
  retrieve (U := ascii_db) (M := unit_runtime) (lit "redundancy pay")
           example_dir example_dir 3 2 = Ok [c2; c0].
Proof.
  retrieve_eval.
  destruct (Rlt_dec _ _); [right | left]; reflexivity.
Qed.

Lemma section_only_run :
  HybridRetrieval.run (U := ascii_db) (M := unit_runtime)
    (started (U := ascii_db) (M := unit_runtime) (lit "redundancy")
             section_only_dir section_only_dir) 5 3
  = Ok [[]].
Proof. run_eval. reflexivity. Qed.

Lemma run_returns_cleaned_chunks_witness :
  (0 <= 3)%Z /\
  length (A := str) [[]] <= Z.to_nat 3 /\
  Forall (fun r =>
            exists chunk,
              In chunk (BM25Preprocessor.raw_chunks
                          (HybridRetrieval.bm25
                             (started (U := ascii_db) (M := unit_runtime)
                                (lit "redundancy")
                                section_only_dir section_only_dir))) /\
              r = HybridRetrieval.clean_chunk chunk /\
              (first_line_solid
                 (HybridRetrieval.pop_sections (splitlines chunk)) ->
               r <> [] /\ startswith (lit "Section:") r = false) /\
              (HybridRetrieval.pop_sections (splitlines chunk) = [] ->
               r = []))
         [[]].
Proof.
  assert (Hk : (0 <= 3)%Z) by discriminate.
  split; [exact Hk|].
  exact (@run_returns_cleaned_chunks ascii_db unit_runtime _ 5 3 [[]]
           section_only_run Hk).
Defined.

(** ** The empty corpus *)

Section EmptyCorpus.
Context {U : UnicodeDB} {M : SemanticRuntime}.

Lemma score_tokens_no_postings (self : BM25Preprocessor.t)
  (candidate_ids : list Z) (scores : dict nat R) (tokens : list str) :
  BM25Preprocessor.postings self = [] ->
  for_each (BM25Preprocessor.score_token self candidate_ids) tokens scores
  = Ok scores.
Proof.
  intros Hp. induction tokens as [|tok toks IH]; cbn [for_each];
    [reflexivity|].
  unfold BM25Preprocessor.score_token at 1. rewrite Hp. cbn [dict_get bind].
  exact IH.
Qed.

Lemma score_subset_no_postings (self : BM25Preprocessor.t) (query : str)
  (candidate_ids : list Z) (top_k : Z) :
  BM25Preprocessor.postings self = [] ->
  BM25Preprocessor.score_subset self query candidate_ids top_k = Ok [].
Proof.
  intros Hp. unfold BM25Preprocessor.score_subset,
    BM25Preprocessor.accumulate.
  rewrite (@score_tokens_no_postings self candidate_ids [] _ Hp).
  cbn [bind sorted_desc fold_right]. unfold py_take.
  destruct (top_k <? 0)%Z; now rewrite firstn_nil.
Qed.

Lemma built_empty (k1 b : R) (dir : list (str * list entry)) :
  BM25Preprocessor.gather_chunks dir = [] ->
  BM25Preprocessor.N (built k1 b dir) = 0 /\
  BM25Preprocessor.postings (built k1 b dir) = [].
Proof. unfold built. intros ->. split; reflexivity. Qed.

(** The list comprehension of [query] over an empty [ids]. *)
Lemma map_py_empty_ids (hits : list (R * Z)) :
  map_py (fun hit : R * Z =>
            id <- py_index (@nil str) (snd hit) ;; Ok (fst hit, id)) hits
  = match hits with [] => Ok [] | _ :: _ => Raise IndexError end.
Proof.
  destruct hits as [|[s i] hits]; [reflexivity|].
  cbn [map_py snd]. unfold py_index. cbn [length Z.of_nat].
  destruct (i <? 0)%Z eqn:E.
  - replace ((0 <=? i + 0) && (i + 0 <? 0))%Z with false; [reflexivity|].
    symmetry. apply andb_false_iff. apply Z.ltb_lt in E.
    left. apply Z.leb_gt. lia.
  - replace ((0 <=? i) && (i <? 0))%Z with false; [reflexivity|].
    symmetry. apply andb_false_iff. right. exact E.
Qed.

(** C6, as the code has it: on an empty corpus the lexical index is built
    with [N = 0] and [score_subset] returns the empty list for every query,
    candidate list and [top_k].  The semantic [query] over an empty list of
    ids returns the empty list only when the nearest-neighbour search
    yields no label at all; as soon as it yields one (FAISS pads its answer
    to [top_k] labels) the lookup [self.ids[idx]] raises [IndexError].
    [run] returns the empty list when the semantic query does. *)
Theorem empty_corpus_queries (k1 b : R) (dir : list (str * list entry)) :
  BM25Preprocessor.gather_chunks dir = [] ->
  exists idx,
    BM25Preprocessor.load_and_prepare (BM25Preprocessor.init k1 b) dir
      = Ok idx /\
    BM25Preprocessor.N idx = 0 /\
    (forall query candidate_ids top_k,
        BM25Preprocessor.score_subset idx query candidate_ids top_k = Ok []) /\
    (forall sbs vectors text top_k e,
        LegalKnowledgeIndexer.ids sbs = [] ->
        LegalKnowledgeIndexer.index sbs = Some vectors ->
        LegalKnowledgeIndexer.embed [text] = Ok e ->
        LegalKnowledgeIndexer.query sbs text top_k =
        match search vectors (rows e) top_k with
        | [] => Ok []
        | _ :: _ => Raise IndexError
        end) /\
    (forall self top_k_sem top_k_final,
        HybridRetrieval.bm25 self = idx ->
        LegalKnowledgeIndexer.query (HybridRetrieval.sb self)
          (HybridRetrieval.query self) top_k_sem = Ok [] ->
        HybridRetrieval.run self top_k_sem top_k_final = Ok []).
Proof.
  intros Hempty. exists (built k1 b dir).
  destruct (built_empty k1 b dir Hempty) as [HN Hp].
  split; [apply load_and_prepare_ok|]. split; [exact HN|].
  split; [|split].
  - intros query cands top_k. now apply score_subset_no_postings.
  - intros sbs vectors text top_k e Hids Hidx He.
    unfold LegalKnowledgeIndexer.query. rewrite He, Hidx, Hids.
    cbn [bind]. apply map_py_empty_ids.
  - intros self ks kf Hbm Hq. unfold HybridRetrieval.run.
    rewrite Hq, Hbm. cbn [bind map_py].
    rewrite score_subset_no_postings by exact Hp. reflexivity.
Qed.

End EmptyCorpus.

Lemma empty_corpus_queries_witness :
  BM25Preprocessor.gather_chunks (U := ascii_db) [] = [] /\
  exists idx,
    BM25Preprocessor.load_and_prepare (U := ascii_db)
      (BM25Preprocessor.init (3 / 2) (3 / 4)) [] = Ok idx /\
    BM25Preprocessor.N idx = 0 /\
    (forall query candidate_ids top_k,
        BM25Preprocessor.score_subset (U := ascii_db) idx query
          candidate_ids top_k = Ok []).
Proof.
  split; [reflexivity|].
  destruct (@empty_corpus_queries ascii_db unit_runtime (3 / 2) (3 / 4) []
              eq_refl) as (idx & H1 & H2 & H3 & _).
  exists idx. split; [exact H1|]. split; [exact H2 | exact H3].
Defined.

(** C6 as stated fails on the semantic side: over the index built from
    zero chunks the search pads its answer with the label [-1], the lookup
    in the empty [ids] raises, and so does the retriever. *)
Lemma empty_corpus_query_raises :
  LegalKnowledgeIndexer.query (M := unit_runtime)
    (semantic_index (M := unit_runtime) []) (lit "redundancy pay") 5
  = Raise IndexError /\
  retrieve (U := ascii_db) (M := unit_runtime) (lit "redundancy pay")
           [] [] 5 3 = Raise IndexError.
Proof.
  split.
  - unfold LegalKnowledgeIndexer.query. rewrite embed_unit. reflexivity.
  - unfold retrieve, semantic_disk.
    hybrid_eval. rewrite embed_unit.
    hybrid_eval. rewrite load_and_prepare_ok.
    hybrid_eval. rewrite embed_unit. reflexivity.
Qed.

(** ** Semantic hits without a lexical entry *)

Lemma in_candidates_filter (self : BM25Preprocessor.t)
  (candidate_ids : list Z) (d : nat) :
  d < BM25Preprocessor.N self ->
  in_candidates (filter (has_lexical_entry self) candidate_ids) d
  = in_candidates candidate_ids d.
Proof.
  intros Hd. unfold in_candidates.
  induction candidate_ids as [|z cands IH]; [reflexivity|].
  cbn [filter existsb]. unfold has_lexical_entry at 1.
  destruct (z <? Z.of_nat (BM25Preprocessor.N self))%Z eqn:E.
  - cbn [existsb]. now rewrite IH.
  - rewrite IH.
    replace (Z.of_nat d =? z)%Z with false; [reflexivity|].
    symmetry. apply Z.eqb_neq. apply Z.ltb_ge in E. lia.
Qed.

(** C7, as the code has it: a semantic hit whose position has no lexical
    entry is left out of the rerank without an error and without a
    warning: [run] answers exactly as if those hits had been taken out of
    the candidates beforehand. *)
Theorem unmatched_hits_dropped {U : UnicodeDB} {M : SemanticRuntime}
  (k1 b : R) (dir : list (str * list entry)) (self : HybridRetrieval.t)
  (top_k_sem top_k_final : Z) :
  BM25Preprocessor.load_and_prepare (BM25Preprocessor.init k1 b) dir
    = Ok (HybridRetrieval.bm25 self) ->
  HybridRetrieval.run self top_k_sem top_k_final
  = run_dropping self top_k_sem top_k_final.
Proof.
  intros Hload. rewrite load_and_prepare_ok in Hload.
  injection Hload as Hbm.
  assert (Hwf : wf (HybridRetrieval.bm25 self))
    by (rewrite <- Hbm; apply built_wf).
  unfold HybridRetrieval.run, run_dropping.
  destruct (LegalKnowledgeIndexer.query _ _ _) as [sem_hits|];
    cbn [bind]; [|reflexivity].
  destruct (map_py _ sem_hits) as [cands|]; cbn [bind]; [|reflexivity].
  rewrite (@score_subset_candidates U _ Hwf (HybridRetrieval.query self)
             cands
             (filter (has_lexical_entry (HybridRetrieval.bm25 self)) cands)
             top_k_final); [reflexivity|].
  intros d Hd. symmetry. now apply in_candidates_filter.
Qed.

Lemma unmatched_hits_dropped_witness :
  BM25Preprocessor.load_and_prepare (U := ascii_db)
    (BM25Preprocessor.init (3 / 2) (3 / 4)) one_chunk_dir
    = Ok (HybridRetrieval.bm25 stale_state) /\
  HybridRetrieval.run (U := ascii_db) (M := unit_runtime) stale_state 3 2
  = run_dropping (U := ascii_db) (M := unit_runtime) stale_state 3 2.
Proof.
  assert (Hload : BM25Preprocessor.load_and_prepare (U := ascii_db)
                    (BM25Preprocessor.init (3 / 2) (3 / 4)) one_chunk_dir
                  = Ok (HybridRetrieval.bm25 stale_state))
    by apply load_and_prepare_ok.
  split; [exact Hload|].
  exact (@unmatched_hits_dropped ascii_db unit_runtime (3 / 2) (3 / 4)
           one_chunk_dir stale_state 3 2 Hload).
Defined.

(** C7 as stated fails: the semantic index on disk knows three chunks, the
    lexical index rebuilt at start knows one; the hits at positions 1 and 2
    have no lexical entry, and [run] returns its answer without raising. *)
Lemma stale_index_goes_unnoticed :
  HybridRetrieval.init (U := ascii_db) (lit "redundancy pay")
    (semantic_disk (M := unit_runtime) example_dir) one_chunk_dir
    = Ok stale_state /\
  BM25Preprocessor.N (HybridRetrieval.bm25 stale_state) = 1 /\
  (sem_hits <- LegalKnowledgeIndexer.query (M := unit_runtime)
                 (HybridRetrieval.sb stale_state) (lit "redundancy pay") 3 ;;
   map_py (HybridRetrieval.candidate_id stale_state) sem_hits)
    = Ok [0; 1; 2]%Z /\
  HybridRetrieval.run (U := ascii_db) (M := unit_runtime) stale_state 3 2
    = Ok [lit "An employee may claim redundancy pay."].
Proof.
  split; [apply started_ok|]. split; [reflexivity|]. split.
  - unfold stale_state. hybrid_eval. rewrite embed_unit. reflexivity.
  - unfold stale_state. run_eval. reflexivity.
Qed.

End RetrievalFacts.

Module IndexFacts.
Import BM25Preprocessor.
Import BM25Facts.

Section DictMore.
Context {K V : Type} {KK : Key K} {KO : KeyOk K}.

Lemma dict_get_or_set (k k0 : K) (v0 dflt : V) (d : dict K V) :
  dict_get_or k dflt (dict_set k0 v0 d)
  = if key_eqb k0 k then v0 else dict_get_or k dflt d.
Proof.
  unfold dict_get_or. rewrite dict_get_set. now destruct (key_eqb k0 k).
Qed.

Lemma dict_set_new (k0 : K) (v0 : V) (d : dict K V) :
  ~ In k0 (keys d) -> dict_set k0 v0 d = d ++ [(k0, v0)].
Proof.
  induction d as [|[k v] d IH]; cbn [dict_set keys map fst app In];
    intros Hn; [reflexivity|].
  destruct (key_eqb k k0) eqn:E.
  - apply key_eqb_spec in E. tauto.
  - rewrite IH by tauto. reflexivity.
Qed.

Lemma dict_mem_same_keys {W : Type} (k : K) (d : dict K V) (d' : dict K W) :
  keys d = keys d' -> dict_mem k d = dict_mem k d'.
Proof.
  intros Hk.
  destruct (dict_mem k d) eqn:E1, (dict_mem k d') eqn:E2; try reflexivity.
  - apply dict_mem_true in E1. rewrite Hk in E1.
    apply (dict_mem_true (V := W)) in E1. congruence.
  - apply dict_mem_true in E2. rewrite <- Hk in E2.
    apply (dict_mem_true (V := V)) in E2. congruence.
Qed.

End DictMore.

Lemma sorted_snoc (l : list nat) (i : nat) :
  StronglySorted lt l -> Forall (fun d => d < i) l ->
  StronglySorted lt (l ++ [i]).
Proof.
  induction 1 as [|a l Hs IH Ha]; intros Hall; cbn [app].
  - constructor; constructor.
  - inversion Hall as [|? ? Hai Hl]; subst. constructor; [now apply IH|].
    apply Forall_app. split; [exact Ha|]. constructor; [exact Hai|constructor].
Qed.

(** ** Term counts *)

Lemma count_terms_fold (tokens : list str) (tf : dict str nat) (tok : str) :
  dict_get_or tok 0
    (fold_left (fun tf t => dict_set t (dict_get_or t 0 tf + 1) tf) tokens tf)
  = dict_get_or tok 0 tf + occurrences tok tokens.
Proof.
  revert tf. induction tokens as [|t tokens IH]; intros tf; cbn [fold_left].
  - unfold occurrences. cbn [count_occ]. lia.
  - rewrite IH, dict_get_or_set. unfold occurrences. cbn [count_occ].
    cbn [key_eqb str_key]. unfold str_eqb.
    destruct (list_eq_dec N.eq_dec t tok) as [->|]; lia.
Qed.

Lemma count_terms_get (tokens : list str) (tok : str) (f : nat) :
  dict_get tok (count_terms tokens) = Some f
  <-> occurrences tok tokens = f /\ 1 <= f.
Proof.
  pose proof (count_terms_fold tokens [] tok) as Hc.
  fold (count_terms tokens) in Hc. cbn in Hc.
  destruct (count_terms_ok tokens) as [_ Hpos].
  unfold dict_get_or in Hc.
  destruct (dict_get tok (count_terms tokens)) as [n|] eqn:G.
  - apply dict_get_In in G. apply Hpos in G.
    split; [intros [= <-]; lia | intros [<- _]; now f_equal].
  - split; [discriminate | intros [<- H1]; lia].
Qed.

(** ** The postings after the indexing loop *)

Lemma add_postings_tf (i : nat) (l : dict str nat) (st : stats) (tok : str)
  (d : nat) :
  NoDup (keys l) ->
  tf_at (s_postings (fold_left (add_posting i) l st)) tok d
  = match (if Nat.eqb i d then dict_get tok l else None) with
    | Some f => Some f
    | None => tf_at (s_postings st) tok d
    end.
Proof.
  revert st. induction l as [|[tok0 f0] l IH]; intros st Hnd; cbn [fold_left].
  - now destruct (Nat.eqb i d).
  - cbn [keys map fst] in Hnd. apply NoDup_cons_iff in Hnd as [Hnotin Hnd].
    rewrite (IH _ Hnd). cbn [dict_get].
    unfold tf_at at 1. cbn [add_posting s_postings]. rewrite dict_get_set.
    destruct (key_eqb tok0 tok) eqn:E.
    + apply key_eqb_spec in E. subst tok0.
      assert (G : dict_get tok l = None) by now apply dict_get_None.
      rewrite G, dict_get_set. cbn [key_eqb nat_key].
      destruct (Nat.eqb i d); [reflexivity|].
      unfold tf_at, dict_get_or, dict.
      now destruct (@dict_get str (list (nat * nat)) _ tok (s_postings st)).
    + fold (tf_at (s_postings st) tok d). reflexivity.
Qed.

Lemma index_docs_tf (docs : list str) (i : nat) (st : stats) (tok : str)
  (d : nat) :
  tf_at (s_postings
           (fold_left index_doc (combine (seq i (length docs)) docs) st))
        tok d
  = match (if Nat.leb i d then
             match nth_error docs (d - i) with
             | Some doc => dict_get tok (count_terms (split doc))
             | None => None
             end
           else None) with
    | Some f => Some f
    | None => tf_at (s_postings st) tok d
    end.
Proof.
  revert i st. induction docs as [|doc docs IH]; intros i st;
    cbn [length seq combine fold_left].
  - destruct (Nat.leb i d); [|reflexivity]. now destruct (d - i).
  - rewrite IH. unfold index_doc.
    rewrite add_postings_tf by apply count_terms_ok. cbn [s_postings].
    destruct (Nat.eqb i d) eqn:E.
    + apply Nat.eqb_eq in E. subst d.
      replace (Nat.leb (S i) i) with false by (symmetry; apply Nat.leb_gt; lia).
      rewrite Nat.leb_refl, Nat.sub_diag. reflexivity.
    + apply Nat.eqb_neq in E.
      destruct (Nat.leb (S i) d) eqn:L.
      * apply Nat.leb_le in L.
        replace (Nat.leb i d) with true by (symmetry; apply Nat.leb_le; lia).
        replace (d - i) with (S (d - S i)) by lia. reflexivity.
      * apply Nat.leb_gt in L.
        replace (Nat.leb i d) with false by (symmetry; apply Nat.leb_gt; lia).
        reflexivity.
Qed.

(** ** Document frequencies and the shape of the postings *)

Lemma add_postings_shape (i : nat) (l : dict str nat) (st : stats) :
  NoDup (keys l) -> shape_inv i (S i) l st ->
  shape_inv i (S i) [] (fold_left (add_posting i) l st).
Proof.
  revert st. induction l as [|[tok0 f0] l IH]; intros st Hnd Hinv;
    cbn [fold_left]; [exact Hinv|].
  cbn [keys map fst] in Hnd. apply NoDup_cons_iff in Hnd as [Hnotin Hnd].
  apply IH; [exact Hnd|].
  destruct Hinv as (Hkeys & Hnodup & Hall).
  destruct (Hall tok0) as (Hdf0 & Hs0 & _ & Hlt0).
  specialize (Hlt0 (or_introl eq_refl)).
  assert (Hnew : ~ In i (keys (dict_get_or tok0 [] (s_postings st)))).
  { intros Hin. rewrite Forall_forall in Hlt0. specialize (Hlt0 _ Hin). lia. }
  unfold shape_inv. cbn [add_posting s_df s_postings].
  split; [|split].
  - rewrite !keys_dict_set.
    rewrite (dict_mem_same_keys tok0 (s_df st) (s_postings st) Hkeys).
    destruct (dict_mem tok0 (s_postings st)); congruence.
  - now apply NoDup_dict_set.
  - intros tok. cbn zeta. rewrite !dict_get_or_set.
    destruct (key_eqb tok0 tok) eqn:E.
    + apply key_eqb_spec in E. subst tok0.
      rewrite dict_set_new by exact Hnew.
      unfold keys. rewrite map_app, length_app. cbn [map fst length].
      split; [rewrite Hdf0; reflexivity|].
      split; [now apply sorted_snoc|].
      split.
      * apply Forall_app. split.
        -- eapply Forall_impl; [|exact Hlt0]. cbv beta. intros; lia.
        -- constructor; [lia | constructor].
      * intros Hin. contradiction.
    + destruct (Hall tok) as (Hdf & Hs & Hb & Hlt).
      split; [exact Hdf|]. split; [exact Hs|]. split; [exact Hb|].
      intros Hin. apply Hlt. now right.
Qed.

Lemma index_doc_shape (i : nat) (st : stats) (doc : str) :
  shape_inv i i [] st -> shape_inv (S i) (S i) [] (index_doc st (i, doc)).
Proof.
  intros (Hkeys & Hnodup & Hall). unfold index_doc.
  match goal with
  | |- shape_inv _ _ _ (fold_left _ ?l ?st1) =>
      assert (H1 : shape_inv i (S i) [] (fold_left (add_posting i) l st1))
  end.
  { apply add_postings_shape; [apply count_terms_ok|].
    split; [exact Hkeys|]. split; [exact Hnodup|].
    intros tok. cbn [s_df s_postings].
    destruct (Hall tok) as (Hdf & Hs & Hb & _).
    split; [exact Hdf|]. split; [exact Hs|]. split.
    - eapply Forall_impl; [|exact Hb]. cbv beta. intros; lia.
    - intros _. exact Hb. }
  destruct H1 as (K1 & K2 & K3).
  split; [exact K1|]. split; [exact K2|]. intros tok.
  destruct (K3 tok) as (A1 & A2 & A3 & _).
  split; [exact A1|]. split; [exact A2|]. split; [exact A3|].
  intros [].
Qed.

Lemma index_docs_shape (docs : list str) (i : nat) (st : stats) :
  shape_inv i i [] st ->
  shape_inv (i + length docs) (i + length docs) []
            (fold_left index_doc (combine (seq i (length docs)) docs) st).
Proof.
  revert i st. induction docs as [|doc docs IH]; intros i st Hinv;
    cbn [length seq combine fold_left].
  - now rewrite Nat.add_0_r.
  - rewrite <- Nat.add_succ_comm. apply IH. now apply index_doc_shape.
Qed.

Lemma index_stats_shape (norm : list str) :
  shape_inv (length norm) (length norm) [] (index_stats norm).
Proof.
  apply (index_docs_shape norm (i := 0)).
  split; [reflexivity|]. split; [constructor|].
  intros tok. cbn. repeat split; constructor.
Qed.

Lemma idf_keys (n : nat) (dfl : dict str nat) (idf0 : dict str R) :
  NoDup (keys dfl) ->
  (forall k, In k (keys dfl) -> ~ In k (keys idf0)) ->
  keys (fold_left (idf_set n) dfl idf0) = keys idf0 ++ keys dfl.
Proof.
  revert idf0. induction dfl as [|[tok0 d0] dfl IH]; intros idf0 Hnd Hnew;
    cbn [fold_left].
  - cbn. now rewrite app_nil_r.
  - change (keys ((tok0, d0) :: dfl)) with (tok0 :: keys dfl) in *.
    apply NoDup_cons_iff in Hnd as [Hnotin Hnd].
    assert (Hk : keys (idf_set n idf0 (tok0, d0)) = keys idf0 ++ [tok0]).
    { unfold idf_set. cbn [fst snd]. rewrite dict_set_new.
      - unfold keys. now rewrite map_app.
      - apply Hnew. now left. }
    rewrite IH; [rewrite Hk, <- app_assoc; reflexivity | exact Hnd |].
    intros k Hin. rewrite Hk. intros Hin'. apply in_app_or in Hin'.
    destruct Hin' as [Hin' | [<- | []]].
    + apply (Hnew k); [now right | exact Hin'].
    + contradiction.
Qed.

(** ** Document lengths *)

Lemma add_postings_doc_len (i : nat) (l : dict str nat) (st : stats) :
  s_doc_len (fold_left (add_posting i) l st) = s_doc_len st.
Proof.
  revert st. induction l as [|[tok0 f0] l IH]; intros st; cbn [fold_left];
    [reflexivity|]. now rewrite IH.
Qed.

Lemma index_docs_doc_len (docs : list (nat * str)) (st : stats) :
  s_doc_len (fold_left index_doc docs st)
  = s_doc_len st ++ map (fun e => length (split (snd e))) docs.
Proof.
  revert st. induction docs as [|[i doc] docs IH]; intros st;
    cbn [fold_left map snd].
  - now rewrite app_nil_r.
  - rewrite IH. unfold index_doc. rewrite add_postings_doc_len.
    cbn [s_doc_len]. now rewrite <- app_assoc.
Qed.

Lemma map_snd_enumerate {A B : Type} (f : A -> B) (l : list A) (i : nat) :
  map (fun e => f (snd e)) (combine (seq i (length l)) l) = map f l.
Proof.
  revert i. induction l as [|x l IH]; intros i; cbn [length seq combine map snd];
    [reflexivity|]. now rewrite IH.
Qed.

Section WithUnicode.
Context {U : UnicodeDB}.

Lemma gather_chunks_nonempty (dir : list (str * list entry)) :
  Forall (fun c => c <> []) (gather_chunks dir).
Proof.
  unfold gather_chunks. apply Forall_forall. intros c Hin.
  apply in_flat_map in Hin as (f & _ & Hin).
  destruct (endswith _ _); [|destruct Hin].
  unfold file_chunks in Hin. apply filter_In in Hin as [_ Hc].
  now destruct c.
Qed.

(** After [load_and_prepare] on a fresh object: [N] counts the chunks,
    which are the non-empty flattened records, each stored next to its
    normalised form; [doc_len] holds the number of tokens of each
    normalised chunk, in order. *)
Theorem index_holds_every_chunk (k1 b : R) (dir : list (str * list entry)) :
  exists idx,
    load_and_prepare (init k1 b) dir = Ok idx /\
    raw_chunks idx = gather_chunks dir /\
    Forall (fun c => c <> []) (raw_chunks idx) /\
    normalised_chunks idx = map normalize (raw_chunks idx) /\
    N idx = length (raw_chunks idx) /\
    doc_len idx = map (fun doc => length (split doc)) (normalised_chunks idx).
Proof.
  exists (built k1 b dir). split; [apply load_and_prepare_ok|].
  unfold built. cbn [raw_chunks normalised_chunks N doc_len].
  split; [reflexivity|]. split; [apply gather_chunks_nonempty|].
  split; [reflexivity|]. split; [apply length_map|].
  unfold index_stats, enumerate. rewrite index_docs_doc_len.
  cbn [s_doc_len app].
  exact (map_snd_enumerate (fun doc => length (split doc)) _ 0).
Qed.

(** [avgdl] is the mean of [doc_len]: [avgdl * N] is the total number of
    tokens, also on an empty corpus, where both sides are [0]. *)
Theorem avgdl_is_mean_doc_len (k1 b : R) (dir : list (str * list entry)) :
  exists idx,
    load_and_prepare (init k1 b) dir = Ok idx /\
    (avgdl idx * INR (N idx))%R = INR (list_sum (doc_len idx)) /\
    (0 <= avgdl idx)%R.
Proof.
  exists (built k1 b dir). split; [apply load_and_prepare_ok|].
  unfold built. cbn [avgdl N doc_len].
  set (norm := map normalize (gather_chunks dir)).
  assert (Hinv : stats_inv (length norm) (index_stats norm)).
  { apply (index_docs_inv norm (i := 0)). apply stats_inv_init. }
  destruct Hinv as (Hlen & Htot & _).
  destruct (Nat.eqb (length norm) 0) eqn:E.
  - apply Nat.eqb_eq in E. rewrite E in Hlen.
    apply length_zero_iff_nil in Hlen. rewrite Hlen, E. cbn. split; lra.
  - apply Nat.eqb_neq in E.
    assert (Hn : (0 < INR (length norm))%R) by (apply lt_0_INR; lia).
    rewrite <- Htot. split; [field; lra|].
    apply Rmult_le_pos; [apply pos_INR|].
    left. now apply Rinv_0_lt_compat.
Qed.

Lemma built_tf_at (k1 b : R) (dir : list (str * list entry)) (tok : str)
  (d f : nat) :
  tf_at (postings (built k1 b dir)) tok d = Some f <->
  exists doc, nth_error (normalised_chunks (built k1 b dir)) d = Some doc /\
              occurrences tok (split doc) = f /\ 1 <= f.
Proof.
  unfold built. cbn [postings normalised_chunks].
  set (norm := map normalize (gather_chunks dir)).
  unfold index_stats, enumerate. rewrite index_docs_tf.
  cbn [Nat.leb s_postings]. rewrite Nat.sub_0_r.
  change (tf_at [] tok d) with (@None nat).
  destruct (nth_error norm d) as [doc|].
  - split.
    + intros Hf. exists doc. split; [reflexivity|].
      apply count_terms_get.
      destruct (dict_get tok (count_terms (split doc))); congruence.
    + intros (doc' & [= <-] & Hocc). apply count_terms_get in Hocc.
      now rewrite Hocc.
  - split; [discriminate | intros (doc & Hd & _); discriminate].
Qed.

(** The postings are the term counts: [postings[tok][d]] is present
    exactly when [tok] occurs in the tokens of chunk [d], and then it is
    the number of its occurrences. *)
Theorem postings_hold_term_counts (k1 b : R) (dir : list (str * list entry)) :
  exists idx,
    load_and_prepare (init k1 b) dir = Ok idx /\
    forall tok d f,
      tf_at (postings idx) tok d = Some f <->
      exists doc, nth_error (normalised_chunks idx) d = Some doc /\
                  occurrences tok (split doc) = f /\ 1 <= f.
Proof.
  exists (built k1 b dir). split; [apply load_and_prepare_ok|].
  apply built_tf_at.
Qed.

(** [df], [postings] and [idf] have the same terms, in the same order (the
    order of first occurrence in the corpus); [df[tok]] is the length of
    [postings[tok]], and [postings[tok]] lists its chunks by ascending
    index, each below [N]. *)
Theorem df_counts_postings (k1 b : R) (dir : list (str * list entry)) :
  exists idx,
    load_and_prepare (init k1 b) dir = Ok idx /\
    keys (df idx) = keys (postings idx) /\
    keys (idf idx) = keys (df idx) /\
    NoDup (keys (df idx)) /\
    forall tok pl,
      dict_get tok (postings idx) = Some pl ->
      dict_get tok (df idx) = Some (length pl) /\
      StronglySorted lt (keys pl) /\
      Forall (fun d => d < N idx) (keys pl).
Proof.
  exists (built k1 b dir). split; [apply load_and_prepare_ok|].
  unfold built. cbn [df postings idf N].
  set (norm := map normalize (gather_chunks dir)).
  destruct (index_stats_shape norm) as (Hkeys & Hnodup & Hall).
  split; [exact Hkeys|].
  split; [rewrite idf_keys; [reflexivity | exact Hnodup | intros k _ []]|].
  split; [exact Hnodup|].
  intros tok pl G. destruct (Hall tok) as (Hdf & Hs & Hb & _).
  unfold dict_get_or in Hdf, Hs, Hb. unfold dict in *.
  rewrite G in Hdf, Hs, Hb.
  split; [|split; assumption].
  assert (Hm : dict_mem tok (s_df (index_stats norm)) = true).
  { rewrite (dict_mem_same_keys tok _ _ Hkeys). unfold dict_mem.
    unfold dict in *. now rewrite G. }
  unfold dict_mem in Hm.
  destruct (dict_get tok (s_df (index_stats norm))); congruence.
Qed.

End WithUnicode.

End IndexFacts.

Module NormalizeFacts.
Import BM25Preprocessor.

(** ** [str.split] *)

Lemma split_from_tokens (Q : char -> Prop) (s cur : str) :
  Forall (fun c => is_space c = false -> Q c) s ->
  Forall (fun c => is_space c = false /\ Q c) cur ->
  Forall (fun tok => tok <> [] /\
                     Forall (fun c => is_space c = false /\ Q c) tok)
         (split_from cur s).
Proof.
  revert cur. induction s as [|c s IH]; intros cur Hs Hcur; cbn [split_from].
  - destruct cur as [|x cur]; constructor; [|constructor].
    split.
    + intros E. apply (f_equal (@rev char)) in E.
      rewrite rev_involutive in E. discriminate.
    + now apply Forall_rev.
  - inversion Hs as [|? ? Hc Hs']; subst.
    destruct (is_space c) eqn:E.
    + destruct cur as [|x cur]; [now apply IH|].
      constructor; [|now apply IH]. split.
      * intros E'. apply (f_equal (@rev char)) in E'.
        rewrite rev_involutive in E'. discriminate.
      * now apply Forall_rev.
    + apply IH; [exact Hs'|]. constructor; [|exact Hcur]. now split; [|apply Hc].
Qed.

Lemma split_from_join (s cur : str) (b : bool) :
  spaced_words b s -> (b = true -> cur <> []) ->
  join [SP] (split_from cur s) = rev cur ++ s.
Proof.
  revert cur b. induction s as [|c s IH]; intros cur b Hs Hb;
    cbn [split_from spaced_words] in *.
  - rewrite app_nil_r. now destruct cur.
  - destruct (is_space c) eqn:E.
    + destruct Hs as (-> & -> & Hne & Hs).
      specialize (Hb eq_refl).
      destruct cur as [|x cur]; [congruence|].
      pose proof (IH [] false Hs) as Hj. cbn [rev app] in Hj.
      specialize (Hj ltac:(discriminate)).
      destruct (split_from [] s) as [|y l] eqn:El.
      * cbn in Hj. congruence.
      * cbn [join]. rewrite <- Hj.
        destruct l; cbn [join]; reflexivity.
    + rewrite (IH (c :: cur) true Hs) by discriminate.
      cbn [rev]. now rewrite <- app_assoc.
Qed.

(** ** The steps of [normalize] *)

Section WithUnicode.
Context {U : UnicodeDB}.

Lemma strip_punct_chars (s : str) :
  Forall (fun c => is_space c = false -> is_word c = true) (strip_punct s).
Proof.
  unfold strip_punct. apply Forall_forall. intros c Hin.
  apply in_map_iff in Hin as (x & <- & _).
  destruct (is_word x) eqn:Ew; cbn [orb]; [auto|].
  destruct (is_space x) eqn:Es; [congruence|]. cbv. discriminate.
Qed.

Lemma collapse_ws_chars (Q : char -> Prop) (s : str) (in_ws : bool) :
  Forall (fun c => is_space c = false -> Q c) s ->
  Forall (fun c => is_space c = false -> Q c) (collapse_ws in_ws s).
Proof.
  revert in_ws. induction s as [|c s IH]; intros in_ws Hs; cbn [collapse_ws];
    [constructor|].
  inversion Hs as [|? ? Hc Hs']; subst.
  destruct (is_space c) eqn:E.
  - destruct in_ws; [now apply IH|].
    constructor; [cbv; discriminate | now apply IH].
  - constructor; [intros _; now apply Hc | now apply IH].
Qed.

Lemma collapse_ws_spaced (s : str) (in_ws : bool) :
  single_spaced (negb in_ws) (collapse_ws in_ws s).
Proof.
  revert in_ws. induction s as [|c s IH]; intros in_ws;
    cbn [collapse_ws]; [exact I|].
  destruct (is_space c) eqn:E.
  - destruct in_ws; [apply (IH true)|].
    cbn [single_spaced negb]. change (is_space SP) with true. cbv iota.
    split; [reflexivity|]. split; [reflexivity|]. apply (IH true).
  - cbn [single_spaced]. rewrite E. apply (IH false).
Qed.

End WithUnicode.

(** ** [strip] on single-spaced text *)

Lemma single_spaced_weaken (b : bool) (s : str) :
  single_spaced b s -> single_spaced true s.
Proof.
  destruct s as [|c s]; cbn [single_spaced]; [auto|].
  destruct (is_space c); [|auto]. intros (H1 & _ & H3). now repeat split.
Qed.

Lemma lstrip_single_spaced (b : bool) (s : str) :
  single_spaced b s -> single_spaced false (lstrip_by is_space s).
Proof.
  destruct s as [|c s]; cbn [single_spaced lstrip_by]; [auto|].
  destruct (is_space c) eqn:E.
  - intros (_ & _ & Hs). destruct s as [|d s]; cbn [lstrip_by]; [exact I|].
    cbn [single_spaced] in Hs. destruct (is_space d) eqn:Ed.
    + destruct Hs as (_ & Hf & _). discriminate.
    + cbn [single_spaced]. now rewrite Ed.
  - intros Hs. cbn [single_spaced]. now rewrite E.
Qed.

Lemma lstrip_by_head (p : char -> bool) (s : str) (c : char) (r : str) :
  lstrip_by p s = c :: r -> p c = false.
Proof.
  induction s as [|x s IH]; cbn [lstrip_by]; [discriminate|].
  destruct (p x) eqn:E; [exact IH|]. now intros [= <- _].
Qed.

Lemma rstrip_by_last (p : char -> bool) (s v : str) (c : char) :
  rstrip_by p s = v ++ [c] -> p c = false.
Proof.
  unfold rstrip_by. intros E. apply (f_equal (@rev char)) in E.
  rewrite rev_involutive, rev_app_distr in E. cbn [rev app] in E.
  exact (lstrip_by_head _ _ E).
Qed.

Lemma spaced_words_prefix (v w : str) (b : bool) :
  single_spaced b (v ++ w) ->
  (forall v' c, v = v' ++ [c] -> is_space c = false) ->
  spaced_words b v.
Proof.
  revert b. induction v as [|c v IH]; intros b Hs Hlast;
    cbn [app single_spaced spaced_words] in *; [exact I|].
  assert (Hlast' : forall v' c0, v = v' ++ [c0] -> is_space c0 = false).
  { intros v' c0 ->. apply (Hlast (c :: v')). reflexivity. }
  destruct (is_space c) eqn:E.
  - destruct Hs as (H1 & H2 & H3). split; [exact H1|]. split; [exact H2|].
    split; [|now apply IH].
    intros ->. specialize (Hlast [] c eq_refl). congruence.
  - now apply IH.
Qed.

Lemma strip_spaced_words (b : bool) (s : str) :
  single_spaced b s -> spaced_words false (strip s).
Proof.
  intros Hs. apply lstrip_single_spaced in Hs. unfold strip.
  destruct (rstrip_by_prefix is_space (lstrip_by is_space s)) as (w & Hw & _).
  apply (@spaced_words_prefix _ w).
  - now rewrite <- Hw.
  - intros v' c. apply rstrip_by_last.
Qed.

Lemma strip_chars (Q : char -> Prop) (s : str) :
  Forall Q s -> Forall Q (strip s).
Proof.
  intros Hs. unfold strip.
  destruct (lstrip_by_suffix is_space s) as (w1 & Hw1 & _).
  destruct (rstrip_by_prefix is_space (lstrip_by is_space s)) as (w2 & Hw2 & _).
  rewrite Hw1, Hw2 in Hs.
  apply Forall_app in Hs as [_ Hs]. now apply Forall_app in Hs as [Hs _].
Qed.

Section Normalize.
Context {U : UnicodeDB}.

(** The tokens of a normalised text are non-empty runs of word characters,
    and the normalised text is these tokens separated by single spaces:
    it has no other whitespace, and none at its ends. *)
Theorem normalize_gives_word_tokens (text : str) :
  Forall (fun tok => tok <> [] /\
                     Forall (fun c => is_space c = false /\ is_word c = true)
                            tok)
         (split (normalize text)) /\
  join [SP] (split (normalize text)) = normalize text.
Proof.
  unfold normalize. split.
  - apply (split_from_tokens (fun c => is_word c = true)); [|constructor].
    apply strip_chars. apply collapse_ws_chars. apply strip_punct_chars.
  - unfold split. rewrite (@split_from_join _ [] false); [reflexivity| |discriminate].
    apply (@strip_spaced_words (negb false)). apply collapse_ws_spaced.
Qed.

End Normalize.

End NormalizeFacts.

Module ScoringFacts.
Import BM25Preprocessor.
Import BM25Facts.
Import IndexFacts.

Lemma NoDup_firstn {A : Type} (n : nat) (l : list A) :
  NoDup l -> NoDup (firstn n l).
Proof.
  intros Hnd. rewrite <- (firstn_skipn n l) in Hnd.
  now apply NoDup_app_remove_r in Hnd.
Qed.

Lemma NoDup_py_take {A : Type} (k : Z) (l : list A) :
  NoDup l -> NoDup (py_take k l).
Proof. unfold py_take. destruct (k <? 0)%Z; apply NoDup_firstn. Qed.

Lemma py_take_map {A B : Type} (f : A -> B) (k : Z) (l : list A) :
  map f (py_take k l) = py_take k (map f l).
Proof.
  unfold py_take. rewrite length_map.
  destruct (k <? 0)%Z; symmetry; apply firstn_map.
Qed.

(** A score is there only when some query token contributed it. *)
Lemma score_of_contribution (self : t) (candidate_ids : list Z)
  (tokens : list str) (d : nat) (acc : option R) (s : R) :
  fold_left (add_contribution self candidate_ids d) tokens acc = Some s ->
  acc = None ->
  exists tok c, In tok tokens /\
                contribution self candidate_ids tok d = Some c.
Proof.
  revert acc. induction tokens as [|tok tokens IH]; intros acc;
    cbn [fold_left].
  - congruence.
  - intros Hs Hacc. subst acc.
    destruct (contribution self candidate_ids tok d) as [c|] eqn:E.
    + exists tok, c. split; [now left | exact E].
    + unfold add_contribution in Hs at 2. rewrite E in Hs.
      destruct (IH _ Hs eq_refl) as (tok' & c & Hin & Hc).
      exists tok', c. split; [now right | exact Hc].
Qed.

Lemma contribution_in_range (self : t) (Hwf : wf self)
  (candidate_ids : list Z) (tok : str) (d : nat) (c : R) :
  contribution self candidate_ids tok d = Some c -> d < N self.
Proof.
  unfold contribution.
  destruct (dict_get tok (postings self)) as [plist|] eqn:G; [|discriminate].
  destruct (dict_get d plist) as [f|] eqn:Gd; [|discriminate].
  intros _. apply dict_get_In in Gd.
  exact (proj2 (proj2 (@posting_avgdl _ Hwf tok plist d f G Gd))).
Qed.

Lemma scores_no_candidates (self : t) (Hwf : wf self) (tokens : list str) :
  fold_left (score_token_pure self []) tokens [] = [].
Proof.
  destruct (fold_left (score_token_pure self []) tokens [])
    as [|[d s] rest] eqn:E; [reflexivity|].
  assert (G : dict_get d (fold_left (score_token_pure self []) tokens [])
              = Some s).
  { rewrite E. cbn [dict_get key_eqb nat_key]. now rewrite Nat.eqb_refl. }
  rewrite (score_tokens_get Hwf) in G.
  apply score_of_candidate in G; [|reflexivity]. discriminate.
Qed.

Section OnBuiltIndex.
Context {U : UnicodeDB}.
Variables (k1 b : R) (dir : list (str * list entry)).
Hypothesis Hk1 : (0 <= k1)%R.
Hypothesis Hb : (0 <= b <= 1)%R.

Lemma ranked_in_range (query : str) (candidate_ids : list Z) (top_k : Z)
  (d : nat) (s : R) :
  In (d, s)
     (py_take top_k
        (sorted_desc
           (fold_left (score_token_pure (built k1 b dir) candidate_ids)
                      (split (normalize query)) []))) ->
  d < N (built k1 b dir) /\
  exists chunk, list_at (raw_chunks (built k1 b dir)) d = Ok chunk.
Proof.
  intros Hin. apply ranked_score_of in Hin.
  apply score_of_contribution in Hin as (tok & c & _ & Hc); [|reflexivity].
  apply (contribution_in_range (built_wf k1 b dir)) in Hc.
  split; [exact Hc|].
  unfold built in Hc |- *. cbn [N raw_chunks] in *.
  rewrite length_map in Hc. unfold list_at.
  destruct (nth_error (gather_chunks dir) d) as [chunk|] eqn:E.
  - now exists chunk.
  - apply nth_error_None in E. lia.
Qed.

(** [score_subset] on a built index names every chunk at most once, and
    every chunk it names exists: [doc_id < N], so that
    [raw_chunks[doc_id]] is there. *)
Theorem score_subset_ids_distinct_in_range (query : str)
  (candidate_ids : list Z) (top_k : Z) :
  exists idx ranked,
    load_and_prepare (init k1 b) dir = Ok idx /\
    score_subset idx query candidate_ids top_k = Ok ranked /\
    NoDup (map fst ranked) /\
    forall d s, In (d, s) ranked ->
      d < N idx /\ exists chunk, list_at (raw_chunks idx) d = Ok chunk.
Proof.
  exists (built k1 b dir). eexists.
  split; [apply load_and_prepare_ok|].
  split; [now apply score_subset_built|].
  split.
  - rewrite py_take_map. apply NoDup_py_take.
    apply (Permutation_NoDup
             (Permutation_sym (Permutation_map fst (sorted_desc_perm _)))).
    apply (@score_tokens_nodup (built k1 b dir)). constructor.
  - intros d s. apply ranked_in_range.
Qed.

(** With no candidate, or with a query that has no token (empty, or
    whitespace and punctuation only), [score_subset] returns the empty
    list. *)
Theorem score_subset_nothing_to_score (query : str) (candidate_ids : list Z)
  (top_k : Z) :
  candidate_ids = [] \/ split (normalize query) = [] ->
  exists idx,
    load_and_prepare (init k1 b) dir = Ok idx /\
    score_subset idx query candidate_ids top_k = Ok [].
Proof.
  intros Hnone. exists (built k1 b dir).
  split; [apply load_and_prepare_ok|].
  rewrite score_subset_built by assumption.
  assert (E : fold_left (score_token_pure (built k1 b dir) candidate_ids)
                        (split (normalize query)) [] = []).
  { destruct Hnone as [-> | ->]; [|reflexivity].
    apply scores_no_candidates, built_wf. }
  rewrite E. cbn [sorted_desc fold_right]. unfold py_take.
  destruct (top_k <? 0)%Z; now rewrite firstn_nil.
Qed.

Lemma score_of_monotone (self : t) (candidate_ids : list Z)
  (tokens : list str) (d : nat) (a : R) :
  exists s,
    fold_left (add_contribution self candidate_ids d) tokens (Some a) = Some s.
Proof.
  revert a. induction tokens as [|tok tokens IH]; intros a; cbn [fold_left].
  - now exists a.
  - unfold add_contribution at 2.
    destruct (contribution self candidate_ids tok d); apply IH.
Qed.

Lemma score_of_some (self : t) (candidate_ids : list Z) (tokens : list str)
  (d : nat) (acc : option R) (tok : str) (c : R) :
  In tok tokens -> contribution self candidate_ids tok d = Some c ->
  exists s,
    fold_left (add_contribution self candidate_ids d) tokens acc = Some s.
Proof.
  revert acc. induction tokens as [|tok0 tokens IH]; intros acc Hin Hc;
    [destruct Hin|]. cbn [fold_left].
  destruct Hin as [-> | Hin].
  - unfold add_contribution at 2. rewrite Hc. apply score_of_monotone.
  - now apply IH.
Qed.

Lemma contribution_iff (self : t) (candidate_ids : list Z) (tok : str)
  (d : nat) :
  (exists c, contribution self candidate_ids tok d = Some c) <->
  (exists f, tf_at (postings self) tok d = Some f) /\
  in_candidates candidate_ids d = true.
Proof.
  unfold contribution, tf_at.
  destruct (dict_get tok (postings self)) as [plist|].
  - destruct (dict_get d plist) as [f|].
    + destruct (in_candidates candidate_ids d); split.
      * intros _. split; [now exists f | reflexivity].
      * intros _. now eexists.
      * intros [c Hc]. discriminate.
      * intros [_ Hc]. discriminate.
    + split; [intros [c Hc]; discriminate | intros [[f Hf] _]; discriminate].
  - split; [intros [c Hc]; discriminate | intros [[f Hf] _]; discriminate].
Qed.

Lemma scores_length (query : str) (candidate_ids : list Z) :
  length (fold_left (score_token_pure (built k1 b dir) candidate_ids)
                    (split (normalize query)) [])
  <= N (built k1 b dir).
Proof.
  set (scores := fold_left _ _ _).
  assert (Hnd : NoDup (keys scores)).
  { apply (@score_tokens_nodup (built k1 b dir)). constructor. }
  assert (Hincl : incl (keys scores) (seq 0 (N (built k1 b dir)))).
  { intros d Hd. apply in_seq. split; [lia|]. cbn [plus].
    apply dict_mem_true in Hd. unfold dict_mem in Hd.
    destruct (dict_get d scores) as [s|] eqn:G; [|discriminate].
    unfold scores in G. rewrite (score_tokens_get (built_wf k1 b dir)) in G.
    apply score_of_contribution in G as (tok & c & _ & Hc); [|reflexivity].
    exact (contribution_in_range (built_wf k1 b dir) _ _ _ Hc). }
  pose proof (NoDup_incl_length Hnd Hincl) as Hlen.
  unfold keys in Hlen. rewrite length_map, length_seq in Hlen. exact Hlen.
Qed.

(** With [top_k] at least the number of chunks, [score_subset] returns
    exactly the candidates that share a token with the query: a chunk is
    in the result if and only if its index is among [candidate_ids] and
    some token of the normalised query is a token of the normalised
    chunk. *)
Theorem score_subset_returns_matching_candidates (idx : t) (query : str)
  (candidate_ids : list Z) (top_k : Z) :
  load_and_prepare (init k1 b) dir = Ok idx ->
  (Z.of_nat (N idx) <= top_k)%Z ->
  exists ranked,
    score_subset idx query candidate_ids top_k = Ok ranked /\
    forall d,
      In d (map fst ranked) <->
      In (Z.of_nat d) candidate_ids /\
      exists doc tok,
        nth_error (normalised_chunks idx) d = Some doc /\
        In tok (split (normalize query)) /\
        In tok (split doc).
Proof.
  intros Hload Hk. rewrite load_and_prepare_ok in Hload.
  injection Hload as <-. eexists.
  split; [now apply score_subset_built|].
  set (scores := fold_left _ _ _).
  assert (Htake : py_take top_k (sorted_desc scores) = sorted_desc scores).
  { rewrite py_take_nonneg by lia. apply firstn_all2.
    rewrite (Permutation_length (sorted_desc_perm scores)).
    pose proof (scores_length query candidate_ids). fold scores in H. lia. }
  rewrite Htake. intros d.
  assert (Hkeys : In d (map fst (sorted_desc scores)) <->
                  exists s, dict_get d scores = Some s).
  { split.
    - intros Hin.
      apply (Permutation_in _ (Permutation_map fst (sorted_desc_perm scores)))
        in Hin.
      apply dict_mem_true in Hin. unfold dict_mem in Hin.
      destruct (dict_get d scores) as [s|]; [now exists s | discriminate].
    - intros [s Hs]. apply dict_get_In in Hs.
      apply (Permutation_in _ (Permutation_sym
               (Permutation_map fst (sorted_desc_perm scores)))).
      apply in_map_iff. now exists (d, s). }
  rewrite Hkeys. unfold scores.
  rewrite (score_tokens_get (built_wf k1 b dir)). cbn [dict_get].
  split.
  - intros [s Hs].
    apply score_of_contribution in Hs as (tok & c & Hin & Hc); [|reflexivity].
    assert (Hex : exists c, contribution (built k1 b dir) candidate_ids tok d
                            = Some c) by now exists c.
    apply contribution_iff in Hex as [[f Hf] Hcand].
    apply in_candidates_iff in Hcand. split; [exact Hcand|].
    apply built_tf_at in Hf as (doc & Hdoc & Hocc & Hf1).
    exists doc, tok. split; [exact Hdoc|]. split; [exact Hin|].
    apply (count_occ_In (list_eq_dec N.eq_dec)).
    unfold occurrences in Hocc. lia.
  - intros (Hcand & doc & tok & Hdoc & Hin & Htok).
    apply (count_occ_In (list_eq_dec N.eq_dec)) in Htok.
    assert (Hex : exists c, contribution (built k1 b dir) candidate_ids tok d
                            = Some c).
    { apply contribution_iff. split.
      - exists (occurrences tok (split doc)). apply built_tf_at.
        exists doc. split; [exact Hdoc|]. split; [reflexivity|].
        unfold occurrences. lia.
      - now apply in_candidates_iff. }
    destruct Hex as [c Hc].
    exact (@score_of_some _ _ _ _ None _ _ Hin Hc).
Qed.

End OnBuiltIndex.

(** Asking for fewer results gives a prefix of the longer answer: for
    [0 <= k <= k'], the result for [top_k = k] is the first [k] pairs of
    the result for [top_k = k']. *)
Theorem score_subset_top_k_prefix {U : UnicodeDB} (self : t) (query : str)
  (candidate_ids : list Z) (k k' : Z) (ranked' : list (nat * R)) :
  (0 <= k <= k')%Z ->
  score_subset self query candidate_ids k' = Ok ranked' ->
  score_subset self query candidate_ids k
  = Ok (firstn (Z.to_nat k) ranked').
Proof.
  intros Hk. unfold score_subset.
  destruct (accumulate self query candidate_ids) as [scores|e];
    cbn [bind]; [|discriminate].
  intros [= <-]. rewrite !py_take_nonneg by lia.
  rewrite firstn_firstn. do 2 f_equal. lia.
Qed.

(** ** The formula *)

Lemma ln_le_compat (x y : R) : (0 < x)%R -> (x <= y)%R -> (ln x <= ln y)%R.
Proof.
  intros Hx [Hlt | ->]; [|lra]. left. now apply ln_increasing.
Qed.

Lemma idf_value_antitone (n d1 d2 : nat) :
  d1 <= d2 -> d2 <= n -> (idf_value n d2 <= idf_value n d1)%R.
Proof.
  intros H12 H2n. unfold idf_value.
  pose proof (pos_INR d1) as P1. pose proof (pos_INR d2) as P2.
  pose proof (le_INR _ _ H12) as L12. pose proof (le_INR _ _ H2n) as L2n.
  apply ln_le_compat.
  - pose proof (idf_arg_gt_1 H2n). lra.
  - apply Rplus_le_compat_r.
    apply Rle_trans with ((INR n - INR d2 + 0.5) / (INR d1 + 0.5))%R.
    + unfold Rdiv. apply Rmult_le_compat_l; [lra|].
      apply Rinv_le_contravar; lra.
    + unfold Rdiv. apply Rmult_le_compat_r; [|lra].
      left. apply Rinv_0_lt_compat. lra.
Qed.

Lemma idf_fold_get (n : nat) (dfl : dict str nat) (idf0 : dict str R)
  (tok : str) :
  NoDup (keys dfl) ->
  dict_get tok (fold_left (idf_set n) dfl idf0)
  = match dict_get tok dfl with
    | Some d => Some (idf_value n d)
    | None => dict_get tok idf0
    end.
Proof.
  revert idf0. induction dfl as [|[tok0 d0] dfl IH]; intros idf0 Hnd;
    cbn [fold_left]; [reflexivity|].
  change (keys ((tok0, d0) :: dfl)) with (tok0 :: keys dfl) in Hnd.
  apply NoDup_cons_iff in Hnd as [Hnotin Hnd].
  rewrite (IH _ Hnd). cbn [dict_get]. unfold idf_set. cbn [fst snd].
  rewrite dict_get_set.
  destruct (key_eqb tok0 tok) eqn:E; [|reflexivity].
  apply key_eqb_spec in E. subst tok0.
  apply dict_get_None in Hnotin. now rewrite Hnotin.
Qed.


Section Weights.
Context {U : UnicodeDB}.

(** Rarer terms weigh more: of two terms of the index, the one found in
    fewer chunks (or as many) has the larger inverse document frequency
    (or the same). *)
Theorem rarer_terms_weigh_more (k1 b : R) (dir : list (str * list entry)) :
  exists idx,
    load_and_prepare (init k1 b) dir = Ok idx /\
    forall tok1 tok2 n1 n2,
      dict_get tok1 (df idx) = Some n1 ->
      dict_get tok2 (df idx) = Some n2 ->
      n1 <= n2 ->
      exists v1 v2,
        dict_get tok1 (idf idx) = Some v1 /\
        dict_get tok2 (idf idx) = Some v2 /\
        (v2 <= v1)%R.
Proof.
  exists (built k1 b dir). split; [apply load_and_prepare_ok|].
  unfold built. cbn [df idf].
  set (norm := map normalize (gather_chunks dir)).
  destruct (index_stats_shape norm) as (_ & Hnodup & _).
  assert (Hinv : stats_inv (length norm) (index_stats norm)).
  { apply (index_docs_inv norm (i := 0)). apply stats_inv_init. }
  destruct Hinv as (_ & _ & Hdf & _).
  intros tok1 tok2 n1 n2 G1 G2 Hle.
  exists (idf_value (length norm) n1), (idf_value (length norm) n2).
  rewrite !idf_fold_get by exact Hnodup. rewrite G1, G2.
  split; [reflexivity|]. split; [reflexivity|].
  apply idf_value_antitone; [exact Hle|].
  apply dict_get_In in G2. exact (proj2 (Hdf _ _ G2)).
Qed.

(** Length normalisation: for a term of a built index, with [k1 >= 0] and
    [0 <= b <= 1], the contribution of a term that occurs [tf] times does
    not grow with the length of the chunk. *)
Theorem longer_chunk_scores_lower (k1 b : R) (dir : list (str * list entry))
  (idx : t) (tok : str) (tf dl1 dl2 : nat) :
  (0 <= k1)%R -> (0 <= b <= 1)%R ->
  load_and_prepare (init k1 b) dir = Ok idx ->
  dict_mem tok (postings idx) = true ->
  1 <= tf -> dl1 <= dl2 ->
  (term_score k1 b (avgdl idx) (dict_get_or tok 0 (idf idx)) tf dl2
   <= term_score k1 b (avgdl idx) (dict_get_or tok 0 (idf idx)) tf dl1)%R.
Proof.
  intros Hk Hb Hload Hm Htf Hdl.
  rewrite load_and_prepare_ok in Hload. injection Hload as <-.
  pose proof (built_wf k1 b dir) as Hwf.
  assert (Havg : (0 < avgdl (built k1 b dir))%R).
  { destruct (posting_nonempty Hwf _ Hm) as (plist & d & f & G & Hin).
    exact (proj1 (@posting_avgdl _ Hwf tok plist d f G Hin)). }
  pose proof (idf_of_posting_pos Hwf _ Hm) as Hidf.
  unfold term_score.
  set (a := avgdl (built k1 b dir)) in *.
  set (w := dict_get_or tok 0%R (idf (built k1 b dir))) in *.
  pose proof (@denom_pos k1 b a tf dl1 Hk Hb Havg Htf) as D1.
  pose proof (le_INR _ _ Hdl) as L.
  pose proof (lt_0_INR tf Htf) as Ptf.
  assert (Hinv : (0 < / a)%R) by now apply Rinv_0_lt_compat.
  assert (D12 : (INR tf + k1 * (1 - b + b * INR dl1 / a)
                 <= INR tf + k1 * (1 - b + b * INR dl2 / a))%R).
  { apply Rplus_le_compat_l. apply Rmult_le_compat_l; [exact Hk|].
    apply Rplus_le_compat_l. unfold Rdiv.
    apply Rmult_le_compat_r; [lra|].
    apply Rmult_le_compat_l; lra. }
  unfold Rdiv at 1 3. apply Rmult_le_compat_l.
  - apply Rmult_le_pos; [|lra]. apply Rmult_le_pos; lra.
  - apply Rinv_le_contravar; lra.
Qed.

End Weights.

Lemma score_subset_ids_distinct_in_range_witness :
  (0 <= 3 / 2)%R /\ (0 <= 3 / 4 <= 1)%R /\
  exists idx ranked,
    load_and_prepare (U := ascii_db) (init (3 / 2) (3 / 4)) example_dir
      = Ok idx /\
    score_subset (U := ascii_db) idx (lit "redundancy pay") [0; 1; 2]%Z 2
      = Ok ranked /\
    NoDup (map fst ranked).
Proof.
  split; [exact example_k1|]. split; [exact example_b|].
  destruct (@score_subset_ids_distinct_in_range ascii_db (3 / 2) (3 / 4)
              example_dir example_k1 example_b (lit "redundancy pay")
              [0; 1; 2]%Z 2) as (idx & ranked & H1 & H2 & H3 & _).
  exists idx, ranked. split; [exact H1|]. split; [exact H2 | exact H3].
Defined.

Lemma score_subset_nothing_to_score_witness :
  (0 <= 3 / 2)%R /\ (0 <= 3 / 4 <= 1)%R /\
  (@nil Z = [] \/
   split (normalize (U := ascii_db) (lit "redundancy pay")) = []) /\
  exists idx,
    load_and_prepare (U := ascii_db) (init (3 / 2) (3 / 4)) example_dir
      = Ok idx /\
    score_subset (U := ascii_db) idx (lit "redundancy pay") [] 3 = Ok [].
Proof.
  assert (H : @nil Z = [] \/
              split (normalize (U := ascii_db) (lit "redundancy pay")) = [])
    by (left; reflexivity).
  split; [exact example_k1|]. split; [exact example_b|]. split; [exact H|].
  exact (@score_subset_nothing_to_score ascii_db (3 / 2) (3 / 4) example_dir
           example_k1 example_b (lit "redundancy pay") [] 3 H).
Defined.

Lemma score_subset_returns_matching_candidates_witness :
  (0 <= 3 / 2)%R /\ (0 <= 3 / 4 <= 1)%R /\
  load_and_prepare (U := ascii_db) (init (3 / 2) (3 / 4)) example_dir
    = Ok example_index /\
  (Z.of_nat (N example_index) <= 3)%Z /\
  exists ranked,
    score_subset (U := ascii_db) example_index (lit "redundancy pay")
                 [0; 1; 2]%Z 3 = Ok ranked /\
    (In 1 (map fst ranked) <->
     In (Z.of_nat 1) [0; 1; 2]%Z /\
     exists doc tok,
       nth_error (normalised_chunks example_index) 1 = Some doc /\
       In tok (split (normalize (U := ascii_db) (lit "redundancy pay"))) /\
       In tok (split doc)).
Proof.
  assert (Hload : load_and_prepare (U := ascii_db) (init (3 / 2) (3 / 4))
                    example_dir = Ok example_index)
    by apply load_and_prepare_ok.
  assert (Hk : (Z.of_nat (N example_index) <= 3)%Z)
    by (vm_compute; discriminate).
  split; [exact example_k1|]. split; [exact example_b|].
  split; [exact Hload|]. split; [exact Hk|].
  destruct (@score_subset_returns_matching_candidates ascii_db (3 / 2) (3 / 4)
              example_dir example_k1 example_b example_index
              (lit "redundancy pay") [0; 1; 2]%Z 3 Hload Hk)
    as (ranked & Hs & Hiff).
  exists ranked. split; [exact Hs | exact (Hiff 1)].
Defined.

Lemma score_subset_top_k_prefix_witness :
  (0 <= 1 <= 2)%Z /\
  exists ranked',
    score_subset (U := ascii_db) example_index (lit "redundancy pay")
                 [0; 1; 2]%Z 2 = Ok ranked' /\
    score_subset (U := ascii_db) example_index (lit "redundancy pay")
                 [0; 1; 2]%Z 1 = Ok (firstn (Z.to_nat 1) ranked').
Proof.
  assert (Hk : (0 <= 1 <= 2)%Z) by (split; discriminate).
  split; [exact Hk|].
  eexists.
  assert (H2 : score_subset (U := ascii_db) example_index
                 (lit "redundancy pay") [0; 1; 2]%Z 2 = Ok _)
    by (unfold example_index;
        exact (@score_subset_built ascii_db _ _ example_dir example_k1
                 example_b (lit "redundancy pay") [0; 1; 2]%Z 2)).
  split; [exact H2|].
  exact (@score_subset_top_k_prefix ascii_db example_index
           (lit "redundancy pay") [0; 1; 2]%Z 1 2 _ Hk H2).
Defined.

Lemma longer_chunk_scores_lower_witness :
  (0 <= 3 / 2)%R /\ (0 <= 3 / 4 <= 1)%R /\
  load_and_prepare (U := ascii_db) (init (3 / 2) (3 / 4)) example_dir
    = Ok example_index /\
  dict_mem (lit "redundancy") (postings example_index) = true /\
  (term_score (3 / 2) (3 / 4) (avgdl example_index)
     (dict_get_or (lit "redundancy") 0 (idf example_index)) 1 8
   <= term_score (3 / 2) (3 / 4) (avgdl example_index)
        (dict_get_or (lit "redundancy") 0 (idf example_index)) 1 6)%R.
Proof.
  assert (Hload : load_and_prepare (U := ascii_db) (init (3 / 2) (3 / 4))
                    example_dir = Ok example_index)
    by apply load_and_prepare_ok.
  assert (Hm : dict_mem (lit "redundancy") (postings example_index) = true)
    by reflexivity.
  split; [exact example_k1|]. split; [exact example_b|].
  split; [exact Hload|]. split; [exact Hm|].
  exact (@longer_chunk_scores_lower ascii_db (3 / 2) (3 / 4) example_dir
           example_index (lit "redundancy") 1 6 8 example_k1 example_b
           Hload Hm (le_n 1) (le_S 6 7 (le_S 6 6 (le_n 6)))).
Defined.

End ScoringFacts.

Module FlattenFacts.

(** Induction over list items, with the nested items at hand. *)
Lemma item_nested_ind (P : item -> Prop) :
  (forall text nested, Forall P nested -> P (Item text nested)) ->
  forall it, P it.
Proof.
  intros H. fix IH 1. intros [text nested]. apply H.
  induction nested as [|x nested IHn]; constructor; [apply IH | exact IHn].
Qed.

(** ** Lines are only ever appended *)

Lemma bm25_process_item_app (it : item) :
  forall depth h l,
    BM25Preprocessor.process_item depth it (h ++ l)
    = h ++ BM25Preprocessor.process_item depth it l.
Proof.
  induction it as [text nested IH] using item_nested_ind.
  intros depth h l. rewrite !bm25_process_item_eq.
  unfold BM25Preprocessor.process_list.
  set (line := match depth with O => _ | S _ => _ end).
  rewrite <- app_assoc. generalize (l ++ [line]). clear line.
  induction IH as [|x nested Hx _ IHn]; intros acc; cbn [fold_left];
    [reflexivity|].
  now rewrite Hx, IHn.
Qed.

Lemma bm25_process_list_app (items : list item) (depth : nat)
  (h l : list str) :
  BM25Preprocessor.process_list items depth (h ++ l)
  = h ++ BM25Preprocessor.process_list items depth l.
Proof.
  unfold BM25Preprocessor.process_list. revert l.
  induction items as [|x items IH]; intros l; cbn [fold_left]; [reflexivity|].
  now rewrite bm25_process_item_app, IH.
Qed.

Lemma bm25_block_lines_app (blk : block) (h l : list str) :
  BM25Preprocessor.block_lines (h ++ l) blk
  = h ++ BM25Preprocessor.block_lines l blk.
Proof.
  unfold BM25Preprocessor.block_lines.
  destruct (strip (btext blk)); [|rewrite <- app_assoc];
    apply bm25_process_list_app.
Qed.

Lemma bm25_blocks_app (blocks : list block) (h l : list str) :
  fold_left BM25Preprocessor.block_lines blocks (h ++ l)
  = h ++ fold_left BM25Preprocessor.block_lines blocks l.
Proof.
  revert l. induction blocks as [|blk blocks IH]; intros l; cbn [fold_left];
    [reflexivity|].
  now rewrite bm25_block_lines_app, IH.
Qed.

(** ** Line by line, the flatteners differ by the list marker *)

Lemma same_line_process_item (it : item) :
  forall depth l1 l2,
    Forall2 same_line l1 l2 ->
    Forall2 same_line (BM25Preprocessor.process_item depth it l1)
                      (LegalKnowledgeIndexer.process_item depth it l2).
Proof.
  induction it as [text nested IH] using item_nested_ind.
  intros depth l1 l2 H12.
  rewrite bm25_process_item_eq, lki_process_item_eq.
  unfold BM25Preprocessor.process_list, LegalKnowledgeIndexer.process_list.
  match goal with
  | |- Forall2 _ (fold_left _ _ (_ ++ [?a])) (fold_left _ _ (_ ++ [?b])) =>
      assert (Hacc : Forall2 same_line (l1 ++ [a]) (l2 ++ [b]))
  end.
  { apply Forall2_app; [exact H12|]. constructor; [|constructor].
    destruct depth as [|depth]; [now left|].
    right. do 2 eexists. split; reflexivity. }
  revert Hacc. generalize (l1 ++ [match depth with
                                 | O => strip text
                                 | S _ => spaces (depth * 8) ++ lit "* "
                                          ++ strip (lstrip_chars [BULLET; SP]
                                                      (strip text))
                                 end]).
  generalize (l2 ++ [match depth with
                     | O => strip text
                     | S _ => spaces (depth * 8) ++ lit "- "
                              ++ strip (lstrip_chars [BULLET; SP]
                                          (strip text))
                     end]).
  induction IH as [|x nested Hx _ IHn]; intros a2 a1 Hacc; cbn [fold_left];
    [exact Hacc|].
  apply IHn. now apply Hx.
Qed.

Lemma same_line_process_list (items : list item) (depth : nat)
  (l1 l2 : list str) :
  Forall2 same_line l1 l2 ->
  Forall2 same_line (BM25Preprocessor.process_list items depth l1)
                    (LegalKnowledgeIndexer.process_list items depth l2).
Proof.
  unfold BM25Preprocessor.process_list, LegalKnowledgeIndexer.process_list.
  revert l1 l2. induction items as [|x items IH]; intros l1 l2 H12;
    cbn [fold_left]; [exact H12|].
  apply IH. now apply same_line_process_item.
Qed.

Lemma same_line_block_lines (blk : block) (l1 l2 : list str) :
  Forall2 same_line l1 l2 ->
  Forall2 same_line (BM25Preprocessor.block_lines l1 blk)
                    (LegalKnowledgeIndexer.block_lines l2 blk).
Proof.
  intros H12.
  unfold BM25Preprocessor.block_lines, LegalKnowledgeIndexer.block_lines.
  apply same_line_process_list.
  destruct (strip (btext blk)) as [|c s]; [exact H12|].
  apply Forall2_app; [exact H12|]. constructor; [now left | constructor].
Qed.

Lemma same_line_blocks (blocks : list block) (l1 l2 : list str) :
  Forall2 same_line l1 l2 ->
  Forall2 same_line (fold_left BM25Preprocessor.block_lines blocks l1)
                    (fold_left LegalKnowledgeIndexer.block_lines blocks l2).
Proof.
  revert l1 l2. induction blocks as [|blk blocks IH]; intros l1 l2 H12;
    cbn [fold_left]; [exact H12|].
  apply IH. now apply same_line_block_lines.
Qed.

Lemma flatten_lines_related (e : entry) :
  exists body,
    BM25Preprocessor.flatten_lines e
    = BM25Preprocessor.heading_lines e ++ body /\
    Forall2 same_line body (LegalKnowledgeIndexer.flatten_lines e).
Proof.
  exists (fold_left BM25Preprocessor.block_lines (content e) []). split.
  - unfold BM25Preprocessor.flatten_lines.
    rewrite <- (app_nil_r (BM25Preprocessor.heading_lines e)) at 1.
    apply bm25_blocks_app.
  - apply same_line_blocks. constructor.
Qed.

(** The lines of a record in the lexical index are its heading lines
    followed by its lines in the semantic index (before the blank lines go
    in), nested list items carrying the marker [* ] instead of [- ]. *)
Theorem flatteners_agree_up_to_marker (e : entry) :
  exists body,
    BM25Preprocessor.flatten_lines e
    = BM25Preprocessor.heading_lines e ++ body /\
    Forall2 same_line body (LegalKnowledgeIndexer.flatten_lines e).
Proof.
  exists (fold_left BM25Preprocessor.block_lines (content e) []). split.
  - unfold BM25Preprocessor.flatten_lines.
    rewrite <- (app_nil_r (BM25Preprocessor.heading_lines e)) at 1.
    apply bm25_blocks_app.
  - apply same_line_blocks. constructor.
Qed.

(** ** Which records become chunks *)

Lemma join_nil (sep : str) (l : list str) :
  sep <> [] -> join sep l = [] -> l = [] \/ l = [[]].
Proof.
  intros Hsep. destruct l as [|x [|y l]]; cbn [join].
  - now left.
  - intros ->. now right.
  - intros E. apply app_eq_nil in E as [_ E].
    apply app_eq_nil in E as [E _]. contradiction.
Qed.

Lemma separate_short (l : list str) :
  l = [] \/ l = [[]] -> LegalKnowledgeIndexer.separate l = l.
Proof. intros [-> | ->]; reflexivity. Qed.

Lemma same_line_nil (x : str) : same_line [] x -> x = [].
Proof.
  intros [<- | (n & c & E & _)]; [reflexivity|].
  exfalso. symmetry in E. apply app_eq_nil in E as [_ E]. discriminate.
Qed.

Lemma heading_lines_solid (e : entry) :
  Forall (fun ln => ln <> []) (BM25Preprocessor.heading_lines e).
Proof.
  unfold BM25Preprocessor.heading_lines.
  destruct (truthy (section e)), (truthy (subsection e));
    repeat constructor; discriminate.
Qed.

Lemma lexical_chunk_of_semantic (e : entry) :
  LegalKnowledgeIndexer.flatten_content e <> [] ->
  BM25Preprocessor.flatten_content e <> [].
Proof.
  intros Hsem Hlex. apply Hsem. clear Hsem.
  unfold BM25Preprocessor.flatten_content in Hlex.
  unfold LegalKnowledgeIndexer.flatten_content.
  destruct (flatten_lines_related e) as (body & Hb & Hrel).
  rewrite Hb in Hlex. apply join_nil in Hlex; [|discriminate].
  pose proof (heading_lines_solid e) as Hh.
  assert (Hbody : body = [] \/ body = [[]]).
  { destruct (BM25Preprocessor.heading_lines e) as [|h hs]; [exact Hlex|].
    exfalso. inversion Hh as [|? ? Hne _]; subst.
    destruct Hlex as [E | E]; [discriminate|].
    injection E as -> _. now apply Hne. }
  assert (Hs : LegalKnowledgeIndexer.flatten_lines e = [] \/
               LegalKnowledgeIndexer.flatten_lines e = [[]]).
  { destruct Hbody as [-> | ->].
    - inversion Hrel. now left.
    - inversion Hrel as [|? y ? l' Hxy Hrest]; subst. inversion Hrest; subst.
      right. now rewrite (same_line_nil Hxy). }
  rewrite (separate_short Hs). destruct Hs as [-> | ->]; reflexivity.
Qed.

Lemma same_line_nil_r (x : str) : same_line x [] -> x = [].
Proof.
  intros [-> | (n & c & _ & E)]; [reflexivity|].
  exfalso. symmetry in E. apply app_eq_nil in E as [_ E]. discriminate.
Qed.

Lemma separate_nil (l : list str) :
  join [LF] (LegalKnowledgeIndexer.separate l) = [] -> l = [] \/ l = [[]].
Proof.
  intros E. apply join_nil in E; [|discriminate].
  destruct l as [|x [|y l]]; [now left | |].
  - cbn [LegalKnowledgeIndexer.separate] in E.
    destruct E as [E | E]; [discriminate | now right].
  - exfalso. cbn [LegalKnowledgeIndexer.separate] in E.
    destruct (_ || _)%bool; destruct E as [E | E]; try discriminate.
    injection E as _ E. destruct l; [discriminate|].
    destruct (_ || _)%bool; discriminate.
Qed.

(** Which records are chunks of which index: a record is a chunk of the
    lexical index exactly when it is a chunk of the semantic index or has
    a (non-empty) Section or Subsection.  So every semantic chunk has its
    lexical chunk, and the lexical index has, besides, the records that
    are headings only. *)
Theorem lexical_chunk_iff (e : entry) :
  BM25Preprocessor.flatten_content e <> [] <->
  LegalKnowledgeIndexer.flatten_content e <> [] \/
  BM25Preprocessor.heading_lines e <> [].
Proof.
  split.
  - intros Hlex.
    destruct (BM25Preprocessor.heading_lines e) as [|h hs] eqn:Hh;
      [left | right; discriminate].
    intros Hsem. apply Hlex.
    unfold LegalKnowledgeIndexer.flatten_content in Hsem.
    apply separate_nil in Hsem.
    unfold BM25Preprocessor.flatten_content.
    destruct (flatten_lines_related e) as (body & -> & Hrel).
    rewrite Hh. cbn [app].
    destruct Hsem as [E | E]; rewrite E in Hrel.
    + inversion Hrel. reflexivity.
    + inversion Hrel as [|x ? ? l' Hxy Hrest]; subst. inversion Hrest; subst.
      now rewrite (same_line_nil_r Hxy).
  - intros [Hsem | Hh]; [now apply lexical_chunk_of_semantic|].
    intros E. unfold BM25Preprocessor.flatten_content in E.
    destruct (flatten_lines_related e) as (body & Hb & _).
    rewrite Hb in E. apply join_nil in E; [|discriminate].
    pose proof (heading_lines_solid e) as Hs.
    destruct (BM25Preprocessor.heading_lines e) as [|h hs]; [now apply Hh|].
    inversion Hs as [|? ? Hne _]; subst.
    destruct E as [E | E]; [discriminate|].
    injection E as -> _. now apply Hne.
Qed.

Lemma file_records_align (data : list entry) :
  Forall (fun e => LegalKnowledgeIndexer.flatten_content e <> []) data ->
  map fst (LegalKnowledgeIndexer.flatten_file data)
  = map LegalKnowledgeIndexer.flatten_content data /\
  BM25Preprocessor.file_chunks data
  = map BM25Preprocessor.flatten_content data.
Proof.
  unfold LegalKnowledgeIndexer.flatten_file, BM25Preprocessor.file_chunks.
  induction 1 as [|e data He _ [IH1 IH2]]; cbn [flat_map map filter];
    [now split|].
  pose proof (@lexical_chunk_of_semantic e He) as Hl.
  destruct (LegalKnowledgeIndexer.flatten_content e) as [|c s];
    [contradiction|].
  destruct (BM25Preprocessor.flatten_content e) as [|c' s'];
    [contradiction|].
  cbn [app map fst]. now rewrite IH1, IH2.
Qed.

(** When every record of a file has text for the semantic index, both
    indices keep every record: chunk [i] of the file is record [i] on
    either side, and the metadata kept for chunk [i] are those of record
    [i]. *)
Theorem records_with_content_align (data : list entry) :
  Forall (fun e => LegalKnowledgeIndexer.flatten_content e <> []) data ->
  map fst (LegalKnowledgeIndexer.flatten_file data)
  = map LegalKnowledgeIndexer.flatten_content data /\
  map snd (LegalKnowledgeIndexer.flatten_file data)
  = map (fun e => LegalKnowledgeIndexer.Meta (section e) (subsection e)
                                             (topic e)) data /\
  BM25Preprocessor.file_chunks data
  = map BM25Preprocessor.flatten_content data.
Proof.
  intros Hall.
  split; [exact (proj1 (@file_records_align data Hall))|].
  split; [|exact (proj2 (@file_records_align data Hall))].
  unfold LegalKnowledgeIndexer.flatten_file.
  induction Hall as [|e data He _ IH]; cbn [flat_map map]; [reflexivity|].
  destruct (LegalKnowledgeIndexer.flatten_content e) as [|c s];
    [contradiction|].
  cbn [app map snd]. now rewrite IH.
Qed.

Lemma records_with_content_align_witness :
  Forall (fun e => LegalKnowledgeIndexer.flatten_content e <> [])
         [word_entry (lit "alpha"); word_entry (lit "beta")] /\
  BM25Preprocessor.file_chunks [word_entry (lit "alpha");
                                word_entry (lit "beta")]
  = map BM25Preprocessor.flatten_content
        [word_entry (lit "alpha"); word_entry (lit "beta")].
Proof.
  assert (H : Forall (fun e => LegalKnowledgeIndexer.flatten_content e <> [])
                     [word_entry (lit "alpha"); word_entry (lit "beta")])
    by (repeat constructor; vm_compute; discriminate).
  split; [exact H|].
  exact (proj2 (proj2 (@records_with_content_align _ H))).
Defined.

Lemma blank_blocks_no_lines (blocks : list block) (lines : list str) :
  Forall (fun blk => blank (btext blk) /\ blist blk = []) blocks ->
  fold_left BM25Preprocessor.block_lines blocks lines = lines /\
  fold_left LegalKnowledgeIndexer.block_lines blocks lines = lines.
Proof.
  induction 1 as [|blk blocks [Hb Hl] _ IH]; cbn [fold_left]; [now split|].
  unfold BM25Preprocessor.block_lines, LegalKnowledgeIndexer.block_lines.
  rewrite (strip_blank Hb), Hl. exact IH.
Qed.

(** A record with a heading and no text (no content block, or blocks with
    blank text and no list) is a chunk of the lexical index, made of its
    heading lines, and is no chunk of the semantic index: from there on
    the positions of the two indices differ. *)
Theorem heading_only_record_is_lexical_only (e : entry) :
  BM25Preprocessor.heading_lines e <> [] ->
  Forall (fun blk => blank (btext blk) /\ blist blk = []) (content e) ->
  BM25Preprocessor.flatten_content e
  = join [LF] (BM25Preprocessor.heading_lines e) /\
  BM25Preprocessor.flatten_content e <> [] /\
  LegalKnowledgeIndexer.flatten_content e = [].
Proof.
  intros Hh Hc.
  unfold BM25Preprocessor.flatten_content, BM25Preprocessor.flatten_lines,
    LegalKnowledgeIndexer.flatten_content, LegalKnowledgeIndexer.flatten_lines.
  rewrite (proj1 (@blank_blocks_no_lines _ _ Hc)),
    (proj2 (@blank_blocks_no_lines _ _ Hc)).
  split; [reflexivity|]. split; [|reflexivity].
  intros E. apply join_nil in E; [|discriminate].
  pose proof (heading_lines_solid e) as Hs.
  destruct E as [E | E]; [contradiction|].
  rewrite E in Hs. inversion Hs as [|? ? Hne _]; subst. now apply Hne.
Qed.

Lemma heading_only_record_is_lexical_only_witness :
  BM25Preprocessor.heading_lines
    (Entry (Some (lit "Redundancy")) None [Block (lit " ") []] None) <> [] /\
  Forall (fun blk => blank (btext blk) /\ blist blk = [])
         [Block (lit " ") []] /\
  BM25Preprocessor.flatten_content
    (Entry (Some (lit "Redundancy")) None [Block (lit " ") []] None) <> [] /\
  LegalKnowledgeIndexer.flatten_content
    (Entry (Some (lit "Redundancy")) None [Block (lit " ") []] None) = [].
Proof.
  assert (Hh : BM25Preprocessor.heading_lines
                 (Entry (Some (lit "Redundancy")) None [Block (lit " ") []]
                        None) <> [])
    by (vm_compute; discriminate).
  assert (Hc : Forall (fun blk => blank (btext blk) /\ blist blk = [])
                      (content (Entry (Some (lit "Redundancy")) None
                                      [Block (lit " ") []] None)))
    by (repeat constructor).
  split; [exact Hh|]. split; [exact Hc|].
  exact (proj2 (@heading_only_record_is_lexical_only _ Hh Hc)).
Defined.

(** ** The blank lines of the semantic flattener *)

(** The loop that builds [out_lines] keeps every line, in order, and adds
    nothing but empty lines; it adds none after the last line. *)
Theorem separate_only_adds_blank_lines (lines : list str) :
  filter nonempty (LegalKnowledgeIndexer.separate lines)
  = filter nonempty lines /\
  length lines <= length (LegalKnowledgeIndexer.separate lines) /\
  length (LegalKnowledgeIndexer.separate lines) <= 2 * length lines - 1 /\
  last (LegalKnowledgeIndexer.separate lines) [] = last lines [].
Proof.
  induction lines as [|ln rest IH]; [cbn; repeat split; lia|].
  destruct rest as [|next rest]; [cbn; repeat split; lia|].
  destruct IH as (IH1 & IH2 & IH3 & IH4).
  remember (next :: rest) as l eqn:El.
  assert (Hsep : LegalKnowledgeIndexer.separate (ln :: l)
                 = ln :: LegalKnowledgeIndexer.separate l \/
                 LegalKnowledgeIndexer.separate (ln :: l)
                 = ln :: [] :: LegalKnowledgeIndexer.separate l).
  { subst l. cbn [LegalKnowledgeIndexer.separate].
    destruct (_ || _)%bool; [now right | now left]. }
  assert (Hne : LegalKnowledgeIndexer.separate l <> []).
  { subst l. cbn [LegalKnowledgeIndexer.separate].
    destruct rest; [discriminate|]. destruct (_ || _)%bool; discriminate. }
  assert (Hl : l <> []) by (subst l; discriminate).
  destruct Hsep as [-> | ->]; cbn [filter nonempty length];
    rewrite IH1.
  - split; [reflexivity|]. split; [lia|]. split; [lia|].
    destruct (LegalKnowledgeIndexer.separate l) as [|x s]; [contradiction|].
    destruct l as [|y l]; [contradiction|]. exact IH4.
  - split; [reflexivity|]. split; [lia|].
    split; [destruct l; [contradiction | cbn [length] in *; lia]|].
    destruct (LegalKnowledgeIndexer.separate l) as [|x s]; [contradiction|].
    destruct l as [|y l]; [contradiction|]. exact IH4.
Qed.

(** ** One line per list item *)

Lemma list_sum_cons (a : nat) (l : list nat) :
  list_sum (a :: l) = a + list_sum l.
Proof. reflexivity. Qed.

Lemma lki_process_item_app (it : item) :
  forall depth h l,
    LegalKnowledgeIndexer.process_item depth it (h ++ l)
    = h ++ LegalKnowledgeIndexer.process_item depth it l.
Proof.
  induction it as [text nested IH] using item_nested_ind.
  intros depth h l. rewrite !lki_process_item_eq.
  unfold LegalKnowledgeIndexer.process_list.
  set (line := match depth with O => _ | S _ => _ end).
  rewrite <- app_assoc. generalize (l ++ [line]). clear line.
  induction IH as [|x nested Hx _ IHn]; intros acc; cbn [fold_left];
    [reflexivity|].
  now rewrite Hx, IHn.
Qed.

Lemma bm25_process_item_count (it : item) :
  forall depth,
    length (BM25Preprocessor.process_item depth it []) = item_count it.
Proof.
  induction it as [text nested IH] using item_nested_ind.
  intros depth. rewrite bm25_process_item_eq.
  unfold BM25Preprocessor.process_list. cbn [app item_count].
  set (line := match depth with O => _ | S _ => _ end).
  change (S (list_sum (map item_count nested)))
    with (length [line] + list_sum (map item_count nested)).
  generalize [line]. clear line.
  induction IH as [|x nested Hx _ IHn]; intros acc; cbn [fold_left map].
  - cbn. lia.
  - rewrite list_sum_cons, IHn.
    rewrite <- (app_nil_r acc) at 1.
    rewrite bm25_process_item_app, length_app, Hx. lia.
Qed.

Lemma lki_process_item_count (it : item) :
  forall depth,
    length (LegalKnowledgeIndexer.process_item depth it []) = item_count it.
Proof.
  induction it as [text nested IH] using item_nested_ind.
  intros depth. rewrite lki_process_item_eq.
  unfold LegalKnowledgeIndexer.process_list. cbn [app item_count].
  set (line := match depth with O => _ | S _ => _ end).
  change (S (list_sum (map item_count nested)))
    with (length [line] + list_sum (map item_count nested)).
  generalize [line]. clear line.
  induction IH as [|x nested Hx _ IHn]; intros acc; cbn [fold_left map].
  - cbn. lia.
  - rewrite list_sum_cons, IHn.
    rewrite <- (app_nil_r acc) at 1.
    rewrite lki_process_item_app, length_app, Hx. lia.
Qed.

(** [process_list] only appends: the lines already there stay in front,
    and it adds exactly one line for every list item, nested items
    included, in both flatteners. *)
Theorem process_list_one_line_per_item (items : list item) (depth : nat)
  (lines : list str) :
  (exists added,
     BM25Preprocessor.process_list items depth lines = lines ++ added /\
     length added = list_sum (map item_count items)) /\
  (exists added,
     LegalKnowledgeIndexer.process_list items depth lines = lines ++ added /\
     length added = list_sum (map item_count items)).
Proof.
  split.
  - exists (BM25Preprocessor.process_list items depth []). split.
    + rewrite <- (app_nil_r lines) at 1. apply bm25_process_list_app.
    + unfold BM25Preprocessor.process_list.
      change (list_sum (map item_count items))
        with (length (@nil str) + list_sum (map item_count items)).
      generalize (@nil str).
      induction items as [|x items IH]; intros acc;
        cbn [fold_left map]; [cbn; lia|].
      rewrite list_sum_cons, IH. rewrite <- (app_nil_r acc) at 1.
      rewrite bm25_process_item_app, length_app, bm25_process_item_count. lia.
  - exists (LegalKnowledgeIndexer.process_list items depth []). split.
    + rewrite <- (app_nil_r lines) at 1.
      unfold LegalKnowledgeIndexer.process_list. generalize (@nil str).
      induction items as [|x items IH]; intros l; cbn [fold_left];
        [reflexivity|].
      now rewrite lki_process_item_app, IH.
    + unfold LegalKnowledgeIndexer.process_list.
      change (list_sum (map item_count items))
        with (length (@nil str) + list_sum (map item_count items)).
      generalize (@nil str).
      induction items as [|x items IH]; intros acc;
        cbn [fold_left map]; [cbn; lia|].
      rewrite list_sum_cons, IH. rewrite <- (app_nil_r acc) at 1.
      rewrite lki_process_item_app, length_app, lki_process_item_count. lia.
Qed.

End FlattenFacts.

Module SemanticFacts.
Import BM25Facts.
Import RetrievalFacts.

(** ** The outcomes of [embed] *)

Lemma forallb_false {A : Type} (f : A -> bool) (l : list A) :
  forallb f l = false -> Exists (fun x => f x = false) l.
Proof.
  induction l as [|x l IH]; cbn [forallb]; [discriminate|].
  destruct (f x) eqn:E; cbn [andb].
  - intros H. right. now apply IH.
  - intros _. now left.
Qed.

Section WithRuntime.
Context {M : SemanticRuntime}.

(** [embed] has three outcomes.  It returns the model's output unchanged
    when that is a matrix each of whose rows is finite with a norm within
    [1e-6 + 1e-5] of 1; it fails its assertion when the output is not a
    matrix; otherwise it raises [Some embeddings deviate from unit norm].
    A row with a NaN or an infinite component is reported in this last
    way: the error [Invalid values in embeddings] is never raised. *)
Theorem embed_outcomes (texts : list str) :
  (LegalKnowledgeIndexer.embed texts = Ok (encode texts) /\
   ndim (encode texts) = 2 /\
   Forall row_accepted (rows (encode texts))) \/
  (LegalKnowledgeIndexer.embed texts = Raise AssertionError /\
   ndim (encode texts) <> 2) \/
  (LegalKnowledgeIndexer.embed texts
   = Raise (ValueError "Some embeddings deviate from unit norm") /\
   ndim (encode texts) = 2 /\
   Exists (fun row => ~ row_accepted row) (rows (encode texts))).
Proof.
  destruct (LegalKnowledgeIndexer.embed texts) as [e|err] eqn:E.
  - left. apply embed_ok_iff in E as (-> & Hd & Hacc). now repeat split.
  - right. unfold LegalKnowledgeIndexer.embed in E.
    destruct (Nat.eqb (ndim (encode texts)) 2) eqn:D; cbn [negb] in E.
    + right. pose proof D as D2. apply Nat.eqb_eq in D2.
      destruct (LegalKnowledgeIndexer.allclose _ _ _) eqn:A; cbn [negb] in E.
      * exfalso.
        assert (Hok : LegalKnowledgeIndexer.embed texts = Ok (encode texts)).
        { apply embed_ok_iff. split; [reflexivity|]. split; [exact D2|].
          unfold LegalKnowledgeIndexer.allclose in A.
          rewrite forallb_forall in A. apply Forall_forall.
          intros row Hrow. apply isclose_norm. apply A. now apply in_map. }
        unfold LegalKnowledgeIndexer.embed in Hok.
        rewrite D, A in Hok. cbn [negb] in Hok.
        rewrite Hok in E. discriminate.
      * injection E as <-. split; [reflexivity|]. split; [exact D2|].
        unfold LegalKnowledgeIndexer.allclose in A.
        apply forallb_false in A. apply Exists_exists in A as (x & Hx & Hc).
        apply in_map_iff in Hx as (row & <- & Hrow).
        apply Exists_exists. exists row. split; [exact Hrow|].
        intros Hacc. apply isclose_norm in Hacc. congruence.
    + left. injection E as <-. split; [reflexivity|].
      now apply Nat.eqb_neq.
Qed.

(** ** Building and loading *)

Lemma write_other (path : option str) (content : LegalKnowledgeIndexer.file)
  (d : LegalKnowledgeIndexer.disk) (p : str) :
  Some p <> path ->
  dict_get p (LegalKnowledgeIndexer.write path content d) = dict_get p d.
Proof.
  intros Hp. unfold LegalKnowledgeIndexer.write.
  destruct path as [[|c q]|]; try reflexivity.
  rewrite dict_get_set.
  match goal with |- context [if ?b then _ else _] => destruct b eqn:E end;
    [|reflexivity].
  exfalso. apply Hp. f_equal. symmetry. now apply key_eqb_spec.
Qed.

(** [build_index] is all or nothing.  Either [embed] raises on the
    gathered chunks: then the build raises the same exception and the disk
    is as it was, nothing having been written.  Or the build succeeds: the
    object then holds the gathered chunks and ids and the vectors of these
    chunks, and on disk only the files at the object's three paths can
    have changed. *)
Theorem build_index_all_or_nothing (self : LegalKnowledgeIndexer.t)
  (d : LegalKnowledgeIndexer.disk) :
  (exists e,
     LegalKnowledgeIndexer.embed (fst (LegalKnowledgeIndexer.gather self))
     = Raise e /\
     LegalKnowledgeIndexer.build_index self d = (Raise e, d)) \/
  (exists s' d',
     LegalKnowledgeIndexer.build_index self d = (Ok s', d') /\
     (LegalKnowledgeIndexer.all_chunks s', LegalKnowledgeIndexer.ids s')
     = LegalKnowledgeIndexer.gather self /\
     LegalKnowledgeIndexer.index s'
     = Some (rows (encode (LegalKnowledgeIndexer.all_chunks s'))) /\
     forall p,
       Some p <> LegalKnowledgeIndexer.index_path self ->
       Some p <> LegalKnowledgeIndexer.chunks_path self ->
       Some p <> LegalKnowledgeIndexer.id_meta_path self ->
       dict_get p d' = dict_get p d).
Proof.
  unfold LegalKnowledgeIndexer.build_index.
  destruct (LegalKnowledgeIndexer.gather self) as [chunks names].
  cbn [fst].
  destruct (LegalKnowledgeIndexer.embed chunks) as [embs|e] eqn:E.
  - right. do 2 eexists. split; [reflexivity|].
    cbn [LegalKnowledgeIndexer.all_chunks LegalKnowledgeIndexer.ids
         LegalKnowledgeIndexer.index].
    split; [reflexivity|]. split.
    + apply embed_ok_iff in E as (-> & _). reflexivity.
    + intros p H1 H2 H3. now rewrite !write_other.
  - left. exists e. now split.
Qed.

Lemma str_eqb_neq (a b : str) : a <> b -> key_eqb a b = false.
Proof.
  intros Hne. cbn [key_eqb str_key]. unfold str_eqb.
  destruct (list_eq_dec N.eq_dec a b); [contradiction | reflexivity].
Qed.

Lemma truthy_some (c : char) (p : str) : truthy (Some (c :: p)) = Some (c :: p).
Proof. reflexivity. Qed.

(** What a build writes, a load reads back: with three distinct,
    non-empty paths, loading right after a successful build leaves the
    object as the build left it, and a fresh object on the same paths
    loads the same ids, chunks and vectors. *)
Theorem build_then_load_round_trip (self s' : LegalKnowledgeIndexer.t)
  (d d' : LegalKnowledgeIndexer.disk) (p1 p2 p3 : str) :
  LegalKnowledgeIndexer.index_path self = Some p1 ->
  LegalKnowledgeIndexer.chunks_path self = Some p2 ->
  LegalKnowledgeIndexer.id_meta_path self = Some p3 ->
  p1 <> [] -> p2 <> [] -> p3 <> [] ->
  p1 <> p2 -> p1 <> p3 -> p2 <> p3 ->
  LegalKnowledgeIndexer.build_index self d = (Ok s', d') ->
  LegalKnowledgeIndexer.load s' d' = Ok s' /\
  exists loaded,
    LegalKnowledgeIndexer.load
      (LegalKnowledgeIndexer.init (Some p1) (Some p2) (Some p3)) d'
    = Ok loaded /\
    LegalKnowledgeIndexer.ids loaded = LegalKnowledgeIndexer.ids s' /\
    LegalKnowledgeIndexer.all_chunks loaded
    = LegalKnowledgeIndexer.all_chunks s' /\
    LegalKnowledgeIndexer.index loaded = LegalKnowledgeIndexer.index s'.
Proof.
  intros H1 H2 H3 N1 N2 N3 D12 D13 D23.
  unfold LegalKnowledgeIndexer.build_index.
  destruct (LegalKnowledgeIndexer.gather self) as [chunks names].
  destruct (LegalKnowledgeIndexer.embed chunks) as [embs|]; [|discriminate].
  rewrite H1, H2, H3.
  destruct p1 as [|c1 p1]; [contradiction|].
  destruct p2 as [|c2 p2]; [contradiction|].
  destruct p3 as [|c3 p3]; [contradiction|].
  cbn [LegalKnowledgeIndexer.write]. intros [= <- <-].
  unfold LegalKnowledgeIndexer.load, LegalKnowledgeIndexer.init.
  cbn [LegalKnowledgeIndexer.index_path LegalKnowledgeIndexer.chunks_path
       LegalKnowledgeIndexer.id_meta_path LegalKnowledgeIndexer.ids
       LegalKnowledgeIndexer.all_chunks LegalKnowledgeIndexer.index
       LegalKnowledgeIndexer.file_chunks LegalKnowledgeIndexer.chunk_meta].
  rewrite !truthy_some.
  unfold LegalKnowledgeIndexer.read_faiss, LegalKnowledgeIndexer.read_pickle.
  rewrite !dict_get_set.
  rewrite !key_eqb_refl.
  rewrite (str_eqb_neq (not_eq_sym D13)), (str_eqb_neq (not_eq_sym D12)),
    (str_eqb_neq (not_eq_sym D23)).
  cbn [bind]. split; [reflexivity|].
  eexists. split; [reflexivity|]. cbn. now repeat split.
Qed.

End WithRuntime.

Lemma build_index_unit (self : LegalKnowledgeIndexer.t)
  (d : LegalKnowledgeIndexer.disk) :
  exists s' d',
    LegalKnowledgeIndexer.build_index (M := unit_runtime) self d
    = (Ok s', d').
Proof.
  unfold LegalKnowledgeIndexer.build_index.
  destruct (LegalKnowledgeIndexer.gather self) as [chunks names].
  rewrite embed_unit. now do 2 eexists.
Qed.

Lemma build_then_load_round_trip_witness :
  exists s' d',
    LegalKnowledgeIndexer.build_index (M := unit_runtime)
      (LegalKnowledgeIndexer.load_and_flatten semantic_paths example_dir) []
    = (Ok s', d') /\
    LegalKnowledgeIndexer.load s' d' = Ok s'.
Proof.
  destruct (build_index_unit
              (LegalKnowledgeIndexer.load_and_flatten semantic_paths
                 example_dir) []) as (s' & d' & Hb).
  exists s', d'. split; [exact Hb|].
  destruct (load_and_flatten_paths semantic_paths example_dir)
    as (H1 & H2 & H3).
  refine (proj1 (@build_then_load_round_trip unit_runtime _ s' [] d'
                   (lit "./legal_chunks.faiss")
                   (lit "./legal_chunks.chunks.pkl")
                   (lit "./legal_chunks.ids.pkl")
                   H1 H2 H3 _ _ _ _ _ _ Hb));
    intros E; vm_compute in E; discriminate E.
Defined.

End SemanticFacts.

Module SemanticIndexFacts.
Import BM25Facts.
Import RetrievalFacts.
Import IndexFacts.

(** ** Decimal numerals *)

Lemma digits_value_snoc (s : str) (c : char) :
  digits_value (s ++ [c]) = 10 * digits_value s + (N.to_nat c - 48).
Proof. unfold digits_value. now rewrite fold_left_app. Qed.

Lemma digits_from_spec (fuel n : nat) (acc : str) :
  n < fuel ->
  exists ds,
    digits_from fuel n acc = ds ++ acc /\
    digits_value ds = n /\
    Forall (fun c => (48 <= c <= 57)%N) ds.
Proof.
  revert n acc. induction fuel as [|fuel IH]; intros n acc Hn; [lia|].
  cbn [digits_from].
  assert (Hm : n mod 10 < 10) by (apply Nat.mod_upper_bound; lia).
  assert (Hd : (48 <= N.of_nat (48 + n mod 10) <= 57)%N) by lia.
  destruct (n <? 10) eqn:E.
  - apply Nat.ltb_lt in E. exists [N.of_nat (48 + n mod 10)].
    split; [reflexivity|]. split; [|constructor; [exact Hd | constructor]].
    unfold digits_value. cbn [fold_left].
    rewrite Nat2N.id, Nat.mod_small by lia. lia.
  - apply Nat.ltb_ge in E.
    assert (Hq : n / 10 < fuel).
    { pose proof (Nat.div_lt n 10). lia. }
    destruct (IH (n / 10) (N.of_nat (48 + n mod 10) :: acc) Hq)
      as (ds & Hds & Hv & Hall).
    exists (ds ++ [N.of_nat (48 + n mod 10)]).
    split; [rewrite Hds, <- app_assoc; reflexivity|].
    split.
    + rewrite digits_value_snoc, Hv, Nat2N.id.
      pose proof (Nat.div_mod_eq n 10). lia.
    + apply Forall_app. split; [exact Hall|].
      constructor; [exact Hd | constructor].
Qed.

Lemma str_of_nat_spec (n : nat) :
  digits_value (str_of_nat n) = n /\
  Forall (fun c => (48 <= c <= 57)%N) (str_of_nat n).
Proof.
  unfold str_of_nat.
  destruct (@digits_from_spec (S n) n [] (Nat.lt_succ_diag_r n))
    as (ds & -> & Hv & Hall).
  rewrite app_nil_r. now split.
Qed.

Lemma str_of_nat_inj (i j : nat) : str_of_nat i = str_of_nat j -> i = j.
Proof.
  intros E. rewrite <- (proj1 (str_of_nat_spec i)), E.
  apply str_of_nat_spec.
Qed.

(** ** Chunk ids *)

Lemma split_at_first {A : Type} (u : A) (a b x y : list A) :
  ~ In u a -> ~ In u b ->
  a ++ u :: x = b ++ u :: y -> a = b /\ x = y.
Proof.
  revert b. induction a as [|c a IH]; intros [|d b] Ha Hb E; cbn [app] in E.
  - injection E as E. now split.
  - injection E as E _. exfalso. apply Hb. now left.
  - injection E as E _. exfalso. apply Ha. now left.
  - injection E as -> E.
    destruct (IH b) as [-> ->]; [| |exact E|now split].
    + intros H. apply Ha. now right.
    + intros H. apply Hb. now right.
Qed.

Lemma rev_eq {A : Type} (l1 l2 : list A) : rev l1 = rev l2 -> l1 = l2.
Proof.
  intros E. apply (f_equal (@rev A)) in E. now rewrite !rev_involutive in E.
Qed.

Lemma split_at_last {A : Type} (u : A) (x y da db : list A) :
  ~ In u da -> ~ In u db ->
  x ++ u :: da = y ++ u :: db -> x = y /\ da = db.
Proof.
  intros Ha Hb E.
  apply (f_equal (@rev A)) in E. rewrite !rev_app_distr in E.
  cbn [rev] in E. rewrite <- !app_assoc in E. cbn [app] in E.
  apply split_at_first in E as [E1 E2].
  - split; now apply rev_eq.
  - now rewrite <- in_rev.
  - now rewrite <- in_rev.
Qed.

Lemma digits_no_underscore (n : nat) : ~ In 95%N (str_of_nat n).
Proof.
  intros Hin. destruct (str_of_nat_spec n) as [_ Hall].
  rewrite Forall_forall in Hall. specialize (Hall _ Hin). lia.
Qed.

Lemma chunk_id_inj (f g : str) (i j : nat) :
  chunk_id f i = chunk_id g j -> f = g /\ i = j.
Proof.
  unfold chunk_id. intros E.
  change (lit "_chunk_") with (lit "_chunk" ++ [95%N]) in E.
  rewrite <- !app_assoc in E. rewrite !app_assoc in E.
  rewrite <- !app_assoc in E.
  change ([95%N] ++ str_of_nat i) with (95%N :: str_of_nat i) in E.
  change ([95%N] ++ str_of_nat j) with (95%N :: str_of_nat j) in E.
  rewrite !app_assoc in E.
  apply split_at_last in E as [E1 E2]; try apply digits_no_underscore.
  split; [now apply app_inv_tail in E1 | now apply str_of_nat_inj].
Qed.

(** ** What [load_and_flatten] and [build_index] gather *)

Lemma NoDup_map_fst_filter {A B : Type} (p : A * B -> bool)
  (l : list (A * B)) :
  NoDup (map fst l) -> NoDup (map fst (filter p l)).
Proof.
  induction l as [|x l IH]; cbn [map filter]; [auto|].
  intros Hnd. apply NoDup_cons_iff in Hnd as [Hx Hnd].
  destruct (p x); [|now apply IH]. cbn [map]. constructor; [|now apply IH].
  intros Hin. apply Hx. apply in_map_iff in Hin as (y & Hy & Hin).
  apply filter_In in Hin as [Hin _]. apply in_map_iff. now exists y.
Qed.

Lemma load_and_flatten_dicts (dir : list (str * list entry))
  (s : LegalKnowledgeIndexer.t) :
  keys (LegalKnowledgeIndexer.chunk_meta s)
  = keys (LegalKnowledgeIndexer.file_chunks s) ->
  NoDup (keys (LegalKnowledgeIndexer.file_chunks s)
         ++ map fst (json_files dir)) ->
  let s' := LegalKnowledgeIndexer.load_and_flatten s dir in
  LegalKnowledgeIndexer.file_chunks s'
  = LegalKnowledgeIndexer.file_chunks s
    ++ map (fun f => (fst f,
                      map fst (LegalKnowledgeIndexer.flatten_file (snd f))))
           (json_files dir) /\
  LegalKnowledgeIndexer.chunk_meta s'
  = LegalKnowledgeIndexer.chunk_meta s
    ++ map (fun f => (fst f,
                      map snd (LegalKnowledgeIndexer.flatten_file (snd f))))
           (json_files dir) /\
  LegalKnowledgeIndexer.ids s' = LegalKnowledgeIndexer.ids s /\
  LegalKnowledgeIndexer.all_chunks s' = LegalKnowledgeIndexer.all_chunks s.
Proof.
  unfold LegalKnowledgeIndexer.load_and_flatten, json_files.
  revert s. induction dir as [|f dir IH]; intros s Hk Hnd;
    cbn [fold_left filter map].
  - rewrite !app_nil_r. now repeat split.
  - cbn [filter] in Hnd.
    destruct (endswith (lit ".json") (fst f)) eqn:E; [|now apply IH].
    cbn [map] in Hnd |- *.
    assert (Hnew : ~ In (fst f) (keys (LegalKnowledgeIndexer.file_chunks s))).
    { intros Hin. apply NoDup_remove_2 in Hnd. apply Hnd.
      apply in_or_app. now left. }
    assert (Hnew2 : ~ In (fst f) (keys (LegalKnowledgeIndexer.chunk_meta s)))
      by now rewrite Hk.
    rewrite (dict_set_new (fst f)
               (map fst (LegalKnowledgeIndexer.flatten_file (snd f))) _ Hnew).
    rewrite (dict_set_new (fst f)
               (map snd (LegalKnowledgeIndexer.flatten_file (snd f))) _ Hnew2).
    match goal with
    | |- context [fold_left _ dir ?s1] =>
        destruct (IH s1) as (H1 & H2 & H3 & H4)
    end.
    + cbn [LegalKnowledgeIndexer.chunk_meta LegalKnowledgeIndexer.file_chunks].
      unfold keys in *. rewrite !map_app. cbn [map fst]. now rewrite Hk.
    + cbn [LegalKnowledgeIndexer.file_chunks].
      unfold keys in *. rewrite map_app. cbn [map fst].
      rewrite <- app_assoc. exact Hnd.
    + cbn [LegalKnowledgeIndexer.chunk_meta LegalKnowledgeIndexer.file_chunks
           LegalKnowledgeIndexer.ids LegalKnowledgeIndexer.all_chunks]
        in H1, H2, H3, H4.
      rewrite <- app_assoc in H1, H2.
      split; [exact H1|]. split; [exact H2|]. split; [exact H3 | exact H4].
Qed.

Section WithRuntime.
Context {M : SemanticRuntime}.

Lemma gather_file_spec (fname : str) (l : list (str * LegalKnowledgeIndexer.meta))
  (i : nat) (acc : list str * list str) :
  fold_left
    (fun acc (e : nat * (str * LegalKnowledgeIndexer.meta)) =>
       let '(i, (chunk, _)) := e in
       (fst acc ++ [chunk], snd acc ++ [fname ++ lit "_chunk_" ++ str_of_nat i]))
    (combine (seq i (length l)) l) acc
  = (fst acc ++ map fst l,
     snd acc ++ map (chunk_id fname) (seq i (length l))).
Proof.
  revert i acc. induction l as [|[chunk m] l IH]; intros i acc;
    cbn [length seq combine fold_left map].
  - rewrite !app_nil_r. now destruct acc.
  - rewrite IH. cbn [fst snd]. rewrite <- !app_assoc. reflexivity.
Qed.

Lemma gather_file_ok (acc : list str * list str) (fname : str)
  (cm : list (str * LegalKnowledgeIndexer.meta)) :
  LegalKnowledgeIndexer.gather_file acc (fname, map fst cm) (map snd cm)
  = (fst acc ++ map fst cm,
     snd acc ++ map (chunk_id fname) (seq 0 (length cm))).
Proof.
  unfold LegalKnowledgeIndexer.gather_file, BM25Preprocessor.enumerate.
  cbn [fst snd].
  assert (Hc : combine (map fst cm) (map snd cm) = cm).
  { induction cm as [|[c m] cm IH]; cbn [map combine fst snd];
      [reflexivity | now rewrite IH]. }
  rewrite Hc. apply gather_file_spec.
Qed.

End WithRuntime.

Section Gathering.
Context {M : SemanticRuntime}.

Lemma gather_fold (cm_all : dict str (list LegalKnowledgeIndexer.meta))
  (files : list (str * list entry)) (acc : list str * list str) :
  NoDup (keys cm_all) ->
  (forall f, In f files ->
     In (fst f, map snd (LegalKnowledgeIndexer.flatten_file (snd f))) cm_all) ->
  fold_left
    (fun acc f =>
       LegalKnowledgeIndexer.gather_file acc f (dict_get_or (fst f) [] cm_all))
    (map (fun f => (fst f,
                    map fst (LegalKnowledgeIndexer.flatten_file (snd f))))
         files)
    acc
  = (fst acc
     ++ flat_map (fun f => map fst (LegalKnowledgeIndexer.flatten_file (snd f)))
                 files,
     snd acc
     ++ flat_map (fun f =>
                    map (chunk_id (fst f))
                        (seq 0 (length (LegalKnowledgeIndexer.flatten_file
                                          (snd f)))))
                 files).
Proof.
  intros Hnd. revert acc.
  induction files as [|f files IH]; intros acc Hin;
    cbn [map fold_left flat_map].
  - rewrite !app_nil_r. now destruct acc.
  - rewrite IH by (intros g Hg; apply Hin; now right).
    cbn [fst]. unfold dict_get_or.
    rewrite (@In_dict_get _ _ _ _ _ _ _ Hnd (Hin f (or_introl eq_refl))).
    rewrite gather_file_ok. cbn [fst snd]. now rewrite <- !app_assoc.
Qed.

Lemma gather_fresh (p1 p2 p3 : option str) (dir : list (str * list entry)) :
  NoDup (map fst dir) ->
  LegalKnowledgeIndexer.gather
    (LegalKnowledgeIndexer.load_and_flatten
       (LegalKnowledgeIndexer.init p1 p2 p3) dir)
  = (flat_map (fun f => map fst (LegalKnowledgeIndexer.flatten_file (snd f)))
              (json_files dir),
     flat_map (fun f =>
                 map (chunk_id (fst f))
                     (seq 0 (length (LegalKnowledgeIndexer.flatten_file
                                       (snd f)))))
              (json_files dir)).
Proof.
  intros Hnd.
  assert (Hj : NoDup (map fst (json_files dir)))
    by now apply NoDup_map_fst_filter.
  destruct (@load_and_flatten_dicts dir (LegalKnowledgeIndexer.init p1 p2 p3))
    as (H1 & H2 & H3 & H4); [reflexivity | exact Hj |].
  cbn [LegalKnowledgeIndexer.init LegalKnowledgeIndexer.file_chunks
       LegalKnowledgeIndexer.chunk_meta LegalKnowledgeIndexer.ids
       LegalKnowledgeIndexer.all_chunks app] in H1, H2, H3, H4.
  unfold LegalKnowledgeIndexer.gather. rewrite H1, H2, H3, H4.
  rewrite gather_fold; [reflexivity | |].
  - unfold keys. rewrite map_map. cbn [fst]. exact Hj.
  - intros f Hf. apply in_map_iff. now exists f.
Qed.

Lemma NoDup_flat_map {A B : Type} (g : A -> list B) (l : list A) :
  NoDup l ->
  (forall x, In x l -> NoDup (g x)) ->
  (forall x y a, In x l -> In y l -> In a (g x) -> In a (g y) -> x = y) ->
  NoDup (flat_map g l).
Proof.
  induction 1 as [|x l Hx Hnd IH]; intros Hg Hdisj; cbn [flat_map];
    [constructor|].
  apply NoDup_app.
  - apply Hg. now left.
  - apply IH.
    + intros y Hy. apply Hg. now right.
    + intros y z a Hy Hz. apply Hdisj; now right.
  - intros a Ha Hin. apply in_flat_map in Hin as (y & Hy & Hay).
    assert (x = y) by (apply (Hdisj x y a); auto; [now left | now right]).
    subst y. contradiction.
Qed.

Lemma chunk_ids_nodup (files : list (str * list entry)) :
  NoDup (map fst files) ->
  NoDup (flat_map (fun f =>
                     map (chunk_id (fst f))
                         (seq 0 (length (LegalKnowledgeIndexer.flatten_file
                                           (snd f)))))
                  files).
Proof.
  intros Hnd. apply NoDup_flat_map.
  - now apply NoDup_map_inv in Hnd.
  - intros f _. apply Finite.Injective_map_NoDup; [|apply seq_NoDup].
    intros i j E. now apply chunk_id_inj in E.
  - intros f g a Hf Hg Ha Hb.
    apply in_map_iff in Ha as (i & <- & _).
    apply in_map_iff in Hb as (j & E & _).
    apply chunk_id_inj in E as [E _].
    destruct f as [nf df], g as [ng dg]. cbn [fst] in E. subst ng.
    f_equal.
    assert (Hget : forall d, In (nf, d) files ->
                             dict_get nf files = Some d).
    { intros d. apply In_dict_get. exact Hnd. }
    pose proof (Hget _ Hf) as E1. pose proof (Hget _ Hg) as E2. congruence.
Qed.

Lemma flat_map_length_same {A B C : Type} (g : A -> list B) (h : A -> list C)
  (l : list A) :
  (forall x, length (g x) = length (h x)) ->
  length (flat_map g l) = length (flat_map h l).
Proof.
  intros Hgh. induction l as [|x l IH]; cbn [flat_map]; [reflexivity|].
  now rewrite !length_app, Hgh, IH.
Qed.

(** The semantic index built from a directory listing holds, in listing
    order, the non-empty flattened records of the files whose name ends
    in [.json]; chunk [i] of the file [f] is stored under the id
    [f_chunk_i], next to its text. *)
Theorem semantic_index_contents (p1 p2 p3 : option str)
  (dir : list (str * list entry)) (d d' : LegalKnowledgeIndexer.disk)
  (s' : LegalKnowledgeIndexer.t) :
  NoDup (map fst dir) ->
  LegalKnowledgeIndexer.build_index
    (LegalKnowledgeIndexer.load_and_flatten
       (LegalKnowledgeIndexer.init p1 p2 p3) dir) d = (Ok s', d') ->
  LegalKnowledgeIndexer.all_chunks s'
  = flat_map (fun f => map fst (LegalKnowledgeIndexer.flatten_file (snd f)))
             (json_files dir) /\
  LegalKnowledgeIndexer.ids s'
  = flat_map (fun f =>
                map (chunk_id (fst f))
                    (seq 0 (length (LegalKnowledgeIndexer.flatten_file
                                      (snd f)))))
             (json_files dir) /\
  length (LegalKnowledgeIndexer.ids s')
  = length (LegalKnowledgeIndexer.all_chunks s') /\
  LegalKnowledgeIndexer.index s'
  = Some (rows (encode (LegalKnowledgeIndexer.all_chunks s'))).
Proof.
  intros Hnd. unfold LegalKnowledgeIndexer.build_index.
  rewrite (@gather_fresh p1 p2 p3 dir Hnd).
  destruct (LegalKnowledgeIndexer.embed _) as [embs|] eqn:E; [|discriminate].
  intros [= <- _].
  cbn [LegalKnowledgeIndexer.all_chunks LegalKnowledgeIndexer.ids
       LegalKnowledgeIndexer.index].
  split; [reflexivity|]. split; [reflexivity|]. split.
  - apply flat_map_length_same. intros f.
    now rewrite !length_map, length_seq.
  - apply embed_ok_iff in E as (-> & _). reflexivity.
Qed.

(** The ids of a freshly built semantic index are pairwise distinct (the
    directory listing naming each file once). *)
Theorem chunk_ids_are_unique (p1 p2 p3 : option str)
  (dir : list (str * list entry)) (d d' : LegalKnowledgeIndexer.disk)
  (s' : LegalKnowledgeIndexer.t) :
  NoDup (map fst dir) ->
  LegalKnowledgeIndexer.build_index
    (LegalKnowledgeIndexer.load_and_flatten
       (LegalKnowledgeIndexer.init p1 p2 p3) dir) d = (Ok s', d') ->
  NoDup (LegalKnowledgeIndexer.ids s').
Proof.
  intros Hnd. unfold LegalKnowledgeIndexer.build_index.
  rewrite (@gather_fresh p1 p2 p3 dir Hnd).
  destruct (LegalKnowledgeIndexer.embed _) as [embs|]; [|discriminate].
  intros [= <- _]. cbn [LegalKnowledgeIndexer.ids].
  apply chunk_ids_nodup. now apply NoDup_map_fst_filter.
Qed.

End Gathering.

Lemma example_listing : NoDup (map fst example_dir).
Proof. repeat constructor. intros []. Qed.

Lemma semantic_index_contents_witness :
  NoDup (map fst example_dir) /\
  exists s' d',
    LegalKnowledgeIndexer.build_index (M := unit_runtime)
      (LegalKnowledgeIndexer.load_and_flatten semantic_paths example_dir) []
    = (Ok s', d') /\
    length (LegalKnowledgeIndexer.ids s')
    = length (LegalKnowledgeIndexer.all_chunks s').
Proof.
  split; [exact example_listing|].
  destruct (SemanticFacts.build_index_unit
              (LegalKnowledgeIndexer.load_and_flatten semantic_paths
                 example_dir) []) as (s' & d' & Hb).
  exists s', d'. split; [exact Hb|].
  exact (proj1 (proj2 (proj2
           (@semantic_index_contents unit_runtime _ _ _ example_dir [] d' s'
              example_listing Hb)))).
Defined.

Lemma chunk_ids_are_unique_witness :
  NoDup (map fst example_dir) /\
  exists s' d',
    LegalKnowledgeIndexer.build_index (M := unit_runtime)
      (LegalKnowledgeIndexer.load_and_flatten semantic_paths example_dir) []
    = (Ok s', d') /\
    NoDup (LegalKnowledgeIndexer.ids s').
Proof.
  split; [exact example_listing|].
  destruct (SemanticFacts.build_index_unit
              (LegalKnowledgeIndexer.load_and_flatten semantic_paths
                 example_dir) []) as (s' & d' & Hb).
  exists s', d'. split; [exact Hb|].
  exact (@chunk_ids_are_unique unit_runtime _ _ _ example_dir [] d' s'
           example_listing Hb).
Defined.

End SemanticIndexFacts.

Module PipelineFacts.
Import BM25Facts.
Import RetrievalFacts.
Import IndexFacts.
Import ScoringFacts.
Import SemanticIndexFacts.

(** ** List access *)

Lemma py_index_inv {A : Type} (l : list A) (z : Z) (x : A) :
  py_index l z = Ok x ->
  (0 <= wrap_index (length l) z < Z.of_nat (length l))%Z /\
  (- Z.of_nat (length l) <= z < Z.of_nat (length l))%Z /\
  nth_error l (Z.to_nat (wrap_index (length l) z)) = Some x.
Proof.
  unfold py_index, wrap_index.
  destruct (z <? 0)%Z eqn:Ez;
    [apply Z.ltb_lt in Ez | apply Z.ltb_ge in Ez];
    (destruct (_ && _)%bool eqn:Er; [|discriminate]);
    apply andb_true_iff in Er as [E1 E2];
    apply Z.leb_le in E1; apply Z.ltb_lt in E2;
    (destruct (nth_error l _) as [a|] eqn:En; [|discriminate]);
    intros [= <-]; (split; [lia|]); (split; [lia | reflexivity]).
Qed.

Lemma py_index_out_of_range {A : Type} (l : list A) (z : Z) :
  ~ (- Z.of_nat (length l) <= z < Z.of_nat (length l))%Z ->
  py_index l z = Raise IndexError.
Proof.
  intros Hout. destruct (py_index l z) as [x|e] eqn:E.
  - apply py_index_inv in E as (_ & Hr & _). contradiction.
  - unfold py_index in E.
    destruct (_ && _)%bool; [|congruence].
    destruct (nth_error l _); congruence.
Qed.

Lemma py_index_in_range {A : Type} (l : list A) (z : Z) :
  (- Z.of_nat (length l) <= z < Z.of_nat (length l))%Z ->
  exists x, py_index l z = Ok x.
Proof.
  intros Hr. unfold py_index.
  set (j := if (z <? 0)%Z then (z + Z.of_nat (length l))%Z else z).
  assert (Hj : (0 <= j < Z.of_nat (length l))%Z).
  { unfold j. destruct (z <? 0)%Z eqn:Ez;
      [apply Z.ltb_lt in Ez | apply Z.ltb_ge in Ez]; lia. }
  replace ((0 <=? j)%Z && (j <? Z.of_nat (length l))%Z) with true.
  - destruct (nth_error l (Z.to_nat j)) as [a|] eqn:En; [now exists a|].
    apply nth_error_None in En. lia.
  - symmetry. apply andb_true_iff. split; [apply Z.leb_le | apply Z.ltb_lt]; lia.
Qed.

Lemma list_index_nth (l : list str) (i : nat) (x : str) :
  NoDup l -> nth_error l i = Some x -> list_index x l = Some i.
Proof.
  revert i. induction l as [|y l IH]; intros [|i] Hnd;
    cbn [nth_error list_index]; try discriminate.
  - intros [= ->]. unfold str_eqb.
    destruct (list_eq_dec N.eq_dec x x); [reflexivity | contradiction].
  - intros Hi. apply NoDup_cons_iff in Hnd as [Hy Hnd].
    unfold str_eqb. destruct (list_eq_dec N.eq_dec y x) as [->|_].
    + exfalso. apply Hy. exact (nth_error_In _ _ Hi).
    + now rewrite (IH i Hnd Hi).
Qed.

Lemma list_index_In (l : list str) (x : str) :
  In x l -> exists i, list_index x l = Some i.
Proof.
  induction l as [|y l IH]; cbn [In list_index]; [intros []|].
  intros Hin. destruct (str_eqb y x) eqn:E; [now exists 0|].
  destruct Hin as [-> | Hin].
  - unfold str_eqb in E. destruct (list_eq_dec N.eq_dec x x);
      [discriminate | contradiction].
  - destruct (IH Hin) as [i ->]. now exists (S i).
Qed.

Section WithRuntime.
Context {U : UnicodeDB} {M : SemanticRuntime}.

(** ** The semantic query *)

Lemma query_unfold (self : LegalKnowledgeIndexer.t) (text : str) (k : Z)
  (q_emb : ndarray) (vectors : list (list fl)) :
  LegalKnowledgeIndexer.embed [text] = Ok q_emb ->
  LegalKnowledgeIndexer.index self = Some vectors ->
  LegalKnowledgeIndexer.query self text k
  = map_py (fun hit : R * Z =>
              id <- py_index (LegalKnowledgeIndexer.ids self) (snd hit) ;;
              Ok (fst hit, id))
           (search vectors (rows q_emb) k).
Proof.
  intros He Hi. unfold LegalKnowledgeIndexer.query.
  rewrite He, Hi. reflexivity.
Qed.

Lemma lookup_all_in_range (ids : list str) (results : list (R * Z)) :
  Forall (fun h => (- Z.of_nat (length ids) <= snd h < Z.of_nat (length ids))%Z)
         results ->
  exists hits,
    map_py (fun hit : R * Z =>
              id <- py_index ids (snd hit) ;; Ok (fst hit, id)) results
    = Ok hits /\
    Forall2 (fun h r =>
               fst r = fst h /\
               nth_error ids (Z.to_nat (wrap_index (length ids) (snd h)))
               = Some (snd r))
            results hits.
Proof.
  induction 1 as [|h results Hh _ (hits & Hm & Hrel)]; cbn [map_py].
  - exists []. split; [reflexivity | constructor].
  - destruct (@py_index_in_range _ ids _ Hh) as [x Hx].
    rewrite Hx, Hm. cbn [bind]. eexists. split; [reflexivity|].
    constructor; [|exact Hrel]. cbn [fst snd]. split; [reflexivity|].
    now apply py_index_inv in Hx.
Qed.

Lemma lookup_some_out_of_range (ids : list str) (results : list (R * Z)) :
  Exists (fun h =>
            ~ (- Z.of_nat (length ids) <= snd h < Z.of_nat (length ids))%Z)
         results ->
  map_py (fun hit : R * Z =>
            id <- py_index ids (snd hit) ;; Ok (fst hit, id)) results
  = Raise IndexError.
Proof.
  induction 1 as [h results Hh | h results _ IH]; cbn [map_py].
  - now rewrite (@py_index_out_of_range _ ids _ Hh).
  - destruct (py_index ids (snd h)) as [x|e] eqn:E; cbn [bind].
    + now rewrite IH.
    + unfold py_index in E. destruct (_ && _)%bool; [|congruence].
      destruct (nth_error ids _); congruence.
Qed.

(** [query] answers with one pair per search hit, in the order of the
    search, each with the score of the hit and the id at the hit's label; a
    negative label counts from the end of [ids], as a Python index does
    (so the label [-1] of a padded FAISS answer is the last id).  A label
    outside [[-len(ids), len(ids))] makes it raise [IndexError]. *)
Theorem query_follows_search_labels (self : LegalKnowledgeIndexer.t)
  (text : str) (k : Z) (q_emb : ndarray) (vectors : list (list fl)) :
  LegalKnowledgeIndexer.embed [text] = Ok q_emb ->
  LegalKnowledgeIndexer.index self = Some vectors ->
  let results := search vectors (rows q_emb) k in
  let n := length (LegalKnowledgeIndexer.ids self) in
  (Forall (fun h => (- Z.of_nat n <= snd h < Z.of_nat n)%Z) results ->
   exists hits,
     LegalKnowledgeIndexer.query self text k = Ok hits /\
     Forall2 (fun h r =>
                fst r = fst h /\
                nth_error (LegalKnowledgeIndexer.ids self)
                          (Z.to_nat (wrap_index n (snd h))) = Some (snd r))
             results hits) /\
  (Exists (fun h => ~ (- Z.of_nat n <= snd h < Z.of_nat n)%Z) results ->
   LegalKnowledgeIndexer.query self text k = Raise IndexError).
Proof.
  intros He Hi results n.
  rewrite (@query_unfold self text k q_emb vectors He Hi). split.
  - apply lookup_all_in_range.
  - apply lookup_some_out_of_range.
Qed.

(** ** From semantic hits to lexical candidates *)

Lemma candidates_of_hits (self : HybridRetrieval.t)
  (results : list (R * Z)) (sem_hits : list (R * str)) :
  NoDup (LegalKnowledgeIndexer.ids (HybridRetrieval.sb self)) ->
  map_py (fun hit : R * Z =>
            id <- py_index (LegalKnowledgeIndexer.ids (HybridRetrieval.sb self))
                           (snd hit) ;;
            Ok (fst hit, id)) results = Ok sem_hits ->
  map_py (HybridRetrieval.candidate_id self) sem_hits
  = Ok (map (fun h =>
               wrap_index
                 (length (LegalKnowledgeIndexer.ids (HybridRetrieval.sb self)))
                 (snd h)) results).
Proof.
  intros Hnd Hm. apply map_py_Forall2 in Hm.
  induction Hm as [|h r results sem_hits Hhr _ IH]; cbn [map_py map];
    [reflexivity|].
  destruct (py_index _ (snd h)) as [id|] eqn:E; cbn [bind] in Hhr;
    [|discriminate].
  injection Hhr as <-. apply py_index_inv in E as (Hj & _ & Hn).
  unfold HybridRetrieval.candidate_id at 1. cbn [snd].
  rewrite (@list_index_nth _ _ _ Hnd Hn), IH. cbn [bind].
  rewrite Z2Nat.id by lia. reflexivity.
Qed.

(** With pairwise distinct ids, the candidate positions [run] hands to the
    lexical index are the labels of the search, one per semantic hit and in
    the same order; a negative label counts from the end, so that a FAISS
    answer padded with [-1] makes the last chunk a candidate. *)
Theorem candidates_are_search_labels (self : HybridRetrieval.t) (k : Z)
  (q_emb : ndarray) (vectors : list (list fl)) (sem_hits : list (R * str)) :
  NoDup (LegalKnowledgeIndexer.ids (HybridRetrieval.sb self)) ->
  LegalKnowledgeIndexer.embed [HybridRetrieval.query self] = Ok q_emb ->
  LegalKnowledgeIndexer.index (HybridRetrieval.sb self) = Some vectors ->
  LegalKnowledgeIndexer.query (HybridRetrieval.sb self)
    (HybridRetrieval.query self) k = Ok sem_hits ->
  map_py (HybridRetrieval.candidate_id self) sem_hits
  = Ok (map (fun h =>
               wrap_index
                 (length (LegalKnowledgeIndexer.ids (HybridRetrieval.sb self)))
                 (snd h))
            (search vectors (rows q_emb) k)).
Proof.
  intros Hnd He Hi Hq.
  rewrite (@query_unfold _ _ k q_emb vectors He Hi) in Hq.
  now apply candidates_of_hits.
Qed.

(** ** [run] *)

Lemma query_hits_known (self : LegalKnowledgeIndexer.t) (text : str) (k : Z)
  (hits : list (R * str)) :
  LegalKnowledgeIndexer.query self text k = Ok hits ->
  Forall (fun r => In (snd r) (LegalKnowledgeIndexer.ids self)) hits.
Proof.
  unfold LegalKnowledgeIndexer.query.
  destruct (LegalKnowledgeIndexer.embed [text]) as [q|]; cbn [bind];
    [|discriminate].
  destruct (LegalKnowledgeIndexer.index self) as [vectors|]; [|discriminate].
  intros Hm. apply map_py_Forall2 in Hm.
  induction Hm as [|h r results hits Hhr _ IH]; constructor; [|exact IH].
  destruct (py_index _ (snd h)) as [id|] eqn:E; cbn [bind] in Hhr;
    [|discriminate].
  injection Hhr as <-. apply py_index_inv in E as (_ & _ & Hn).
  exact (nth_error_In _ _ Hn).
Qed.

Lemma candidate_ids_ok (self : HybridRetrieval.t) (hits : list (R * str)) :
  Forall (fun r => In (snd r)
                      (LegalKnowledgeIndexer.ids (HybridRetrieval.sb self)))
         hits ->
  exists cands, map_py (HybridRetrieval.candidate_id self) hits = Ok cands.
Proof.
  induction 1 as [|r hits Hr _ (cands & Hc)]; cbn [map_py].
  - now exists [].
  - unfold HybridRetrieval.candidate_id at 1.
    destruct (@list_index_In _ _ Hr) as [i ->]. rewrite Hc. cbn [bind].
    now eexists.
Qed.

Lemma chunks_ok (raw : list str) (ranked : list (nat * R)) :
  Forall (fun hit => exists chunk, list_at raw (fst hit) = Ok chunk) ranked ->
  exists res,
    map_py (fun hit : nat * R =>
              chunk <- list_at raw (fst hit) ;;
              Ok (HybridRetrieval.clean_chunk chunk)) ranked = Ok res.
Proof.
  induction 1 as [|hit ranked (chunk & Hc) _ (res & Hres)]; cbn [map_py].
  - now exists [].
  - rewrite Hc, Hres. cbn [bind]. now eexists.
Qed.

(** With a lexical index built by [load_and_prepare] ([k1 >= 0],
    [0 <= b <= 1]), [run] raises only when the semantic query raises, and
    then the same exception: [ids.index] always finds the id of a hit, the
    rerank does not raise, and every position it returns has its chunk in
    [raw_chunks]. *)
Theorem run_fails_only_in_query (k1 b : R) (dir : list (str * list entry))
  (self : HybridRetrieval.t) (top_k_sem top_k_bm25 : Z) :
  (0 <= k1)%R -> (0 <= b <= 1)%R ->
  BM25Preprocessor.load_and_prepare (BM25Preprocessor.init k1 b) dir
  = Ok (HybridRetrieval.bm25 self) ->
  (exists hits res,
     LegalKnowledgeIndexer.query (HybridRetrieval.sb self)
       (HybridRetrieval.query self) top_k_sem = Ok hits /\
     HybridRetrieval.run self top_k_sem top_k_bm25 = Ok res) \/
  (exists e,
     LegalKnowledgeIndexer.query (HybridRetrieval.sb self)
       (HybridRetrieval.query self) top_k_sem = Raise e /\
     HybridRetrieval.run self top_k_sem top_k_bm25 = Raise e).
Proof.
  intros Hk Hb Hload. rewrite load_and_prepare_ok in Hload.
  injection Hload as Hbm. unfold HybridRetrieval.run.
  destruct (LegalKnowledgeIndexer.query _ _ _) as [hits|e] eqn:Eq;
    cbn [bind]; [left | right; now exists e].
  destruct (@candidate_ids_ok self hits (@query_hits_known _ _ _ _ Eq))
    as [cands ->].
  cbn [bind]. rewrite <- Hbm.
  rewrite (@score_subset_built U k1 b dir Hk Hb). cbn [bind].
  destruct (@chunks_ok
              (BM25Preprocessor.raw_chunks (built k1 b dir))
              (py_take top_k_bm25
                 (sorted_desc
                    (fold_left (score_token_pure (built k1 b dir) cands)
                       (split (BM25Preprocessor.normalize
                                 (HybridRetrieval.query self))) []))))
    as [res Hres].
  - apply Forall_forall. intros [d s] Hin. cbn [fst].
    exact (proj2 (@ranked_in_range U k1 b dir _ _ _ _ _ Hin)).
  - exists hits, res. split; [reflexivity | exact Hres].
Qed.

End WithRuntime.

(** *** On the example corpus *)

Lemma example_ids_nodup :
  NoDup (LegalKnowledgeIndexer.ids
           (semantic_index (M := unit_runtime) example_dir)).
Proof.
  unfold semantic_index, semantic_paths.
  rewrite (@gather_fresh (Some (lit "./legal_chunks.faiss"))
             (Some (lit "./legal_chunks.chunks.pkl"))
             (Some (lit "./legal_chunks.ids.pkl")) example_dir
             example_listing).
  cbn [LegalKnowledgeIndexer.ids]. apply chunk_ids_nodup.
  apply NoDup_map_fst_filter. exact example_listing.
Qed.

Lemma example_query :
  LegalKnowledgeIndexer.query (M := unit_runtime)
    (semantic_index (M := unit_runtime) example_dir) (lit "redundancy pay") 5
  = Ok [(1%R, lit "employment.json_chunk_0");
        (1%R, lit "employment.json_chunk_1");
        (1%R, lit "employment.json_chunk_2");
        (fst faiss_no_hit, lit "employment.json_chunk_2");
        (fst faiss_no_hit, lit "employment.json_chunk_2")].
Proof. hybrid_eval. rewrite embed_unit. reflexivity. Qed.

Lemma query_follows_search_labels_witness :
  LegalKnowledgeIndexer.embed (M := unit_runtime) [lit "redundancy pay"]
  = Ok (NdArray 2 [[Fin 1]]) /\
  exists hits,
    LegalKnowledgeIndexer.query (M := unit_runtime)
      (semantic_index (M := unit_runtime) example_dir)
      (lit "redundancy pay") 5 = Ok hits /\
    length hits = 5.
Proof.
  assert (He : LegalKnowledgeIndexer.embed (M := unit_runtime)
                 [lit "redundancy pay"] = Ok (NdArray 2 [[Fin 1]]))
    by apply embed_unit.
  split; [exact He|].
  pose proof (@query_follows_search_labels unit_runtime
                (semantic_index (M := unit_runtime) example_dir)
                (lit "redundancy pay") 5 _ _ He eq_refl) as [Hin _].
  destruct Hin as (hits & Hq & Hrel).
  - repeat constructor; vm_compute; discriminate.
  - exists hits. split; [exact Hq|].
    apply Forall2_length in Hrel. rewrite <- Hrel. reflexivity.
Defined.

Lemma candidates_are_search_labels_witness :
  NoDup (LegalKnowledgeIndexer.ids
           (semantic_index (M := unit_runtime) example_dir)) /\
  map_py (HybridRetrieval.candidate_id
            (started (U := ascii_db) (M := unit_runtime)
                     (lit "redundancy pay") example_dir example_dir))
         [(1%R, lit "employment.json_chunk_0");
          (1%R, lit "employment.json_chunk_1");
          (1%R, lit "employment.json_chunk_2");
          (fst faiss_no_hit, lit "employment.json_chunk_2");
          (fst faiss_no_hit, lit "employment.json_chunk_2")]
  = Ok [0; 1; 2; 2; 2]%Z.
Proof.
  split; [exact example_ids_nodup|].
  exact (@candidates_are_search_labels unit_runtime
           (started (U := ascii_db) (M := unit_runtime)
                    (lit "redundancy pay") example_dir example_dir)
           5 _ _ _ example_ids_nodup
           (embed_unit [lit "redundancy pay"]) eq_refl example_query).
Defined.

Lemma run_fails_only_in_query_witness :
  (0 <= 3 / 2)%R /\ (0 <= 3 / 4 <= 1)%R /\
  ((exists hits res,
      LegalKnowledgeIndexer.query (M := unit_runtime)
        (semantic_index (M := unit_runtime) example_dir)
        (lit "redundancy pay") 5 = Ok hits /\
      HybridRetrieval.run (U := ascii_db) (M := unit_runtime)
        (started (U := ascii_db) (M := unit_runtime)
                 (lit "redundancy pay") example_dir example_dir) 5 3
      = Ok res) \/
   (exists e,
      LegalKnowledgeIndexer.query (M := unit_runtime)
        (semantic_index (M := unit_runtime) example_dir)
        (lit "redundancy pay") 5 = Raise e /\
      HybridRetrieval.run (U := ascii_db) (M := unit_runtime)
        (started (U := ascii_db) (M := unit_runtime)
                 (lit "redundancy pay") example_dir example_dir) 5 3
      = Raise e)).
Proof.
  split; [exact example_k1|]. split; [exact example_b|].
  exact (@run_fails_only_in_query ascii_db unit_runtime (3 / 2) (3 / 4)
           example_dir
           (started (U := ascii_db) (M := unit_runtime)
                    (lit "redundancy pay") example_dir example_dir)
           5 3 example_k1 example_b
           (load_and_prepare_ok (3 / 2) (3 / 4) example_dir)).
Defined.

End PipelineFacts.

Module AgentFacts.
Import BM25Facts.
Import RetrievalFacts.

(** ** [str.split] with a separator *)

Lemma split_sep_from_nonempty (sep : str) (skip : nat) (cur s : str) :
  split_sep_from sep skip cur s <> [].
Proof.
  revert skip cur. induction s as [|c s IH]; intros skip cur;
    cbn [split_sep_from]; [discriminate|].
  destruct skip; [|apply IH].
  destruct (startswith sep (c :: s)); [discriminate | apply IH].
Qed.

Lemma occurs_nil (sep : str) : sep <> [] -> occurs sep [] = false.
Proof. destruct sep; [contradiction | reflexivity]. Qed.

Lemma startswith_prefix (p s : str) :
  startswith p s = true -> exists post, s = p ++ post.
Proof.
  revert s. induction p as [|a p IH]; intros s; cbn [startswith].
  - intros _. now exists s.
  - destruct s as [|b s]; [discriminate|].
    intros H. apply andb_true_iff in H as [Hab Hp].
    apply N.eqb_eq in Hab. subst b.
    destruct (IH _ Hp) as [post ->]. now exists post.
Qed.

Lemma startswith_refl_app (p post : str) : startswith p (p ++ post) = true.
Proof.
  induction p as [|a p IH]; cbn [startswith app]; [reflexivity|].
  now rewrite N.eqb_refl, IH.
Qed.

Lemma startswith_extend (p s w : str) :
  startswith p (s ++ w) = false -> startswith p s = false.
Proof.
  intros H. destruct (startswith p s) eqn:E; [|reflexivity].
  apply (@startswith_app p s w) in E. congruence.
Qed.

(** The first piece ends where the separator first occurs. *)
Lemma split_sep_first (sep : str) (s cur p : str) (ps : list str) :
  sep <> [] ->
  split_sep_from sep 0 cur s = p :: ps ->
  exists p',
    p = rev cur ++ p' /\ occurs sep p' = false /\
    ((ps = [] /\ s = p') \/ (ps <> [] /\ exists post, s = p' ++ sep ++ post)).
Proof.
  intros Hsep. revert cur p ps.
  induction s as [|c s IH]; intros cur p ps; cbn [split_sep_from].
  - intros [= <- <-]. exists []. rewrite app_nil_r.
    split; [reflexivity|]. split; [now apply occurs_nil | now left].
  - destruct (startswith sep (c :: s)) eqn:E.
    + intros [= <- <-]. exists []. rewrite app_nil_r.
      split; [reflexivity|]. split; [now apply occurs_nil|]. right.
      split; [apply split_sep_from_nonempty|].
      now apply startswith_prefix in E.
    + intros Hsplit.
      destruct (IH _ _ _ Hsplit) as (p' & -> & Hocc & Hrest).
      exists (c :: p'). cbn [rev]. rewrite <- app_assoc.
      split; [reflexivity|].
      assert (Hpre : exists w, c :: s = (c :: p') ++ w).
      { destruct Hrest as [[_ ->] | [_ (post & ->)]].
        - exists []. now rewrite app_nil_r.
        - now exists (sep ++ post). }
      split.
      * cbn [occurs]. rewrite Hocc, orb_false_r.
        destruct Hpre as [w Hw]. rewrite Hw in E.
        now apply startswith_extend in E.
      * destruct Hrest as [[-> ->] | [Hne (post & ->)]].
        -- now left.
        -- right. split; [exact Hne|]. now exists post.
Qed.

Lemma split_sep_single (sep : str) (s cur : str) :
  occurs sep s = false -> split_sep_from sep 0 cur s = [rev cur ++ s].
Proof.
  revert cur. induction s as [|c s IH]; intros cur Hocc;
    cbn [split_sep_from].
  - now rewrite app_nil_r.
  - cbn [occurs] in Hocc. apply orb_false_iff in Hocc as [Hs Hocc].
    rewrite Hs, IH by exact Hocc. cbn [rev]. now rewrite <- app_assoc.
Qed.

Lemma occurs_eq (sep s : str) :
  occurs sep s
  = startswith sep s
    || match s with [] => false | _ :: rest => occurs sep rest end.
Proof. now destruct s. Qed.

Lemma occurs_app_r (sep p post : str) : occurs sep (p ++ sep ++ post) = true.
Proof.
  induction p as [|c p IH]; cbn [app].
  - now rewrite occurs_eq, startswith_refl_app.
  - rewrite occurs_eq, IH. apply orb_true_r.
Qed.

(** ** Stripped text *)

Lemma occurs_suffix (sep w s : str) :
  occurs sep (w ++ s) = false -> occurs sep s = false.
Proof.
  induction w as [|c w IH]; cbn [app]; [auto|].
  cbn [occurs]. intros H. apply orb_false_iff in H as [_ H]. now apply IH.
Qed.

Lemma occurs_prefix (sep s w : str) :
  occurs sep (s ++ w) = false -> occurs sep s = false.
Proof.
  induction s as [|c s IH]; cbn [app].
  - intros H. destruct sep as [|a sep]; [|reflexivity].
    destruct w; cbn in H; discriminate.
  - intros H. change (occurs sep (c :: s ++ w))
      with (startswith sep ((c :: s) ++ w) || occurs sep (s ++ w)) in H.
    apply orb_false_iff in H as [H1 H2].
    cbn [occurs]. rewrite (IH H2), orb_false_r.
    now apply startswith_extend in H1.
Qed.

Lemma occurs_strip (sep s : str) :
  occurs sep s = false -> occurs sep (strip s) = false.
Proof.
  intros H. unfold strip.
  destruct (lstrip_by_suffix is_space s) as (w1 & Hw1 & _).
  destruct (rstrip_by_prefix is_space (lstrip_by is_space s)) as (w2 & Hw2 & _).
  rewrite Hw1 in H. apply occurs_suffix in H.
  rewrite Hw2 in H. now apply occurs_prefix in H.
Qed.

(** ** [ContentAgent.on_system_message] *)

(** [on_system_message] never raises, and what it keeps holds no blank
    line: a text without the separator ["\n\n"] is kept as it is;
    otherwise only the text before the first ["\n\n"] is kept, stripped,
    and everything after it is dropped. *)
Theorem on_system_message_keeps_first_part (full : str) :
  exists kept,
    ContentAgent.on_system_message full = Ok kept /\
    occurs [LF; LF] kept = false /\
    (occurs [LF; LF] full = false -> kept = full) /\
    (occurs [LF; LF] full = true ->
     exists first rest,
       full = first ++ [LF; LF] ++ rest /\
       occurs [LF; LF] first = false /\
       kept = strip first).
Proof.
  unfold ContentAgent.on_system_message, split_sep.
  destruct (split_sep_from [LF; LF] 0 [] full) as [|p ps] eqn:E.
  - now apply split_sep_from_nonempty in E.
  - destruct (@split_sep_first [LF; LF] full [] p ps ltac:(discriminate) E)
      as (p' & Hp & Hocc & Hrest).
    cbn [rev app] in Hp. subst p'.
    destruct Hrest as [[-> ->] | [Hne (post & Hfull)]].
    + cbn [length Nat.ltb Nat.leb]. exists p.
      split; [reflexivity|]. split; [exact Hocc|]. split; [reflexivity|].
      congruence.
    + destruct ps as [|q ps]; [contradiction|].
      change (1 <? length (p :: q :: ps)) with true. cbv iota.
      change (py_index (p :: q :: ps) 0) with (Ok p). cbn [bind].
      exists (strip p). split; [reflexivity|].
      split; [now apply occurs_strip|]. split.
      * intros Hn. rewrite Hfull, occurs_app_r in Hn. discriminate.
      * intros _. exists p, post. now repeat split.
Qed.

(** ** [RetrievalAgent.retrieve] *)

Lemma split_sep_piece (c rest cur : str) :
  occurs [LF; LF] c = false ->
  (forall v, c <> v ++ [LF]) ->
  split_sep_from [LF; LF] 0 cur (c ++ LF :: LF :: rest)
  = (rev cur ++ c) :: split_sep_from [LF; LF] 0 [] rest.
Proof.
  revert cur. induction c as [|x c IH]; intros cur Hocc Hlast.
  - cbn [app]. rewrite app_nil_r. reflexivity.
  - assert (Hstart : startswith [LF; LF] ((x :: c) ++ LF :: LF :: rest)
                     = false).
    { cbn [app startswith]. destruct (N.eqb LF x) eqn:Ex; [|reflexivity].
      apply N.eqb_eq in Ex. subst x. cbn [andb].
      destruct c as [|y c].
      - exfalso. now apply (Hlast []).
      - rewrite occurs_eq in Hocc. apply orb_false_iff in Hocc as [Hs _].
        cbn [startswith] in Hs. rewrite N.eqb_refl in Hs. cbn [andb] in Hs.
        cbn [app]. exact Hs. }
    change (split_sep_from [LF; LF] 0 cur ((x :: c) ++ LF :: LF :: rest))
      with (if startswith [LF; LF] ((x :: c) ++ LF :: LF :: rest)
            then rev cur :: split_sep_from [LF; LF] 1 []
                              (c ++ LF :: LF :: rest)
            else split_sep_from [LF; LF] 0 (x :: cur)
                   (c ++ LF :: LF :: rest)).
    rewrite Hstart, IH.
    + cbn [rev]. now rewrite <- app_assoc.
    + rewrite occurs_eq in Hocc. now apply orb_false_iff in Hocc as [_ Hocc].
    + intros v ->. now apply (Hlast (x :: v)).
Qed.

Lemma split_join_chunks (chunks : list str) :
  chunks <> [] ->
  Forall (fun c => occurs [LF; LF] c = false /\ forall v, c <> v ++ [LF])
         chunks ->
  split_sep [LF; LF] (join [LF; LF] chunks) = chunks.
Proof.
  unfold split_sep. intros Hne Hall.
  induction Hall as [|c chunks [Hocc Hlast] Hall IH]; [contradiction|].
  destruct chunks as [|c2 chunks].
  - cbn [join]. now rewrite split_sep_single.
  - change (join [LF; LF] (c :: c2 :: chunks))
      with (c ++ LF :: LF :: join [LF; LF] (c2 :: chunks)).
    rewrite split_sep_piece by assumption.
    cbn [rev app]. f_equal. apply IH. discriminate.
Qed.

Lemma strip_no_trailing_lf (s v : str) : strip s <> v ++ [LF].
Proof.
  unfold strip. intros E.
  assert (H : is_space LF = false).
  { apply (@NormalizeFacts.rstrip_by_last is_space _ _ _ E). }
  discriminate H.
Qed.

Section WithRuntime.
Context {U : UnicodeDB} {M : SemanticRuntime}.

Lemma run_chunks_stripped (self : HybridRetrieval.t) (a b : Z)
  (res : list str) :
  HybridRetrieval.run self a b = Ok res ->
  Forall (fun r => forall v, r <> v ++ [LF]) res.
Proof.
  intros Hrun.
  destruct (@run_inv _ _ _ _ _ _ Hrun) as (sem & cands & hits & _ & _ & _ & Hm).
  apply map_py_Forall2 in Hm. clear - Hm.
  induction Hm as [|hit r hits res Hhit _ IH]; constructor; [|exact IH].
  destruct (list_at _ (fst hit)) as [chunk|]; cbn [bind] in Hhit;
    [|discriminate].
  injection Hhit as <-. intros v. apply strip_no_trailing_lf.
Qed.

Lemma retrieve_inv (self self' : RetrievalAgent.t) (q : str)
  (pieces : list str) :
  RetrievalAgent.retrieve self q = Ok (self', pieces) ->
  exists r chunks,
    RetrievalAgent.retriever self = Some r /\
    HybridRetrieval.run
      {| HybridRetrieval.query := q;
         HybridRetrieval.sb := HybridRetrieval.sb r;
         HybridRetrieval.bm25 := HybridRetrieval.bm25 r |} 5 3 = Ok chunks /\
    pieces = split_sep [LF; LF] (join [LF; LF] chunks).
Proof.
  unfold RetrievalAgent.retrieve, RetrievalAgent.on_user_message.
  destruct (RetrievalAgent.retriever self) as [r|]; [|discriminate].
  destruct (HybridRetrieval.run _ 5 3) as [chunks|] eqn:E; cbn [bind];
    [|discriminate].
  cbn [fst snd content_of]. intros [= _ <-].
  exists r, chunks. now repeat split.
Qed.

(** [retrieve] never returns the empty list, so that [chunks[0]] is
    always there for its caller; when the retriever finds nothing, the
    answer is the list that holds the empty string. *)
Theorem retrieve_never_empty (self self' : RetrievalAgent.t) (q : str)
  (pieces : list str) :
  RetrievalAgent.retrieve self q = Ok (self', pieces) ->
  pieces <> [] /\
  exists r chunks,
    RetrievalAgent.retriever self = Some r /\
    HybridRetrieval.run
      {| HybridRetrieval.query := q;
         HybridRetrieval.sb := HybridRetrieval.sb r;
         HybridRetrieval.bm25 := HybridRetrieval.bm25 r |} 5 3 = Ok chunks /\
    (chunks = [] -> pieces = [[]]).
Proof.
  intros Hr. destruct (retrieve_inv _ _ Hr) as (r & chunks & H1 & H2 & ->).
  split; [apply split_sep_from_nonempty|].
  exists r, chunks. split; [exact H1|]. split; [exact H2|].
  now intros ->.
Qed.

(** [retrieve] joins the chunks of [run] with a blank line and splits the
    text again at blank lines: when [run] returns at least one chunk and no
    chunk holds a blank line (["\n\n"]), [retrieve] returns exactly the
    chunks of [run]. *)
Theorem retrieve_returns_the_chunks (self : RetrievalAgent.t)
  (r : HybridRetrieval.t) (q : str) (chunks : list str) :
  RetrievalAgent.retriever self = Some r ->
  HybridRetrieval.run
    {| HybridRetrieval.query := q;
       HybridRetrieval.sb := HybridRetrieval.sb r;
       HybridRetrieval.bm25 := HybridRetrieval.bm25 r |} 5 3 = Ok chunks ->
  chunks <> [] ->
  Forall (fun c => occurs [LF; LF] c = false) chunks ->
  exists self', RetrievalAgent.retrieve self q = Ok (self', chunks).
Proof.
  intros Hr Hrun Hne Hocc.
  unfold RetrievalAgent.retrieve, RetrievalAgent.on_user_message.
  rewrite Hr, Hrun. cbn [bind fst snd content_of].
  eexists. rewrite split_join_chunks; [reflexivity | exact Hne |].
  pose proof (run_chunks_stripped _ _ _ Hrun) as Hs.
  rewrite Forall_forall in Hocc, Hs |- *.
  intros c Hc. split; [now apply Hocc | now apply Hs].
Qed.

End WithRuntime.

(** *** On the example corpus *)

Lemma example_run :
  exists chunks,
    HybridRetrieval.run (U := ascii_db) (M := unit_runtime)
      (started (U := ascii_db) (M := unit_runtime) (lit "redundancy pay")
               example_dir example_dir) 5 3 = Ok chunks /\
    chunks <> [] /\
    Forall (fun c => occurs [LF; LF] c = false) chunks.
Proof.
  run_eval.
  destruct (Rlt_dec _ _); eexists; (split; [reflexivity|]);
    (split; [discriminate|]); repeat constructor.
Qed.

Lemma retrieve_never_empty_witness :
  exists self' pieces,
    RetrievalAgent.retrieve (U := ascii_db) (M := unit_runtime)
      example_agent (lit "redundancy pay") = Ok (self', pieces) /\
    pieces <> [].
Proof.
  destruct example_run as (chunks & Hrun & _ & _).
  assert (Hr : RetrievalAgent.retrieve (U := ascii_db) (M := unit_runtime)
                 example_agent (lit "redundancy pay")
               = Ok ({| RetrievalAgent.retriever :=
                          Some (started (U := ascii_db) (M := unit_runtime)
                                  (lit "redundancy pay")
                                  example_dir example_dir);
                        RetrievalAgent.confirmed_results := [] |},
                     split_sep [LF; LF] (join [LF; LF] chunks))).
  { unfold RetrievalAgent.retrieve, RetrievalAgent.on_user_message.
    cbn [example_agent RetrievalAgent.retriever].
    change {| HybridRetrieval.query := lit "redundancy pay";
              HybridRetrieval.sb := _; HybridRetrieval.bm25 := _ |}
      with (started (U := ascii_db) (M := unit_runtime)
              (lit "redundancy pay") example_dir example_dir).
    rewrite Hrun. reflexivity. }
  do 2 eexists. split; [exact Hr|].
  exact (proj1 (@retrieve_never_empty ascii_db unit_runtime _ _ _ _ Hr)).
Defined.

Lemma retrieve_returns_the_chunks_witness :
  exists chunks self',
    HybridRetrieval.run (U := ascii_db) (M := unit_runtime)
      (started (U := ascii_db) (M := unit_runtime) (lit "redundancy pay")
               example_dir example_dir) 5 3 = Ok chunks /\
    RetrievalAgent.retrieve (U := ascii_db) (M := unit_runtime)
      example_agent (lit "redundancy pay") = Ok (self', chunks).
Proof.
  destruct example_run as (chunks & Hrun & Hne & Hocc).
  destruct (@retrieve_returns_the_chunks ascii_db unit_runtime example_agent
              (started (U := ascii_db) (M := unit_runtime) []
                       example_dir example_dir)
              (lit "redundancy pay") chunks eq_refl Hrun Hne Hocc)
    as [self' Hr].
  exists chunks, self'. split; [exact Hrun | exact Hr].
Defined.

End AgentFacts.

Module AlignmentFacts.
Import BM25Facts.
Import RetrievalFacts.
Import FlattenFacts.
Import SemanticIndexFacts.

Lemma flat_map_map_snd {A B C : Type} (g : B -> C) (l : list (A * list B)) :
  flat_map (fun f => map g (snd f)) l = map g (flat_map snd l).
Proof.
  induction l as [|f l IH]; cbn [flat_map]; [reflexivity|].
  now rewrite map_app, IH.
Qed.

Lemma flat_map_ext_in {A B : Type} (g h : A -> list B) (l : list A) :
  (forall x, In x l -> g x = h x) -> flat_map g l = flat_map h l.
Proof.
  induction l as [|x l IH]; intros Hgh; cbn [flat_map]; [reflexivity|].
  rewrite (Hgh x (or_introl eq_refl)), IH; [reflexivity|].
  intros y Hy. apply Hgh. now right.
Qed.

Lemma flat_map_filter {A B : Type} (p : A -> bool) (g : A -> list B)
  (l : list A) :
  flat_map (fun x => if p x then g x else []) l = flat_map g (filter p l).
Proof.
  induction l as [|x l IH]; cbn [flat_map filter]; [reflexivity|].
  destruct (p x); cbn [flat_map app]; now rewrite IH.
Qed.

Section WithRuntime.
Context {U : UnicodeDB} {M : SemanticRuntime}.

Lemma lexical_chunks_of_records (dir : list (str * list entry)) :
  (forall f, In f dir ->
     endswith (lit ".json") (lower (fst f))
     = endswith (lit ".json") (fst f)) ->
  (forall f e, In f (json_files dir) -> In e (snd f) ->
     LegalKnowledgeIndexer.flatten_content e <> []) ->
  BM25Preprocessor.gather_chunks dir
  = map BM25Preprocessor.flatten_content (flat_map snd (json_files dir)).
Proof.
  intros Hnames Hrec. unfold BM25Preprocessor.gather_chunks.
  rewrite (flat_map_ext_in
             (fun f => if endswith (lit ".json") (lower (fst f))
                       then BM25Preprocessor.file_chunks (snd f) else [])
             (fun f => if endswith (lit ".json") (fst f)
                       then BM25Preprocessor.file_chunks (snd f) else [])).
  - rewrite (flat_map_filter (fun f => endswith (lit ".json") (fst f))
               (fun f => BM25Preprocessor.file_chunks (snd f))).
    fold (json_files dir). rewrite <- flat_map_map_snd.
    apply flat_map_ext_in. intros f Hf.
    apply file_records_align. apply Forall_forall. intros e He.
    now apply (Hrec f).
  - intros f Hf. now rewrite Hnames.
Qed.

Lemma semantic_chunks_of_records (files : list (str * list entry)) :
  (forall f e, In f files -> In e (snd f) ->
     LegalKnowledgeIndexer.flatten_content e <> []) ->
  flat_map (fun f => map fst (LegalKnowledgeIndexer.flatten_file (snd f)))
           files
  = map LegalKnowledgeIndexer.flatten_content (flat_map snd files).
Proof.
  intros Hrec. rewrite <- flat_map_map_snd.
  apply flat_map_ext_in. intros f Hf.
  apply file_records_align. apply Forall_forall. intros e He.
  now apply (Hrec f).
Qed.

(** The two indices number the records alike when they read the same
    files (no file name ends in [.json] only once lower-cased) and every
    record has text for the semantic index: chunk [i] of the semantic
    index and chunk [i] of the lexical index are the two flattenings of
    the same record, and the indices have the same size. *)
Theorem indices_number_records_alike (k1 b : R) (p1 p2 p3 : option str)
  (dir : list (str * list entry)) (d d' : LegalKnowledgeIndexer.disk)
  (s' : LegalKnowledgeIndexer.t) :
  NoDup (map fst dir) ->
  (forall f, In f dir ->
     endswith (lit ".json") (lower (fst f))
     = endswith (lit ".json") (fst f)) ->
  (forall f e, In f (json_files dir) -> In e (snd f) ->
     LegalKnowledgeIndexer.flatten_content e <> []) ->
  LegalKnowledgeIndexer.build_index
    (LegalKnowledgeIndexer.load_and_flatten
       (LegalKnowledgeIndexer.init p1 p2 p3) dir) d = (Ok s', d') ->
  exists idx,
    BM25Preprocessor.load_and_prepare (BM25Preprocessor.init k1 b) dir
    = Ok idx /\
    LegalKnowledgeIndexer.all_chunks s'
    = map LegalKnowledgeIndexer.flatten_content
          (flat_map snd (json_files dir)) /\
    BM25Preprocessor.raw_chunks idx
    = map BM25Preprocessor.flatten_content (flat_map snd (json_files dir)) /\
    length (LegalKnowledgeIndexer.ids s') = BM25Preprocessor.N idx.
Proof.
  intros Hnd Hnames Hrec.
  unfold LegalKnowledgeIndexer.build_index.
  rewrite (@gather_fresh p1 p2 p3 dir Hnd).
  destruct (LegalKnowledgeIndexer.embed _) as [embs|]; [|discriminate].
  intros [= <- _]. exists (built k1 b dir).
  split; [apply load_and_prepare_ok|].
  cbn [LegalKnowledgeIndexer.all_chunks LegalKnowledgeIndexer.ids].
  split; [now apply semantic_chunks_of_records|].
  unfold built. cbn [BM25Preprocessor.raw_chunks BM25Preprocessor.N].
  rewrite (lexical_chunks_of_records dir Hnames Hrec).
  split; [reflexivity|].
  rewrite !length_map.
  rewrite (@flat_map_length_same _ _ _
             (fun f => map (chunk_id (fst f))
                           (seq 0 (length (LegalKnowledgeIndexer.flatten_file
                                             (snd f)))))
             (fun f => map fst (LegalKnowledgeIndexer.flatten_file (snd f)))).
  - rewrite (semantic_chunks_of_records _ Hrec). apply length_map.
  - intros f. now rewrite !length_map, length_seq.
Qed.

End WithRuntime.

Lemma example_names (f : str * list entry) :
  In f example_dir ->
  endswith (lit ".json") (lower (UnicodeDB := ascii_db) (fst f))
  = endswith (lit ".json") (fst f).
Proof. intros [<- | []]. reflexivity. Qed.

Lemma example_records (f : str * list entry) (e : entry) :
  In f (json_files example_dir) -> In e (snd f) ->
  LegalKnowledgeIndexer.flatten_content e <> [].
Proof.
  intros [<- | []] [<- | [<- | [<- | []]]]; vm_compute; discriminate.
Qed.

Lemma indices_number_records_alike_witness :
  NoDup (map fst example_dir) /\
  exists s' d' idx,
    LegalKnowledgeIndexer.build_index (M := unit_runtime)
      (LegalKnowledgeIndexer.load_and_flatten semantic_paths example_dir) []
    = (Ok s', d') /\
    BM25Preprocessor.load_and_prepare (U := ascii_db)
      (BM25Preprocessor.init (3 / 2) (3 / 4)) example_dir = Ok idx /\
    length (LegalKnowledgeIndexer.ids s') = BM25Preprocessor.N idx.
Proof.
  split; [exact example_listing|].
  destruct (SemanticFacts.build_index_unit
              (LegalKnowledgeIndexer.load_and_flatten semantic_paths
                 example_dir) []) as (s' & d' & Hb).
  destruct (@indices_number_records_alike ascii_db unit_runtime
              (3 / 2) (3 / 4) _ _ _ example_dir [] d' s'
              example_listing example_names example_records Hb)
    as (idx & Hload & _ & _ & Hlen).
  exists s', d', idx. split; [exact Hb|]. split; [exact Hload | exact Hlen].
Defined.

End AlignmentFacts.

Module CleanFacts.
Import BM25Facts.
Import RetrievalFacts.
Import FlattenFacts.

(** ** [splitlines] after [join] *)

Lemma splitlines_line (ln rest cur : str) :
  single_line ln ->
  splitlines_from cur (ln ++ LF :: rest)
  = (rev cur ++ ln) :: splitlines_from [] rest.
Proof.
  revert cur. induction ln as [|c ln IH]; intros cur Hln.
  - cbn [app]. rewrite app_nil_r. reflexivity.
  - inversion Hln as [|? ? [Hb Hcr] Hln']; subst.
    cbn [app splitlines_from].
    apply N.eqb_neq in Hcr. rewrite Hcr, Hb, (IH (c :: cur) Hln').
    cbn [rev]. now rewrite <- app_assoc.
Qed.

Lemma splitlines_last_from (ln cur : str) :
  single_line ln -> cur <> [] ->
  splitlines_from cur ln = [rev cur ++ ln].
Proof.
  revert cur. induction ln as [|c ln IH]; intros cur Hln Hcur.
  - cbn [splitlines_from]. rewrite app_nil_r. now destruct cur.
  - inversion Hln as [|? ? [Hb Hcr] Hln']; subst.
    cbn [splitlines_from]. apply N.eqb_neq in Hcr.
    rewrite Hcr, Hb, (IH (c :: cur) Hln') by discriminate.
    cbn [rev]. now rewrite <- app_assoc.
Qed.

Lemma splitlines_last (ln : str) :
  single_line ln ->
  splitlines_from [] ln = match ln with [] => [] | _ => [ln] end.
Proof.
  destruct ln as [|c ln]; [reflexivity|].
  intros Hln. inversion Hln as [|? ? [Hb Hcr] Hln']; subst.
  cbn [splitlines_from]. apply N.eqb_neq in Hcr. rewrite Hcr, Hb.
  now rewrite splitlines_last_from by (assumption || discriminate).
Qed.

Lemma splitlines_join (lines : list str) :
  Forall single_line lines ->
  splitlines (join [LF] lines) = drop_last_empty lines.
Proof.
  unfold splitlines.
  induction 1 as [|x lines Hx Hall IH]; [reflexivity|].
  destruct lines as [|y lines].
  - cbn [join drop_last_empty]. now apply splitlines_last.
  - change (join [LF] (x :: y :: lines))
      with (x ++ LF :: join [LF] (y :: lines)).
    rewrite (splitlines_line _ [] Hx), IH. reflexivity.
Qed.

(** ** Trailing empty lines do not survive [strip] *)

Lemma drop_last_empty_cases (lines : list str) :
  drop_last_empty lines = lines \/ lines = drop_last_empty lines ++ [[]].
Proof.
  induction lines as [|x lines IH]; [now left|].
  destruct lines as [|y lines].
  - destruct x; [now right | now left].
  - change (drop_last_empty (x :: y :: lines))
      with (x :: drop_last_empty (y :: lines)).
    destruct IH as [-> | IH]; [now left|].
    right. cbn [app]. now rewrite <- IH.
Qed.

Lemma drop_last_empty_head (r : str) (lines : list str) :
  drop_last_empty (r :: lines) = [] \/
  exists t, drop_last_empty (r :: lines) = r :: t.
Proof.
  destruct lines as [|y lines].
  - destruct r; [now left | right; now eexists].
  - right. now eexists.
Qed.

Lemma join_snoc (sep x : str) (lines : list str) :
  lines <> [] -> join sep (lines ++ [x]) = join sep lines ++ sep ++ x.
Proof.
  induction lines as [|y lines IH]; [contradiction|]. intros _.
  destruct lines as [|z lines]; [reflexivity|].
  change (join sep ((y :: z :: lines) ++ [x]))
    with (y ++ sep ++ join sep ((z :: lines) ++ [x])).
  rewrite IH by discriminate.
  change (join sep (y :: z :: lines)) with (y ++ sep ++ join sep (z :: lines)).
  now rewrite <- !app_assoc.
Qed.

Lemma lstrip_by_app (p : char -> bool) (x w : str) :
  lstrip_by p (x ++ w)
  = match lstrip_by p x with
    | [] => lstrip_by p w
    | y => y ++ w
    end.
Proof.
  induction x as [|c x IH]; cbn [app lstrip_by].
  - now destruct (lstrip_by p w).
  - destruct (p c); [exact IH | reflexivity].
Qed.

Lemma strip_snoc_space (x : str) (c : char) :
  is_space c = true -> strip (x ++ [c]) = strip x.
Proof.
  intros Hc. unfold strip. rewrite lstrip_by_app.
  destruct (lstrip_by is_space x) as [|y ys] eqn:E.
  - cbn [lstrip_by]. rewrite Hc. reflexivity.
  - unfold rstrip_by. rewrite rev_app_distr. cbn [rev app lstrip_by].
    now rewrite Hc.
Qed.

Lemma strip_join_drop_last_empty (lines : list str) :
  strip (join [LF] (drop_last_empty lines)) = strip (join [LF] lines).
Proof.
  destruct (drop_last_empty_cases lines) as [-> | E]; [reflexivity|].
  destruct (drop_last_empty lines) as [|x l] eqn:D.
  - rewrite E. reflexivity.
  - rewrite E. rewrite join_snoc by discriminate.
    rewrite app_nil_r. symmetry. now apply strip_snoc_space.
Qed.

(** ** What [run] hands back of a lexical chunk *)

Lemma pop_sections_keep (lines : list str) :
  (forall ln t, lines = ln :: t -> startswith (lit "Section:") ln = false) ->
  HybridRetrieval.pop_sections lines = lines.
Proof.
  destruct lines as [|ln lines]; [reflexivity|]. intros H.
  cbn [HybridRetrieval.pop_sections]. now rewrite (H ln lines eq_refl).
Qed.

Lemma clean_chunk_of_lines (sl : str) (rest : list str) :
  startswith (lit "Section:") sl = true -> sl <> [] ->
  Forall single_line (sl :: rest) ->
  startswith (lit "Section:") (hd [] rest) = false ->
  HybridRetrieval.clean_chunk (join [LF] (sl :: rest))
  = strip (join [LF] rest).
Proof.
  intros Hsl Hne Hlines Hrest. unfold HybridRetrieval.clean_chunk.
  rewrite (splitlines_join Hlines).
  destruct rest as [|r rest].
  - cbn [drop_last_empty]. destruct sl as [|c sl]; [contradiction|].
    cbn [HybridRetrieval.pop_sections]. now rewrite Hsl.
  - change (drop_last_empty (sl :: r :: rest))
      with (sl :: drop_last_empty (r :: rest)).
    cbn [HybridRetrieval.pop_sections]. rewrite Hsl.
    rewrite pop_sections_keep.
    + apply strip_join_drop_last_empty.
    + intros ln t E. cbn [hd] in Hrest.
      destruct (drop_last_empty_head r rest) as [E0 | [t0 E0]];
        rewrite E0 in E; [discriminate|].
      now injection E as <- _.
Qed.

(** For a record with a Section heading whose lines hold no line break,
    and whose line after the Section line does not itself start with
    [Section:], what [run] hands back of the record's lexical chunk is the
    chunk without its Section line: the remaining lines, joined and
    stripped. *)
Theorem clean_chunk_drops_section_line (e : entry) (s : str) :
  truthy (section e) = Some s ->
  Forall single_line (BM25Preprocessor.flatten_lines e) ->
  startswith (lit "Section:")
             (hd [] (tl (BM25Preprocessor.flatten_lines e))) = false ->
  hd [] (BM25Preprocessor.flatten_lines e) = lit "Section: " ++ s ++ lit "." /\
  HybridRetrieval.clean_chunk (BM25Preprocessor.flatten_content e)
  = strip (join [LF] (tl (BM25Preprocessor.flatten_lines e))).
Proof.
  intros Hs. unfold BM25Preprocessor.flatten_content.
  destruct (flatten_lines_related e) as (body & -> & _).
  unfold BM25Preprocessor.heading_lines. rewrite Hs.
  set (sl := lit "Section: " ++ s ++ lit ".").
  assert (Hsl : startswith (lit "Section:") sl = true) by reflexivity.
  assert (Hne : sl <> []) by discriminate.
  destruct (truthy (subsection e)) as [t|]; cbn [app hd tl];
    intros Hlines Hrest; (split; [reflexivity|]);
    now apply clean_chunk_of_lines.
Qed.

Lemma clean_chunk_drops_section_line_witness :
  HybridRetrieval.clean_chunk
    (BM25Preprocessor.flatten_content
       (Entry (Some (lit "Redundancy")) None
              [Block (lit "An employee may claim redundancy pay.") []] None))
  = strip (join [LF] [lit "An employee may claim redundancy pay."]).
Proof.
  refine (proj2 (@clean_chunk_drops_section_line
                   (Entry (Some (lit "Redundancy")) None
                      [Block (lit "An employee may claim redundancy pay.") []]
                      None)
                   (lit "Redundancy") eq_refl _ _)).
  - repeat constructor; discriminate.
  - reflexivity.
Defined.

End CleanFacts.
